(** * Reconcilers of the ACME hardware management plugin

    A shallow embedding of [allocation_reconciler.go],
    [release_reconciler.go] and, in the module [Program], [main.go].  The
    two reconciler files hold the same [Reconcile] control flow, once per
    kind; here it is written once, over the kind's spec and status types
    and its two hooks ([processUpdate], [processDelete]), and instantiated
    in the modules [AllocationReconciler] and [ReleaseReconciler].

    The reconcilers talk to the Kubernetes API through the controller
    runtime client.  That environment is modelled as an explicit [World]:
    the stored objects and secrets, the scheme, the outcome the API server
    will give to each coming call, the bytes the random source will
    deliver, the clock, and the trace of everything the code did (client
    calls, hook calls and log lines, oldest first).

    What the model takes from the environment:
    - a pass runs alone: nobody else writes between its Get and its
      patches (the work queue gives one pass per object at a time; other
      writers are outside the model);
    - a patch is a JSON merge patch computed from the base to the copy and
      applied to the stored object, on the main resource or on the status
      subresource; the call overwrites the copy with the server's answer;
    - the server erases an object that has a deletion timestamp as soon as
      a patch leaves it without finalizers;
    - any client call may fail, as [faults] says;
    - of an object, the fields the code reads or writes are modelled:
      identity, UID, deletion timestamp, finalizers, owner references,
      spec and status.  Resource versions, labels and the like are not. *)

From stdpp Require Import base strings list gmap fin_maps.
From Stdlib Require Import ZArith NArith Ascii.

Local Open Scope string_scope.

(** ** Errors and results *)

(** The errors the client and the helpers can return.  Go's [error] is
    [option Err], with [nil] as [None]. *)
Inductive Err : Type :=
  | ErrNotFound
  | ErrAlreadyExists
  | ErrConflict
  | ErrUnavailable
  | ErrOther (msg : string).

Abbreviation error := (option Err).
Abbreviation nil_error := (@None Err).

#[global] Instance Err_eq_dec : EqDecision Err.
Proof. solve_decision. Defined.

(** [apierrors.IsNotFound]. *)
Definition IsNotFound (err : error) : bool :=
  match err with
  | Some ErrNotFound => true
  | _ => false
  end.

(** [ctrl.Result] (the same type as [reconcile.Result]). *)
Record Result : Type := mkResult {
  Requeue : bool;
  RequeueAfter : Z;
}.

Definition zeroResult : Result := {| Requeue := false; RequeueAfter := 0 |}.

(** ** Object metadata *)

(** An instant, counted from Go's zero time (January 1, year 1 UTC). *)
Abbreviation Time := Z (only parsing).

(** [IsZero] on a [metav1.Time] pointer: nil, or the zero instant. *)
Definition Time_IsZero (t : option Z) : bool :=
  match t with
  | None => true
  | Some t => (t =? 0)%Z
  end.

Abbreviation NamespacedName := (string * string)%type (only parsing).

Record OwnerReference : Type := mkOwnerReference {
  RefAPIVersion : string;
  RefKind : string;
  RefName : string;
  RefUID : string;
}.

#[global] Instance OwnerReference_eq_dec : EqDecision OwnerReference.
Proof. solve_decision. Defined.

Record ObjectMeta : Type := mkObjectMeta {
  Namespace : string;
  Name : string;
  UID : string;
  DeletionTimestamp : option Z;
  Finalizers : list string;
  OwnerReferences : list OwnerReference;
}.

#[global] Instance ObjectMeta_eq_dec : EqDecision ObjectMeta.
Proof. solve_decision. Defined.

Definition set_Finalizers (fs : list string) (m : ObjectMeta) : ObjectMeta :=
  {| Namespace := Namespace m; Name := Name m; UID := UID m;
     DeletionTimestamp := DeletionTimestamp m; Finalizers := fs;
     OwnerReferences := OwnerReferences m |}.

Definition set_OwnerReferences (rs : list OwnerReference) (m : ObjectMeta)
  : ObjectMeta :=
  {| Namespace := Namespace m; Name := Name m; UID := UID m;
     DeletionTimestamp := DeletionTimestamp m; Finalizers := Finalizers m;
     OwnerReferences := rs |}.

(** ** Conditions ([metav1.Condition], [meta.SetStatusCondition]) *)

Inductive ConditionStatus : Type :=
  | ConditionTrue
  | ConditionFalse
  | ConditionUnknown.

#[global] Instance ConditionStatus_eq_dec : EqDecision ConditionStatus.
Proof. solve_decision. Defined.

Record Condition : Type := mkCondition {
  CondType : string;
  CondStatus : ConditionStatus;
  ObservedGeneration : Z;
  LastTransitionTime : Z;
  Reason : string;
  Message : string;
}.

#[global] Instance Condition_eq_dec : EqDecision Condition.
Proof. solve_decision. Defined.

(** [meta.FindStatusCondition]: the first condition of the given type. *)
Fixpoint FindStatusCondition (conditions : list Condition) (conditionType : string)
  : option Condition :=
  match conditions with
  | [] => None
  | c :: rest =>
      if decide (CondType c = conditionType) then Some c
      else FindStatusCondition rest conditionType
  end.

(** The in-place update [meta.SetStatusCondition] makes to the condition it
    found: the status and the transition time change only when the status
    differs; reason, message and observed generation are always copied. *)
Definition updateCondition (now : Z) (newCondition existing : Condition)
  : Condition :=
  if decide (CondStatus existing = CondStatus newCondition) then
    {| CondType := CondType existing;
       CondStatus := CondStatus existing;
       ObservedGeneration := ObservedGeneration newCondition;
       LastTransitionTime := LastTransitionTime existing;
       Reason := Reason newCondition;
       Message := Message newCondition |}
  else
    {| CondType := CondType existing;
       CondStatus := CondStatus newCondition;
       ObservedGeneration := ObservedGeneration newCondition;
       LastTransitionTime :=
         (if (LastTransitionTime newCondition =? 0)%Z then now
          else LastTransitionTime newCondition);
       Reason := Reason newCondition;
       Message := Message newCondition |}.

(** Replaces the first condition of [newCondition]'s type. *)
Fixpoint replaceCondition (now : Z) (newCondition : Condition)
  (conditions : list Condition) : list Condition :=
  match conditions with
  | [] => []
  | c :: rest =>
      if decide (CondType c = CondType newCondition)
      then updateCondition now newCondition c :: rest
      else c :: replaceCondition now newCondition rest
  end.

(** [meta.SetStatusCondition], given the reading of [time.Now()]. *)
Definition SetStatusCondition (now : Z) (conditions : list Condition)
  (newCondition : Condition) : list Condition :=
  match FindStatusCondition conditions (CondType newCondition) with
  | None =>
      conditions ++
        [ {| CondType := CondType newCondition;
             CondStatus := CondStatus newCondition;
             ObservedGeneration := ObservedGeneration newCondition;
             LastTransitionTime :=
               (if (LastTransitionTime newCondition =? 0)%Z then now
                else LastTransitionTime newCondition);
             Reason := Reason newCondition;
             Message := Message newCondition |} ]
  | Some _ => replaceCondition now newCondition conditions
  end.

(** ** Finalizers ([controllerutil]) *)

Fixpoint ContainsFinalizer (fs : list string) (finalizer : string) : bool :=
  match fs with
  | [] => false
  | f :: rest =>
      if decide (f = finalizer) then true else ContainsFinalizer rest finalizer
  end.

Definition AddFinalizer (fs : list string) (finalizer : string) : list string :=
  if ContainsFinalizer fs finalizer then fs else fs ++ [finalizer].

Fixpoint RemoveFinalizer (fs : list string) (finalizer : string) : list string :=
  match fs with
  | [] => []
  | f :: rest =>
      if decide (f = finalizer) then RemoveFinalizer rest finalizer
      else f :: RemoveFinalizer rest finalizer
  end.

(** ** Owner references ([controllerutil.SetOwnerReference]) *)

(** [strings.Count(s, "/")], and the parts of [s] before and after its
    first slash. *)
Fixpoint countSlashes (s : string) : nat :=
  match s with
  | EmptyString => 0
  | String c rest =>
      (if Ascii.eqb c "/"%char then 1 else 0) + countSlashes rest
  end.

Fixpoint beforeSlash (s : string) : string :=
  match s with
  | EmptyString => EmptyString
  | String c rest =>
      if Ascii.eqb c "/"%char then EmptyString else String c (beforeSlash rest)
  end.

Fixpoint afterSlash (s : string) : string :=
  match s with
  | EmptyString => EmptyString
  | String c rest => if Ascii.eqb c "/"%char then rest else afterSlash rest
  end.

Record GroupVersion : Type := mkGroupVersion {
  Group : string;
  Version : string;
}.

(** [schema.ParseGroupVersion]: the group and the version of an
    apiVersion; no slash means the core group. *)
Definition ParseGroupVersion (gv : string) : GroupVersion + Err :=
  if bool_decide (gv = "") || bool_decide (gv = "/") then
    inl {| Group := ""; Version := "" |}
  else
    match countSlashes gv with
    | 0 => inl {| Group := ""; Version := gv |}
    | 1 => inl {| Group := beforeSlash gv; Version := afterSlash gv |}
    | _ => inr (ErrOther "unexpected GroupVersion string")
    end.

(** [referSameObject]: same API group, kind and name; the versions may
    differ. *)
Definition referSameObject (a b : OwnerReference) : bool :=
  match ParseGroupVersion (RefAPIVersion a) with
  | inr _ => false
  | inl aGV =>
      match ParseGroupVersion (RefAPIVersion b) with
      | inr _ => false
      | inl bGV =>
          bool_decide (Group aGV = Group bGV)
          && bool_decide (RefKind a = RefKind b)
          && bool_decide (RefName a = RefName b)
      end
  end.

Fixpoint upsertOwnerRef (ref : OwnerReference) (owners : list OwnerReference)
  : list OwnerReference :=
  match owners with
  | [] => [ref]
  | o :: rest =>
      if referSameObject o ref then ref :: rest
      else o :: upsertOwnerRef ref rest
  end.

(** [validateOwner]: a namespaced owner needs a dependent in its namespace. *)
Definition validateOwner (owner object : ObjectMeta) : error :=
  if decide (Namespace owner = "") then None
  else if decide (Namespace object = "") then
    Some (ErrOther "cluster-scoped resource must not have a namespace-scoped owner")
  else if decide (Namespace owner = Namespace object) then None
  else Some (ErrOther "cross-namespace owner references are disallowed").

(** The API group and version of the plugin API, as [AddToScheme] registers
    its kinds. *)
Definition pluginapi_GroupVersion : string :=
  "hardwaremanagement.oran.openshift.io/v1alpha1".

(** [SetOwnerReference owner object scheme], for an owner of kind [kind]:
    fails when the scheme does not know the owner's kind. *)
Definition SetOwnerReference (kind : string) (owner object : ObjectMeta)
  (scheme : list string) : ObjectMeta * error :=
  match validateOwner owner object with
  | Some e => (object, Some e)
  | None =>
      if bool_decide (kind ∈ scheme) then
        let ref := {| RefAPIVersion := pluginapi_GroupVersion;
                      RefKind := kind;
                      RefName := Name owner;
                      RefUID := UID owner |} in
        (set_OwnerReferences (upsertOwnerRef ref (OwnerReferences object)) object,
         None)
      else (object, Some (ErrOther "no kind is registered for the type"))
  end.

(** ** Objects, secrets and the world *)

(** A custom resource: metadata, spec and status. *)
Record Object (Sp St : Type) : Type := mkObject {
  ObjMeta : ObjectMeta;
  Spec : Sp;
  Status : St;
}.
Arguments mkObject {Sp St} _ _ _.
Arguments ObjMeta {Sp St} _.
Arguments Spec {Sp St} _.
Arguments Status {Sp St} _.

Definition set_ObjMeta {Sp St} (m : ObjectMeta) (o : Object Sp St) : Object Sp St :=
  {| ObjMeta := m; Spec := Spec o; Status := Status o |}.

Definition set_Status {Sp St} (s : St) (o : Object Sp St) : Object Sp St :=
  {| ObjMeta := ObjMeta o; Spec := Spec o; Status := s |}.

(** What the API server needs to know about a kind: its name in the scheme,
    equality of its payloads, and how a JSON merge patch computed from
    [base] to [copy] changes the stored status. *)
Class Schema (Sp St : Type) : Type := {
  schema_kind : string;
  schema_spec_eq :: EqDecision Sp;
  schema_status_eq :: EqDecision St;
  mergeStatus : St -> St -> St -> St;
}.

#[global] Instance Object_eq_dec {Sp St} `{Schema Sp St} : EqDecision (Object Sp St).
Proof. solve_decision. Defined.

(** A merge patch on a leaf of the document (a scalar or an array): the
    patch carries the leaf only when [copy] differs from [base]. *)
Definition mergeLeaf {A} `{EqDecision A} (base copy stored : A) : A :=
  if decide (base = copy) then stored else copy.

(** A merge patch on a string map: key by key. *)
Definition mergeMap (base copy stored : gmap string string) : gmap string string :=
  filter (fun kv => base !! kv.1 ≠ copy !! kv.1) copy
  ∪ filter (fun kv => base !! kv.1 = copy !! kv.1) stored.

(** [corev1.Secret]; [Data] is [None] for Go's nil map. *)
Record Secret : Type := mkSecret {
  SecretMeta : ObjectMeta;
  Data : option (gmap string string);
}.

#[global] Instance Secret_eq_dec : EqDecision Secret.
Proof. solve_decision. Defined.

Definition ObjectKey (m : ObjectMeta) : NamespacedName := (Namespace m, Name m).

Inductive LogValue : Type :=
  | LogString (s : string)
  | LogMap (m : gmap string string).

Inductive Hook : Type := Apply | Cleanup.

(** What the reconciler did, as seen from outside.  A client call is
    recorded with the error it returned. *)
Inductive Event (O : Type) : Type :=
  | EvInfo (logger msg : string) (kv : list (string * LogValue))
  | EvError (logger : string) (err : Err) (msg : string)
      (kv : list (string * LogValue))
  | EvGet (key : NamespacedName) (err : error)
  | EvPatch (copy base : O) (err : error)
  | EvStatusPatch (copy base : O) (err : error)
  | EvHook (h : Hook) (object : O)
  | EvSecretGet (key : NamespacedName) (err : error)
  | EvSecretCreate (secret : Secret) (err : error)
  | EvSecretPatch (secret base : Secret) (err : error).
Arguments EvInfo {O} _ _ _.
Arguments EvError {O} _ _ _ _.
Arguments EvGet {O} _ _.
Arguments EvPatch {O} _ _ _.
Arguments EvStatusPatch {O} _ _ _.
Arguments EvHook {O} _ _.
Arguments EvSecretGet {O} _ _.
Arguments EvSecretCreate {O} _ _.
Arguments EvSecretPatch {O} _ _ _.

(** The environment of one reconciler.  [faults] holds, for each coming
    client call in order, the error the transport or the API server will
    answer with ([None]: the call goes through); past its end every call
    goes through.  [entropy] holds the bytes the random source will
    deliver. *)
Record World (O : Type) : Type := mkWorld {
  objects : gmap (string * string) O;
  secrets : gmap (string * string) Secret;
  scheme : list string;
  faults : list error;
  entropy : list N;
  now : Z;
  trace : list (Event O);
}.
Arguments mkWorld {O} _ _ _ _ _ _ _.
Arguments objects {O} _.
Arguments secrets {O} _.
Arguments scheme {O} _.
Arguments faults {O} _.
Arguments entropy {O} _.
Arguments now {O} _.
Arguments trace {O} _.

(** ** The state monad of the reconcilers *)

Definition M (W A : Type) : Type := W -> A * W.

#[global] Instance M_ret {W} : MRet (M W) := fun A x w => (x, w).
#[global] Instance M_bind {W} : MBind (M W) :=
  fun A B f m w => let '(x, w') := m w in f x w'.

Section Primitives.
Context {O : Type}.

Local Abbreviation W := (World O).

Definition emit (e : Event O) : M W unit := fun w =>
  (tt, {| objects := objects w; secrets := secrets w; scheme := scheme w;
          faults := faults w; entropy := entropy w; now := now w;
          trace := trace w ++ [e] |}).

(** [logr.Logger.Info] and [logr.Logger.Error]. *)
Definition logger_Info (logger msg : string) (kv : list (string * LogValue))
  : M W unit := emit (EvInfo logger msg kv).

Definition logger_Error (logger : string) (err : Err) (msg : string)
  (kv : list (string * LogValue)) : M W unit := emit (EvError logger err msg kv).

(** The answer the next client call will get: [None] when it goes through. *)
Definition nextFault (w : W) : error :=
  match faults w with
  | [] => None
  | f :: _ => f
  end.

(** A round trip to the API server: it takes time, and the transport or
    the server may refuse it. *)
Definition roundTrip : M W error := fun w =>
  (nextFault w,
   {| objects := objects w; secrets := secrets w; scheme := scheme w;
      faults := tail (faults w); entropy := entropy w; now := (now w + 1)%Z;
      trace := trace w |}).

(** [time.Now]. *)
Definition time_Now : M W Z := fun w => (now w, w).

(** [client.Scheme]. *)
Definition client_Scheme : M W (list string) := fun w => (scheme w, w).

Definition getObjects : M W (gmap (string * string) O) := fun w => (objects w, w).

Definition putObjects (os : gmap (string * string) O) : M W unit := fun w =>
  (tt, {| objects := os; secrets := secrets w; scheme := scheme w;
          faults := faults w; entropy := entropy w; now := now w;
          trace := trace w |}).

Definition getSecrets : M W (gmap (string * string) Secret) :=
  fun w => (secrets w, w).

Definition putSecrets (ss : gmap (string * string) Secret) : M W unit := fun w =>
  (tt, {| objects := objects w; secrets := ss; scheme := scheme w;
          faults := faults w; entropy := entropy w; now := now w;
          trace := trace w |}).

(** Reads [n] bytes from the random source. *)
Definition rand_Read (n : nat) : M W (list N) := fun w =>
  (take n (entropy w ++ replicate n 0%N),
   {| objects := objects w; secrets := secrets w; scheme := scheme w;
      faults := faults w; entropy := drop n (entropy w); now := now w;
      trace := trace w |}).
End Primitives.

Section Client.
Context {Sp St : Type} `{Schema Sp St}.

Local Abbreviation O := (Object Sp St).
Local Abbreviation W := (World (Object Sp St)).

(** [client.Get] of the reconciled kind: the object, or the error. *)
Definition client_Get (key : NamespacedName) : M W (O + Err) :=
  fault ← roundTrip;
  os ← getObjects;
  let r : O + Err :=
    match fault with
    | Some e => inr e
    | None =>
        match os !! key with
        | Some o => inl o
        | None => inr ErrNotFound
        end
    end in
  _ ← emit (EvGet key (match r with inl _ => None | inr e => Some e end));
  mret r.

(** The stored object after a merge patch from [base] to [copy] on the
    main resource.  The status is a subresource and the identity and the
    deletion timestamp are the server's: the patch cannot move them. *)
Definition applyPatch (base copy stored : O) : O :=
  {| ObjMeta :=
       {| Namespace := Namespace (ObjMeta stored);
          Name := Name (ObjMeta stored);
          UID := UID (ObjMeta stored);
          DeletionTimestamp := DeletionTimestamp (ObjMeta stored);
          Finalizers :=
            mergeLeaf (Finalizers (ObjMeta base)) (Finalizers (ObjMeta copy))
              (Finalizers (ObjMeta stored));
          OwnerReferences :=
            mergeLeaf (OwnerReferences (ObjMeta base))
              (OwnerReferences (ObjMeta copy))
              (OwnerReferences (ObjMeta stored)) |};
     Spec := mergeLeaf (Spec base) (Spec copy) (Spec stored);
     Status := Status stored |}.

(** The stored object after a merge patch on the status subresource. *)
Definition applyStatusPatch (base copy stored : O) : O :=
  set_Status (mergeStatus (Status base) (Status copy) (Status stored)) stored.

(** The server erases an object that is being deleted as soon as its last
    finalizer is gone. *)
Definition collectable (o : O) : bool :=
  match DeletionTimestamp (ObjMeta o), Finalizers (ObjMeta o) with
  | Some _, [] => true
  | _, _ => false
  end.

(** [client.Patch(ctx, copy, client.MergeFrom(base))]: returns the error
    and [copy] as the call leaves it (overwritten with the server's
    answer when the patch went through). *)
Definition client_Patch (copy base : O) : M W (O * error) :=
  fault ← roundTrip;
  os ← getObjects;
  let key := ObjectKey (ObjMeta copy) in
  match fault with
  | Some e => _ ← emit (EvPatch copy base (Some e)); mret (copy, Some e)
  | None =>
      match os !! key with
      | None =>
          _ ← emit (EvPatch copy base (Some ErrNotFound));
          mret (copy, Some ErrNotFound)
      | Some stored =>
          let stored' := applyPatch base copy stored in
          _ ← putObjects (if collectable stored' then delete key os
                          else <[key := stored']> os);
          _ ← emit (EvPatch copy base None);
          mret (stored', None)
      end
  end.

(** [client.Status().Patch(ctx, copy, client.MergeFrom(base))]. *)
Definition client_Status_Patch (copy base : O) : M W (O * error) :=
  fault ← roundTrip;
  os ← getObjects;
  let key := ObjectKey (ObjMeta copy) in
  match fault with
  | Some e => _ ← emit (EvStatusPatch copy base (Some e)); mret (copy, Some e)
  | None =>
      match os !! key with
      | None =>
          _ ← emit (EvStatusPatch copy base (Some ErrNotFound));
          mret (copy, Some ErrNotFound)
      | Some stored =>
          let stored' := applyStatusPatch base copy stored in
          _ ← putObjects (<[key := stored']> os);
          _ ← emit (EvStatusPatch copy base None);
          mret (stored', None)
      end
  end.
End Client.

(** ** Secrets and [controllerutil.CreateOrPatch] *)

Section Secrets.
Context {O : Type}.

Local Abbreviation W := (World O).

(** [client.Get] of a secret. *)
Definition secret_Get (key : NamespacedName) : M W (Secret + Err) :=
  fault ← roundTrip;
  ss ← getSecrets;
  let r : Secret + Err :=
    match fault with
    | Some e => inr e
    | None =>
        match ss !! key with
        | Some s => inl s
        | None => inr ErrNotFound
        end
    end in
  _ ← emit (EvSecretGet key (match r with inl _ => None | inr e => Some e end));
  mret r.

(** [client.Create] of a secret. *)
Definition secret_Create (secret : Secret) : M W error :=
  fault ← roundTrip;
  ss ← getSecrets;
  let key := ObjectKey (SecretMeta secret) in
  match fault with
  | Some e => _ ← emit (EvSecretCreate secret (Some e)); mret (Some e)
  | None =>
      match ss !! key with
      | Some _ =>
          _ ← emit (EvSecretCreate secret (Some ErrAlreadyExists));
          mret (Some ErrAlreadyExists)
      | None =>
          _ ← putSecrets (<[key := secret]> ss);
          _ ← emit (EvSecretCreate secret None);
          mret None
      end
  end.

(** The stored secret after a merge patch from [base] to [copy]. *)
Definition applySecretPatch (base copy stored : Secret) : Secret :=
  {| SecretMeta :=
       {| Namespace := Namespace (SecretMeta stored);
          Name := Name (SecretMeta stored);
          UID := UID (SecretMeta stored);
          DeletionTimestamp := DeletionTimestamp (SecretMeta stored);
          Finalizers :=
            mergeLeaf (Finalizers (SecretMeta base)) (Finalizers (SecretMeta copy))
              (Finalizers (SecretMeta stored));
          OwnerReferences :=
            mergeLeaf (OwnerReferences (SecretMeta base))
              (OwnerReferences (SecretMeta copy))
              (OwnerReferences (SecretMeta stored)) |};
     Data :=
       if decide (Data base = Data copy) then Data stored
       else Some (mergeMap (default ∅ (Data base)) (default ∅ (Data copy))
                    (default ∅ (Data stored))) |}.

(** [client.Patch] of a secret. *)
Definition secret_Patch (copy base : Secret) : M W (Secret * error) :=
  fault ← roundTrip;
  ss ← getSecrets;
  let key := ObjectKey (SecretMeta copy) in
  match fault with
  | Some e => _ ← emit (EvSecretPatch copy base (Some e)); mret (copy, Some e)
  | None =>
      match ss !! key with
      | None =>
          _ ← emit (EvSecretPatch copy base (Some ErrNotFound));
          mret (copy, Some ErrNotFound)
      | Some stored =>
          let stored' := applySecretPatch base copy stored in
          _ ← putSecrets (<[key := stored']> ss);
          _ ← emit (EvSecretPatch copy base None);
          mret (stored', None)
      end
  end.

Inductive OperationResult : Type :=
  | OperationResultNone
  | OperationResultCreated
  | OperationResultUpdated.

(** [mutate]: runs the mutate function and refuses a changed key. *)
Definition mutate (f : Secret -> Secret * error) (key : NamespacedName)
  (obj : Secret) : Secret * error :=
  let '(obj', err) := f obj in
  match err with
  | Some e => (obj', Some e)
  | None =>
      if decide (key = ObjectKey (SecretMeta obj')) then (obj', None)
      else (obj', Some (ErrOther
              "MutateFn cannot mutate object name and/or object namespace"))
  end.

(** [controllerutil.CreateOrPatch] on a secret (which has no status): get
    it; when it is not there, mutate and create; when it is, mutate the
    fetched secret and patch only if that changed it. *)
Definition CreateOrPatch (obj : Secret) (f : Secret -> Secret * error)
  : M W (Secret * OperationResult * error) :=
  let key := ObjectKey (SecretMeta obj) in
  got ← secret_Get key;
  match got with
  | inr e =>
      if negb (IsNotFound (Some e)) then mret (obj, OperationResultNone, Some e)
      else
        let '(obj', err) := mutate f key obj in
        match err with
        | Some e' => mret (obj', OperationResultNone, Some e')
        | None =>
            err ← secret_Create obj';
            match err with
            | Some e' => mret (obj', OperationResultNone, Some e')
            | None => mret (obj', OperationResultCreated, None)
            end
        end
  | inl before =>
      let '(obj', err) := mutate f key before in
      match err with
      | Some e' => mret (obj', OperationResultNone, Some e')
      | None =>
          if decide (before = obj') then mret (obj', OperationResultNone, None)
          else
            '(obj'', err) ← secret_Patch obj' before;
            match err with
            | Some e' => mret (obj'', OperationResultNone, Some e')
            | None => mret (obj'', OperationResultUpdated, None)
            end
      end
  end.

(** ** [uuid.NewString] *)

Definition hexDigit (n : N) : string :=
  match n with
  | 0%N => "0" | 1%N => "1" | 2%N => "2" | 3%N => "3"
  | 4%N => "4" | 5%N => "5" | 6%N => "6" | 7%N => "7"
  | 8%N => "8" | 9%N => "9" | 10%N => "a" | 11%N => "b"
  | 12%N => "c" | 13%N => "d" | 14%N => "e" | _ => "f"
  end.

Definition hexByte (b : N) : string :=
  hexDigit (N.land (N.shiftr b 4) 15) +:+ hexDigit (N.land b 15).

Fixpoint encodeHex (bs : list N) : string :=
  match bs with
  | [] => ""
  | b :: rest => hexByte b +:+ encodeHex rest
  end.

(** [UUID.String]: xxxxxxxx-xxxx-xxxx-xxxx-xxxxxxxxxxxx. *)
Definition UUID_String (u : list N) : string :=
  encodeHex (take 4 u) +:+ "-" +:+
  encodeHex (take 2 (drop 4 u)) +:+ "-" +:+
  encodeHex (take 2 (drop 6 u)) +:+ "-" +:+
  encodeHex (take 2 (drop 8 u)) +:+ "-" +:+
  encodeHex (take 6 (drop 10 u)).

(** [uuid.NewRandom]: sixteen random bytes with the version 4 and
    variant 10 bits set. *)
Definition uuid_NewRandom : M W (list N) :=
  u ← rand_Read 16;
  let u := alter (fun b => N.lor (N.land b 15) 64) 6 u in
  let u := alter (fun b => N.lor (N.land b 63) 128) 8 u in
  mret u.

Definition uuid_NewString : M W string :=
  u ← uuid_NewRandom;
  mret (UUID_String u).
End Secrets.

(** ** The reconcile pass *)

(** [pluginapi.FulfilledCondition]. *)
Definition FulfilledCondition : string := "Fulfilled".

Section Engine.
Context {Sp St : Type} `{Schema Sp St}.

Local Abbreviation O := (Object Sp St).
Local Abbreviation W := (World (Object Sp St)).

(** The finalizer token is a constant of the package that the reconciler
    files use and do not define. *)
Variable finalizerName : string.

(** The name of the reconciler's logger. *)
Variable logger : string.

(** The hooks of the kind.  A hook gets the working copy and leaves it
    changed, with a result and an error. *)
Variable processUpdate : O -> M W (O * Result * error).
Variable processDelete : O -> M W (O * Result * error).

Definition requestKV (request : NamespacedName) : list (string * LogValue) :=
  [("namespace", LogString request.1); ("name", LogString request.2)].

(** [Reconcile]: the body shared by [AllocationReconciler.Reconcile] and
    [ReleaseReconciler.Reconcile].  Each call of a hook is recorded in the
    trace before the hook runs. *)
Definition Reconcile (request : NamespacedName) : M W (Result * error) :=
  (* Fetch the object: *)
  got ← client_Get request;
  match got with
  | inr ErrNotFound =>
      _ ← logger_Info logger "Object no longer exists" (requestKV request);
      mret (zeroResult, None)
  | inr e =>
      _ ← logger_Error logger e "Failed to get object" [];
      mret (zeroResult, Some e)
  | inl object =>
      (* Check if the object is being deleted and if it has our finalizer: *)
      let deleting := negb (Time_IsZero (DeletionTimestamp (ObjMeta object))) in
      let finalizer := ContainsFinalizer (Finalizers (ObjMeta object)) finalizerName in
      let copy := object in
      if negb deleting && negb finalizer then
        let copy :=
          set_ObjMeta
            (set_Finalizers (AddFinalizer (Finalizers (ObjMeta copy)) finalizerName)
               (ObjMeta copy)) copy in
        '(_, err) ← client_Patch copy object;
        match err with
        | Some e =>
            _ ← logger_Error logger e "Failed to add finalizer"
                  (requestKV request ++ [("finalizer", LogString finalizerName)]);
            mret (zeroResult, Some e)
        | None => mret (zeroResult, None)
        end
      else if deleting then
        _ ← emit (EvHook Cleanup copy);
        '(copy, result, err) ← processDelete copy;
        match err with
        | Some e => mret (result, Some e)
        | None =>
            '(copy, err) ← client_Status_Patch copy object;
            match err with
            | Some e =>
                _ ← logger_Error logger e "Failed to updated status"
                      (requestKV request);
                mret (result, Some e)
            | None =>
                let copy :=
                  set_ObjMeta
                    (set_Finalizers
                       (RemoveFinalizer (Finalizers (ObjMeta copy)) finalizerName)
                       (ObjMeta copy)) copy in
                '(_, err) ← client_Patch copy object;
                match err with
                | Some e =>
                    _ ← logger_Error logger e "Failed to remove finalizer"
                          (requestKV request
                             ++ [("finalizer", LogString finalizerName)]);
                    mret (result, Some e)
                | None => mret (result, None)
                end
            end
        end
      else
        _ ← emit (EvHook Apply copy);
        '(copy, result, err) ← processUpdate copy;
        match err with
        | Some e =>
            _ ← logger_Error logger e "Failed to process update"
                  (requestKV request);
            mret (result, Some e)
        | None =>
            '(_, err) ← client_Status_Patch copy object;
            match err with
            | Some e =>
                _ ← logger_Error logger e "Failed to updated status"
                      (requestKV request);
                mret (result, Some e)
            | None =>
                _ ← logger_Info logger "Saved updated status" (requestKV request);
                mret (result, None)
            end
        end
  end.
End Engine.

(** ** The allocation reconciler *)

Module AllocationReconciler.

Record NodeAllocationRequestSpec : Type := mkSpec {
  CloudID : string;
  Location : string;
  Extensions : gmap string string;
}.

Record BMC : Type := mkBMC {
  Address : string;
  CredentialsName : string;
}.

Record NodeAllocationRequestStatus : Type := mkStatus {
  NodeID : string;
  StatusBMC : BMC;
  Conditions : list Condition;
}.

#[global] Instance NodeAllocationRequestSpec_eq_dec
  : EqDecision NodeAllocationRequestSpec.
Proof. solve_decision. Defined.

#[global] Instance BMC_eq_dec : EqDecision BMC.
Proof. solve_decision. Defined.

#[global] Instance NodeAllocationRequestStatus_eq_dec
  : EqDecision NodeAllocationRequestStatus.
Proof. solve_decision. Defined.

(** The status document is patched leaf by leaf. *)
Definition mergeAllocationStatus (base copy stored : NodeAllocationRequestStatus)
  : NodeAllocationRequestStatus :=
  {| NodeID := mergeLeaf (NodeID base) (NodeID copy) (NodeID stored);
     StatusBMC :=
       {| Address := mergeLeaf (Address (StatusBMC base)) (Address (StatusBMC copy))
                       (Address (StatusBMC stored));
          CredentialsName :=
            mergeLeaf (CredentialsName (StatusBMC base))
              (CredentialsName (StatusBMC copy))
              (CredentialsName (StatusBMC stored)) |};
     Conditions :=
       mergeLeaf (Conditions base) (Conditions copy) (Conditions stored) |}.

#[global] Instance schema
  : Schema NodeAllocationRequestSpec NodeAllocationRequestStatus :=
  {| schema_kind := "NodeAllocationRequest";
     mergeStatus := mergeAllocationStatus |}.

Abbreviation NodeAllocationRequest :=
  (Object NodeAllocationRequestSpec NodeAllocationRequestStatus).
Abbreviation W := (World NodeAllocationRequest).

(** The logger [main] gives to the reconciler. *)
Definition logger : string := "allocation".

Definition set_NodeID (id : string) (object : NodeAllocationRequest)
  : NodeAllocationRequest :=
  set_Status {| NodeID := id; StatusBMC := StatusBMC (Status object);
                Conditions := Conditions (Status object) |} object.

Definition set_BMC (bmc : BMC) (object : NodeAllocationRequest)
  : NodeAllocationRequest :=
  set_Status {| NodeID := NodeID (Status object); StatusBMC := bmc;
                Conditions := Conditions (Status object) |} object.

Definition set_Conditions (cs : list Condition) (object : NodeAllocationRequest)
  : NodeAllocationRequest :=
  set_Status {| NodeID := NodeID (Status object);
                StatusBMC := StatusBMC (Status object);
                Conditions := cs |} object.

Definition fulfillKV (object : NodeAllocationRequest) : list (string * LogValue) :=
  [("namespace", LogString (Namespace (ObjMeta object)));
   ("name", LogString (Name (ObjMeta object)));
   ("cloud_id", LogString (CloudID (Spec object)));
   ("location", LogString (Location (Spec object)));
   ("extensions", LogMap (Extensions (Spec object)))].

(** The mutate function [processUpdate] hands to [CreateOrPatch]. *)
Definition mutateSecret (object : NodeAllocationRequest) (scheme : list string)
  (secret : Secret) : Secret * error :=
  let '(meta, err) :=
    SetOwnerReference schema_kind (ObjMeta object) (SecretMeta secret) scheme in
  match err with
  | Some e => (secret, Some e)
  | None =>
      let data := default ∅ (Data secret) in
      let data := <["username" := "myuser"]> data in
      let data := <["password" := "mypass"]> data in
      ({| SecretMeta := meta; Data := Some data |}, None)
  end.

Definition processUpdate (object : NodeAllocationRequest)
  : M W (NodeAllocationRequest * Result * error) :=
  (* Inform in the log that we are fulfilling the request: *)
  _ ← logger_Info logger "Fulfilling request" (fulfillKV object);
  (* If the node identifier is not yet assigned we should assign it now: *)
  object ← (if decide (NodeID (Status object) = "") then
              id ← uuid_NewString; mret (set_NodeID id object)
            else mret object);
  (* Create or update the secret containing the BMC credentials: *)
  let secret :=
    {| SecretMeta :=
         {| Namespace := Namespace (ObjMeta object);
            Name := Name (ObjMeta object) +:+ "-bmc";
            UID := ""; DeletionTimestamp := None; Finalizers := [];
            OwnerReferences := [] |};
       Data := None |} in
  scheme ← client_Scheme;
  '(secret, _, err) ← CreateOrPatch secret (mutateSecret object scheme);
  match err with
  | Some e => mret (object, zeroResult, Some e)
  | None =>
      _ ← logger_Info logger "Created BMC credentials secret"
            [("namespace", LogString (Namespace (SecretMeta secret)));
             ("name", LogString (Name (SecretMeta secret)))];
      (* Set the reference to the BMC credentials and the rest of the details: *)
      let object :=
        set_BMC {| Address := "https://mybmc.com";
                   CredentialsName := Name (SecretMeta secret) |} object in
      (* Update the conditions: *)
      t ← time_Now;
      let object :=
        set_Conditions
          (SetStatusCondition t (Conditions (Status object))
             {| CondType := FulfilledCondition;
                CondStatus := ConditionTrue;
                ObservedGeneration := 0;
                LastTransitionTime := 0;
                Reason := "Fulfilled";
                Message := "The request has been fulfilled" |}) object in
      (* Inform in the log that the request is fulfilled: *)
      _ ← logger_Info logger "Fulfilled request" (fulfillKV object);
      mret (object, zeroResult, None)
  end.

Definition processDelete (object : NodeAllocationRequest)
  : M W (NodeAllocationRequest * Result * error) :=
  _ ← logger_Info logger "Performing cleanup"
        [("namespace", LogString (Namespace (ObjMeta object)));
         ("name", LogString (Name (ObjMeta object)))];
  mret (object, zeroResult, None).

Definition Reconcile (finalizerName : string) (request : NamespacedName)
  : M W (Result * error) :=
  Reconcile finalizerName logger processUpdate processDelete request.

End AllocationReconciler.

(** ** The release reconciler *)

Module ReleaseReconciler.

Record NodeReleaseRequestSpec : Type := mkSpec {
  CloudID : string;
  NodeID : string;
  Extensions : gmap string string;
}.

Record NodeReleaseRequestStatus : Type := mkStatus {
  Conditions : list Condition;
}.

#[global] Instance NodeReleaseRequestSpec_eq_dec : EqDecision NodeReleaseRequestSpec.
Proof. solve_decision. Defined.

#[global] Instance NodeReleaseRequestStatus_eq_dec : EqDecision NodeReleaseRequestStatus.
Proof. solve_decision. Defined.

Definition mergeReleaseStatus (base copy stored : NodeReleaseRequestStatus)
  : NodeReleaseRequestStatus :=
  {| Conditions :=
       mergeLeaf (Conditions base) (Conditions copy) (Conditions stored) |}.

#[global] Instance schema : Schema NodeReleaseRequestSpec NodeReleaseRequestStatus :=
  {| schema_kind := "NodeReleaseRequest";
     mergeStatus := mergeReleaseStatus |}.

Abbreviation NodeReleaseRequest :=
  (Object NodeReleaseRequestSpec NodeReleaseRequestStatus).
Abbreviation W := (World NodeReleaseRequest).

(** The logger [main] gives to the reconciler. *)
Definition logger : string := "release".

Definition fulfillKV (object : NodeReleaseRequest) : list (string * LogValue) :=
  [("namespace", LogString (Namespace (ObjMeta object)));
   ("name", LogString (Name (ObjMeta object)));
   ("cloud_id", LogString (CloudID (Spec object)));
   ("node_id", LogString (NodeID (Spec object)));
   ("extensions", LogMap (Extensions (Spec object)))].

Definition processUpdate (object : NodeReleaseRequest)
  : M W (NodeReleaseRequest * Result * error) :=
  (* Inform in the log that we are fulfilling the request: *)
  _ ← logger_Info logger "Fulfilling request" (fulfillKV object);
  (* Update the conditions: *)
  t ← time_Now;
  let object :=
    set_Status
      {| Conditions :=
           SetStatusCondition t (Conditions (Status object))
             {| CondType := FulfilledCondition;
                CondStatus := ConditionTrue;
                ObservedGeneration := 0;
                LastTransitionTime := 0;
                Reason := "Fulfilled";
                Message := "The request has been fulfilled" |} |} object in
  (* Inform in the log that the request is fulfilled: *)
  _ ← logger_Info logger "Fulfilled request" (fulfillKV object);
  mret (object, zeroResult, None).

Definition processDelete (object : NodeReleaseRequest)
  : M W (NodeReleaseRequest * Result * error) :=
  _ ← logger_Info logger "Performing cleanup"
        [("namespace", LogString (Namespace (ObjMeta object)));
         ("name", LogString (Name (ObjMeta object)))];
  mret (object, zeroResult, None).

Definition Reconcile (finalizerName : string) (request : NamespacedName)
  : M W (Result * error) :=
  Reconcile finalizerName logger processUpdate processDelete request.

End ReleaseReconciler.

(** ** Observations on a pass *)

(** The events a computation adds to the trace of the world it starts in. *)
Definition pass_events {O A} (m : M (World O) A) (w : World O) : list (Event O) :=
  drop (length (trace w)) (trace (m w).2).

(** Events that neither call a hook nor touch the reconciled object: log
    lines and the calls on secrets. *)
Definition quiet {O} (e : Event O) : bool :=
  match e with
  | EvInfo _ _ _ | EvError _ _ _ _
  | EvSecretGet _ _ | EvSecretCreate _ _ | EvSecretPatch _ _ _ => true
  | _ => false
  end.

(** A write to the store that changes nothing: a patch whose copy equals
    its base; creating or patching a secret is never one, reads and log
    lines always are. *)
Definition noop_write {O} `{EqDecision O} (e : Event O) : bool :=
  match e with
  | EvPatch copy base _ | EvStatusPatch copy base _ => bool_decide (copy = base)
  | EvSecretCreate _ _ | EvSecretPatch _ _ _ => false
  | _ => true
  end.

(** The working copy with the finalizer added, and with it removed. *)
Definition withFinalizer {Sp St} (finalizer : string) (o : Object Sp St)
  : Object Sp St :=
  set_ObjMeta
    (set_Finalizers (AddFinalizer (Finalizers (ObjMeta o)) finalizer) (ObjMeta o)) o.

Definition withoutFinalizer {Sp St} (finalizer : string) (o : Object Sp St)
  : Object Sp St :=
  set_ObjMeta
    (set_Finalizers (RemoveFinalizer (Finalizers (ObjMeta o)) finalizer) (ObjMeta o))
    o.

(** The laws of a merge patch that the schemas of both kinds obey: an empty
    patch changes nothing, and a patch computed against the stored status
    installs the copy. *)
Class SchemaLaws (Sp St : Type) `{Schema Sp St} : Prop := {
  mergeStatus_same : forall b s : St, mergeStatus b b s = s;
  mergeStatus_onto : forall b c : St, mergeStatus b c b = c;
}.

Definition calls_hook {O} (e : Event O) : bool :=
  match e with
  | EvHook _ _ => true
  | _ => false
  end.

Definition touches_meta {O} (e : Event O) : bool :=
  match e with
  | EvPatch _ _ _ => true
  | _ => false
  end.

Local Open Scope list_scope.

Section Observations.
Context {Sp St : Type} `{Schema Sp St}.

Local Abbreviation O := (Object Sp St).
Local Abbreviation W := (World (Object Sp St)).

Variable finalizerName : string.
Variable logger : string.

(** The first branch of [Reconcile]: not being deleted, and not ours yet. *)
Definition unclaimed (o : O) : bool :=
  Time_IsZero (DeletionTimestamp (ObjMeta o))
  && negb (ContainsFinalizer (Finalizers (ObjMeta o)) finalizerName).

(** The second branch of [Reconcile]: being deleted. *)
Definition deleting (o : O) : bool :=
  negb (Time_IsZero (DeletionTimestamp (ObjMeta o))).

(** The line [Reconcile] logs after a failed call, if it failed. *)
Definition failedLog (msg : string) (kv : list (string * LogValue)) (err : error)
  : list (Event O) :=
  match err with
  | Some e => [EvError logger e msg kv]
  | None => []
  end.

(** The line [processDelete] logs. *)
Definition cleanupLog (o : O) : Event O :=
  EvInfo logger "Performing cleanup"
    [("namespace", LogString (Namespace (ObjMeta o)));
     ("name", LogString (Name (ObjMeta o)))].

(** A hook that leaves only log lines and calls on secrets in the trace. *)
Definition quiet_hook (hook : O -> M W (O * Result * error)) : Prop :=
  forall o w, exists evs,
    trace (hook o w).2 = trace w ++ evs /\ Forall (fun e => quiet e = true) evs.

(** A cleanup hook that only writes its log line, as both kinds have it. *)
Definition cleanup_only_logs (processDelete : O -> M W (O * Result * error)) : Prop :=
  forall o w, processDelete o w = ((o, zeroResult, None), (emit (cleanupLog o) w).2).

End Observations.

(** ** The properties of a reconciler *)

Definition touches_object {O} (e : Event O) : bool :=
  match e with
  | EvPatch _ _ _ | EvStatusPatch _ _ _ => true
  | _ => false
  end.

(** A create or a patch of a secret that went through. *)
Definition writes_secret {O} (e : Event O) : bool :=
  match e with
  | EvSecretCreate _ None | EvSecretPatch _ _ None => true
  | _ => false
  end.

Section Properties.
Context {Sp St : Type} `{Schema Sp St}.

Local Abbreviation O := (Object Sp St).
Local Abbreviation W := (World (Object Sp St)).

Variable finalizerName : string.
Variable logger : string.

(** The [Reconcile] of a kind and its update hook. *)
Variable R : NamespacedName -> M W (Result * error).
Variable processUpdate : O -> M W (O * Result * error).

(** A hook that, on success, leaves the stored objects alone and changes
    nothing of the working copy but its status, and that has nothing left
    to do afterwards: run again on what it returned, against the secrets
    and the scheme it left, it returns the same object and writes nothing. *)
Definition settling_hook : Prop :=
  forall o w o1 r w1,
    faults w = [] ->
    processUpdate o w = ((o1, r, None), w1) ->
    objects w1 = objects w /\ ObjMeta o1 = ObjMeta o /\ Spec o1 = Spec o
    /\ forall w2,
         faults w2 = [] -> secrets w2 = secrets w1 -> scheme w2 = scheme w1 ->
         exists r2 w3 evs,
           processUpdate o1 w2 = ((o1, r2, None), w3)
           /\ objects w3 = objects w2 /\ secrets w3 = secrets w2
           /\ trace w3 = trace w2 ++ evs
           /\ Forall (fun e => noop_write e = true) evs.

(** A hook that leaves the scheme alone and, with no fault scheduled,
    leaves none. *)
Definition calm_hook (hook : O -> M W (O * Result * error)) : Prop :=
  forall o w,
    scheme (hook o w).2 = scheme w /\ (faults w = [] -> faults (hook o w).2 = []).

(** Not found is success, and nothing else happens. *)
Definition not_found_is_success : Prop :=
  forall request w,
    (client_Get request w).1 = inr ErrNotFound ->
    (R request w).1 = (zeroResult, None)
    /\ pass_events (R request) w =
         [EvGet request (Some ErrNotFound);
          EvInfo logger "Object no longer exists" (requestKV request)]
    /\ objects (R request w).2 = objects w
    /\ secrets (R request w).2 = secrets w.

(** The cleanup hook is called on the fetched object only, and only when
    its deletion timestamp is set. *)
Definition cleanup_only_when_deleting : Prop :=
  forall request w o,
    EvHook Cleanup o ∈ pass_events (R request) w ->
    (client_Get request w).1 = inl o
    /\ DeletionTimestamp (ObjMeta o) <> None
    /\ deleting o = true.

(** The cleanup hook is called on every fetched object that is being
    deleted, with or without the finalizer. *)
Definition cleanup_whenever_deleting : Prop :=
  forall request w o,
    (client_Get request w).1 = inl o ->
    deleting o = true ->
    EvHook Cleanup o ∈ pass_events (R request) w.

(** A metadata patch whose finalizers lack the token comes after the call
    of the cleanup hook in the same pass. *)
Definition cleanup_before_finalizer_removal : Prop :=
  forall request w pre copy base err post,
    pass_events (R request) w = pre ++ EvPatch copy base err :: post ->
    ContainsFinalizer (Finalizers (ObjMeta copy)) finalizerName = false ->
    exists o, EvHook Cleanup o ∈ pre.

(** The pass that claims an object: one metadata patch that adds the token
    to the finalizers and changes nothing else; no hook, no status patch. *)
Definition claim_pass_is_isolated : Prop :=
  forall request w o,
    (client_Get request w).1 = inl o ->
    ObjectKey (ObjMeta o) = request ->
    DeletionTimestamp (ObjMeta o) = None ->
    ContainsFinalizer (Finalizers (ObjMeta o)) finalizerName = false ->
    let err := nth 1 (faults w) None in
    let claimed :=
      set_ObjMeta
        (set_Finalizers (Finalizers (ObjMeta o) ++ [finalizerName]) (ObjMeta o)) o in
    (R request w).1 = (zeroResult, err)
    /\ pass_events (R request) w =
         [EvGet request None; EvPatch claimed o err]
           ++ failedLog logger "Failed to add finalizer"
                (requestKV request ++ [("finalizer", LogString finalizerName)]) err
    /\ secrets (R request w).2 = secrets w
    /\ objects (R request w).2 =
         match err with
         | Some _ => objects w
         | None => <[request := claimed]> (objects w)
         end.

(** The delete path with the hook both kinds have: cleanup, status patch,
    finalizer removal, in this order; a failed status patch ends the pass
    and leaves the stored object, finalizer included, as it was. *)
Definition delete_path_in_order : Prop :=
  forall request w o t,
    (client_Get request w).1 = inl o ->
    ObjectKey (ObjMeta o) = request ->
    DeletionTimestamp (ObjMeta o) = Some t ->
    t <> 0%Z ->
    let e1 := nth 1 (faults w) None in
    let e2 := nth 2 (faults w) None in
    (R request w).1 = (zeroResult, match e1 with Some _ => e1 | None => e2 end)
    /\ pass_events (R request) w =
         [EvGet request None; EvHook Cleanup o; cleanupLog logger o;
          EvStatusPatch o o e1]
           ++ match e1 with
              | Some _ =>
                  failedLog logger "Failed to updated status" (requestKV request) e1
              | None =>
                  [EvPatch (withoutFinalizer finalizerName o) o e2]
                    ++ failedLog logger "Failed to remove finalizer"
                         (requestKV request
                            ++ [("finalizer", LogString finalizerName)]) e2
              end
    /\ secrets (R request w).2 = secrets w
    /\ objects (R request w).2 =
         match e1, e2 with
         | None, None =>
             if collectable (withoutFinalizer finalizerName o)
             then delete request (objects w)
             else <[request := withoutFinalizer finalizerName o]> (objects w)
         | _, _ => objects w
         end.


(** Two passes in a row on an object that is ours or is being deleted, the
    first one successful and no call failing: the second pass leaves the
    store as the first left it, and whatever it writes is what is there. *)
Definition second_pass_is_noop : Prop :=
  forall request w o,
    faults w = [] ->
    (client_Get request w).1 = inl o ->
    ObjectKey (ObjMeta o) = request ->
    unclaimed finalizerName o = false ->
    (R request w).1.2 = None ->
    objects (R request (R request w).2).2 = objects (R request w).2
    /\ secrets (R request (R request w).2).2 = secrets (R request w).2
    /\ Forall (fun e => noop_write e = true)
         (pass_events (R request) (R request w).2).

(** A failed update hook: the pass logs the error and returns it, and
    sends no patch; the stored objects stay as they were. *)
Definition failed_update_only_logged : Prop :=
  forall request w o copy result e w3,
    (client_Get request w).1 = inl o ->
    unclaimed finalizerName o = false ->
    deleting o = false ->
    processUpdate o (emit (EvHook Apply o) (client_Get request w).2).2
      = ((copy, result, Some e), w3) ->
    (R request w).1 = (result, Some e)
    /\ last (pass_events (R request) w)
       = Some (EvError logger e "Failed to process update" (requestKV request))
    /\ Forall (fun ev => touches_object ev = false) (pass_events (R request) w)
    /\ objects (R request w).2 = objects w.

End Properties.

(** ** Sample worlds *)

Module Sample.

(** A finalizer token, standing for the package constant. *)
Definition finalizerName : string := "oran.acme.com/finalizer".

Definition key : NamespacedName := ("europe", "cu-113d00a-22422").

Definition meta (deletion : option Z) (finalizers : list string) : ObjectMeta :=
  {| Namespace := "europe"; Name := "cu-113d00a-22422"; UID := "7d1c";
     DeletionTimestamp := deletion; Finalizers := finalizers;
     OwnerReferences := [] |}.

Definition world {O} (o : option O) (fs : list error) : World O :=
  {| objects := match o with Some o => {[ key := o ]} | None => ∅ end;
     secrets := ∅;
     scheme := ["NodeAllocationRequest"; "NodeReleaseRequest"];
     faults := fs;
     entropy := [];
     now := 1000;
     trace := [] |}.

Definition allocation (deletion : option Z) (finalizers : list string)
  : AllocationReconciler.NodeAllocationRequest :=
  {| ObjMeta := meta deletion finalizers;
     Spec := {| AllocationReconciler.CloudID := "X";
                AllocationReconciler.Location := "madrid";
                AllocationReconciler.Extensions := ∅ |};
     Status := {| AllocationReconciler.NodeID := "";
                  AllocationReconciler.StatusBMC :=
                    {| AllocationReconciler.Address := "";
                       AllocationReconciler.CredentialsName := "" |};
                  AllocationReconciler.Conditions := [] |} |}.

(** A request that already has a node. *)
Definition allocated (finalizers : list string)
  : AllocationReconciler.NodeAllocationRequest :=
  {| ObjMeta := meta None finalizers;
     Spec := {| AllocationReconciler.CloudID := "X";
                AllocationReconciler.Location := "madrid";
                AllocationReconciler.Extensions := ∅ |};
     Status := {| AllocationReconciler.NodeID :=
                    "acme-c3f64cf1-40c0-4324-b13a-40f22b0d16c5";
                  AllocationReconciler.StatusBMC :=
                    {| AllocationReconciler.Address := "";
                       AllocationReconciler.CredentialsName := "" |};
                  AllocationReconciler.Conditions := [] |} |}.

Definition release (deletion : option Z) (finalizers : list string)
  : ReleaseReconciler.NodeReleaseRequest :=
  {| ObjMeta := meta deletion finalizers;
     Spec := {| ReleaseReconciler.CloudID := "X";
                ReleaseReconciler.NodeID := "N";
                ReleaseReconciler.Extensions := ∅ |};
     Status := {| ReleaseReconciler.Conditions := [] |} |}.

End Sample.

(** ** Notions about the allocation hook *)

(** The key of the credentials secret of a request. *)
Definition bmcKey (object : AllocationReconciler.NodeAllocationRequest)
  : NamespacedName :=
  (Namespace (ObjMeta object), Name (ObjMeta object) +:+ "-bmc").

(** The secret [processUpdate] hands to [CreateOrPatch]. *)
Definition blankSecret (object : AllocationReconciler.NodeAllocationRequest)
  : Secret :=
  {| SecretMeta :=
       {| Namespace := Namespace (ObjMeta object);
          Name := Name (ObjMeta object) +:+ "-bmc";
          UID := ""; DeletionTimestamp := None; Finalizers := [];
          OwnerReferences := [] |};
     Data := None |}.

(** The condition both update hooks set. *)
Definition fulfilled : Condition :=
  {| CondType := FulfilledCondition;
     CondStatus := ConditionTrue;
     ObservedGeneration := 0;
     LastTransitionTime := 0;
     Reason := "Fulfilled";
     Message := "The request has been fulfilled" |}.

(** The owner reference the mutate function puts on the secret. *)
Definition ownerRef (object : AllocationReconciler.NodeAllocationRequest)
  : OwnerReference :=
  {| RefAPIVersion := pluginapi_GroupVersion;
     RefKind := "NodeAllocationRequest";
     RefName := Name (ObjMeta object);
     RefUID := UID (ObjMeta object) |}.

(** The data the mutate function puts in the secret. *)
Definition credentials (data : gmap string string) : gmap string string :=
  <["password" := "mypass"]> (<["username" := "myuser"]> data).

(** The status of a request nobody has touched yet. *)
Definition emptyAllocationStatus : AllocationReconciler.NodeAllocationRequestStatus :=
  {| AllocationReconciler.NodeID := "";
     AllocationReconciler.StatusBMC :=
       {| AllocationReconciler.Address := "";
          AllocationReconciler.CredentialsName := "" |};
     AllocationReconciler.Conditions := [] |}.

(** ** Further properties of a reconciler *)

(** The object stored under a name carries that name, if there is one. *)
Definition named {Sp St} (request : NamespacedName) (w : World (Object Sp St))
  : Prop :=
  forall o, objects w !! request = Some o -> ObjectKey (ObjMeta o) = request.

(** The same for a secret. *)
Definition secret_named {O} (key : NamespacedName) (w : World O) : Prop :=
  forall s, secrets w !! key = Some s -> ObjectKey (SecretMeta s) = key.

(** The finalizers of an object that are not the token. *)
Definition otherFinalizers (finalizer : string) (fs : list string) : list string :=
  filter (fun f => f <> finalizer) fs.

(** A hook that always returns the zero result. *)
Definition plain_hook {Sp St}
  (hook : Object Sp St -> M (World (Object Sp St)) (Object Sp St * Result * error))
  : Prop :=
  forall o w, (hook o w).1.1.2 = zeroResult.

(** A hook that leaves the stored objects alone and changes nothing of the
    working copy but its status. *)
Definition status_hook {Sp St}
  (hook : Object Sp St -> M (World (Object Sp St)) (Object Sp St * Result * error))
  : Prop :=
  forall o w,
    objects (hook o w).2 = objects w
    /\ ObjMeta (hook o w).1.1.1 = ObjMeta o
    /\ Spec (hook o w).1.1.1 = Spec o.

(** The calls of hooks among the events of a pass, in their order. *)
Definition hooks_called {O} (evs : list (Event O)) : list (Hook * O) :=
  omap (fun e => match e with EvHook h o => Some (h, o) | _ => None end) evs.

Section MoreProperties.
Context {Sp St : Type} `{Schema Sp St}.

Local Abbreviation O := (Object Sp St).
Local Abbreviation W := (World (Object Sp St)).

Variable finalizerName : string.
Variable logger : string.
Variable R : NamespacedName -> M W (Result * error).

(** A Get that fails otherwise than with not-found: the pass logs the
    error and returns it, and does nothing else. *)
Definition get_error_is_returned : Prop :=
  forall request w e,
    (client_Get request w).1 = inr e ->
    e <> ErrNotFound ->
    (R request w).1 = (zeroResult, Some e)
    /\ pass_events (R request) w =
         [EvGet request (Some e); EvError logger e "Failed to get object" []]
    /\ objects (R request w).2 = objects w
    /\ secrets (R request w).2 = secrets w.

(** The pass never asks for a requeue. *)
Definition never_requeues : Prop :=
  forall request w, (R request w).1.1 = zeroResult.

(** The pass on a name leaves the objects under every other name alone,
    and puts nothing under a name that had nothing. *)
Definition touches_one_object : Prop :=
  forall request w,
    named request w ->
    (forall k, k <> request -> objects (R request w).2 !! k = objects w !! k)
    /\ (objects w !! request = None -> objects (R request w).2 !! request = None).

(** Of the object it reconciles, the pass changes the status and the
    presence of the token among the finalizers, and nothing else: identity,
    deletion timestamp, owner references, spec and the finalizers of others
    (in their order) stay, and finalizers without duplicates stay so. *)
Definition keeps_what_is_not_its_own : Prop :=
  forall request w o o',
    named request w ->
    objects w !! request = Some o ->
    objects (R request w).2 !! request = Some o' ->
    Namespace (ObjMeta o') = Namespace (ObjMeta o)
    /\ Name (ObjMeta o') = Name (ObjMeta o)
    /\ UID (ObjMeta o') = UID (ObjMeta o)
    /\ DeletionTimestamp (ObjMeta o') = DeletionTimestamp (ObjMeta o)
    /\ OwnerReferences (ObjMeta o') = OwnerReferences (ObjMeta o)
    /\ Spec o' = Spec o
    /\ otherFinalizers finalizerName (Finalizers (ObjMeta o'))
       = otherFinalizers finalizerName (Finalizers (ObjMeta o))
    /\ (NoDup (Finalizers (ObjMeta o)) -> NoDup (Finalizers (ObjMeta o'))).

(** A delete pass whose patches go through: the token is gone and every
    other finalizer is still there; when there is no other finalizer the
    object is gone from the store. *)
Definition delete_pass_outcome : Prop :=
  forall request w o,
    (client_Get request w).1 = inl o ->
    ObjectKey (ObjMeta o) = request ->
    deleting o = true ->
    nth 1 (faults w) None = None ->
    nth 2 (faults w) None = None ->
    (R request w).1 = (zeroResult, None)
    /\ objects (R request w).2 =
         match otherFinalizers finalizerName (Finalizers (ObjMeta o)) with
         | [] => delete request (objects w)
         | others =>
             <[request := set_ObjMeta (set_Finalizers others (ObjMeta o)) o]>
               (objects w)
         end.

(** The update path whose status patch is refused: the error is logged
    and returned, and what the hook did stays done. *)
Definition failed_status_patch_is_returned
  (processUpdate : O -> M W (O * Result * error)) : Prop :=
  forall request w o copy result w3 e,
    (client_Get request w).1 = inl o ->
    unclaimed finalizerName o = false ->
    deleting o = false ->
    processUpdate o (emit (EvHook Apply o) (client_Get request w).2).2
      = ((copy, result, None), w3) ->
    nextFault w3 = Some e ->
    (R request w).1 = (result, Some e)
    /\ objects (R request w).2 = objects w3
    /\ secrets (R request w).2 = secrets w3
    /\ trace (R request w).2 =
         trace w3 ++ [EvStatusPatch copy o (Some e);
                      EvError logger e "Failed to updated status" (requestKV request)].

(** The update path whose hook fails: whatever the hook tried on the
    secrets was refused, and the secrets are as before. *)
Definition failed_update_writes_no_secret
  (processUpdate : O -> M W (O * Result * error)) : Prop :=
  forall request w o copy result e w3,
    (client_Get request w).1 = inl o ->
    unclaimed finalizerName o = false ->
    deleting o = false ->
    processUpdate o (emit (EvHook Apply o) (client_Get request w).2).2
      = ((copy, result, Some e), w3) ->
    secrets (R request w).2 = secrets w
    /\ Forall (fun ev => writes_secret ev = false) (pass_events (R request) w).

(** The hooks a pass calls are decided by the object it fetched: none
    when the Get fails or the object is neither ours nor being deleted,
    the cleanup hook when it is being deleted, the update hook otherwise;
    each on the object as fetched. *)
Definition one_hook_per_pass : Prop :=
  forall request w,
    hooks_called (pass_events (R request) w)
    = match (client_Get request w).1 with
      | inr _ => []
      | inl o =>
          if unclaimed finalizerName o then []
          else if deleting o then [(Cleanup, o)]
          else [(Apply, o)]
      end.

End MoreProperties.

(** ** Further notions about the hooks *)

(** What an update hook does to the conditions [cs], reading the clock at
    [t]: the conditions of other types stay, in their order, and a
    condition Fulfilled with status True is there; its transition time is
    the old one when Fulfilled was True already, and [t] otherwise. *)
Definition fulfils (cs cs' : list Condition) (t : Z) : Prop :=
  filter (fun c => CondType c <> FulfilledCondition) cs'
  = filter (fun c => CondType c <> FulfilledCondition) cs
  /\ exists c,
       FindStatusCondition cs' FulfilledCondition = Some c
       /\ CondStatus c = ConditionTrue
       /\ Reason c = "Fulfilled"
       /\ Message c = "The request has been fulfilled"
       /\ LastTransitionTime c
          = match FindStatusCondition cs FulfilledCondition with
            | Some x =>
                if decide (CondStatus x = ConditionTrue) then LastTransitionTime x
                else t
            | None => t
            end.


(** ** The program ([main.go])

    [main] builds the controller manager, registers the kinds of the
    plugin API and the two reconcilers, and starts the manager.  The
    calls into the controller runtime are modelled by what [main] can see
    of them: the error each returns, as [Boot] says, and what they leave
    in the manager.  [ctrl.GetConfigOrDie] logs and exits with status 1
    when there is no configuration; [Complete] refuses a kind the scheme
    does not know; [Start] returns when the manager stops. *)

Module Program.

(** What the start of the program gets from outside: the error, if any, of
    each call it makes, and the kinds the scheme of a new manager knows. *)
Record Boot : Type := mkBoot {
  configError : error;
  newManagerError : error;
  builtinKinds : list string;
  otherPluginKinds : list string;
  addToSchemeError : error;
  completeError : string -> error;
  startError : error;
}.

(** A line of the log of the program. *)
Inductive Line : Type :=
  | InfoLine (msg : string)
  | ErrorLine (err : Err) (msg : string).

(** The controller manager: its scheme, the reconcilers registered with it
    (kind and logger name, in the order of registration), and whether
    [Start] was called. *)
Record Manager : Type := mkManager {
  mgrScheme : list string;
  mgrControllers : list (string * string);
  mgrStarted : bool;
}.

(** How the program ends: [os.Exit] with a code, or the return of [main]. *)
Inductive Exit : Type :=
  | Exited (code : Z)
  | Returned.

Record Run : Type := mkRun {
  exit : Exit;
  manager : option Manager;
  output : list Line;
}.

(** [ctrl.NewManager(config, ctrl.Options{})]. *)
Definition ctrl_NewManager (boot : Boot) : Manager + Err :=
  match newManagerError boot with
  | Some e => inr e
  | None =>
      inl {| mgrScheme := builtinKinds boot; mgrControllers := [];
             mgrStarted := false |}
  end.

(** [pluginapi.AddToScheme(manager.GetScheme())]: registers the kinds of
    the plugin API, among them the two that [main] creates reconcilers
    for; which others there are is not for [main] to say. *)
Definition pluginapi_AddToScheme (boot : Boot) (m : Manager) : Manager * error :=
  match addToSchemeError boot with
  | Some e => (m, Some e)
  | None =>
      ({| mgrScheme :=
            mgrScheme m
              ++ [@schema_kind _ _ AllocationReconciler.schema;
                  @schema_kind _ _ ReleaseReconciler.schema]
              ++ otherPluginKinds boot;
          mgrControllers := mgrControllers m;
          mgrStarted := mgrStarted m |}, None)
  end.

(** [ctrl.NewControllerManagedBy(manager).For(kind).Complete(reconciler)]:
    fails when the scheme does not know the kind. *)
Definition Complete (boot : Boot) (kind logger : string) (m : Manager)
  : Manager * error :=
  if bool_decide (kind ∈ mgrScheme m) then
    match completeError boot kind with
    | Some e => (m, Some e)
    | None =>
        ({| mgrScheme := mgrScheme m;
            mgrControllers := mgrControllers m ++ [(kind, logger)];
            mgrStarted := mgrStarted m |}, None)
    end
  else (m, Some (ErrOther "no kind is registered for the type")).

(** [manager.Start(ctx)]: runs until the signal to stop or a failure. *)
Definition manager_Start (boot : Boot) (m : Manager) : Manager * error :=
  ({| mgrScheme := mgrScheme m; mgrControllers := mgrControllers m;
      mgrStarted := true |}, startError boot).

(** [main]. *)
Definition main (boot : Boot) : Run :=
  (* ctrl.GetConfigOrDie: *)
  match configError boot with
  | Some e =>
      {| exit := Exited 1; manager := None;
         output := [ErrorLine e "unable to get kubeconfig"] |}
  | None =>
  (* Create the controller manager: *)
  match ctrl_NewManager boot with
  | inr e =>
      {| exit := Exited 1; manager := None;
         output := [ErrorLine e "Failed to create controller manager"] |}
  | inl manager =>
  (* Add the types of the plugin API to the scheme: *)
  let '(manager, err) := pluginapi_AddToScheme boot manager in
  match err with
  | Some e =>
      {| exit := Exited 1; manager := Some manager;
         output := [ErrorLine e "Failed to add plugin API types to the scheme"] |}
  | None =>
  (* Create the allocation request reconciler: *)
  let '(manager, err) :=
    Complete boot (@schema_kind _ _ AllocationReconciler.schema)
      AllocationReconciler.logger manager in
  match err with
  | Some e =>
      {| exit := Exited 1; manager := Some manager;
         output := [ErrorLine e "Failed to create allocation reconciler"] |}
  | None =>
  (* Create the release request reconciler: *)
  let '(manager, err) :=
    Complete boot (@schema_kind _ _ ReleaseReconciler.schema)
      ReleaseReconciler.logger manager in
  match err with
  | Some e =>
      {| exit := Exited 1; manager := Some manager;
         output := [ErrorLine e "Failed to create release reconciler"] |}
  | None =>
  (* Start the controller manager, then wait for the signal to stop it: *)
  let '(manager, err) := manager_Start boot manager in
  match err with
  | Some e =>
      {| exit := Exited 1; manager := Some manager;
         output := [InfoLine "Starting controller manager";
                    ErrorLine e "Controller manager failed"] |}
  | None =>
      {| exit := Returned; manager := Some manager;
         output := [InfoLine "Starting controller manager"] |}
  end end end end end end.

(** No call of the start fails. *)
Definition quietBoot (boot : Boot) : Prop :=
  configError boot = None
  /\ newManagerError boot = None
  /\ addToSchemeError boot = None
  /\ completeError boot (@schema_kind _ _ AllocationReconciler.schema) = None
  /\ completeError boot (@schema_kind _ _ ReleaseReconciler.schema) = None
  /\ startError boot = None.

Definition isError (l : Line) : bool :=
  match l with
  | ErrorLine _ _ => true
  | InfoLine _ => false
  end.

(** A start in which nothing fails, and one in which the registration of
    the release reconciler does. *)
Definition calmBoot : Boot :=
  {| configError := None; newManagerError := None; builtinKinds := ["Secret"];
     otherPluginKinds := ["NodeAllocationRequestList"; "NodeReleaseRequestList"];
     addToSchemeError := None; completeError := fun _ => None;
     startError := None |}.

Definition brokenBoot : Boot :=
  {| configError := None; newManagerError := None; builtinKinds := ["Secret"];
     otherPluginKinds := ["NodeAllocationRequestList"; "NodeReleaseRequestList"];
     addToSchemeError := None;
     completeError := fun kind =>
       if decide (kind = "NodeReleaseRequest") then Some ErrConflict else None;
     startError := None |}.

End Program.

(** ** More sample worlds *)

Module Sample2.

Definition otherKey : NamespacedName := ("europe", "du-7").

Definition otherMeta : ObjectMeta :=
  {| Namespace := "europe"; Name := "du-7"; UID := "91aa";
     DeletionTimestamp := None; Finalizers := [];
     OwnerReferences := [] |}.

Definition otherRelease : ReleaseReconciler.NodeReleaseRequest :=
  {| ObjMeta := otherMeta;
     Spec := {| ReleaseReconciler.CloudID := "Y";
                ReleaseReconciler.NodeID := "M";
                ReleaseReconciler.Extensions := ∅ |};
     Status := {| ReleaseReconciler.Conditions := [] |} |}.

(** Two release requests in the store. *)
Definition twoReleases (o : ReleaseReconciler.NodeReleaseRequest) (fs : list error)
  : ReleaseReconciler.W :=
  {| objects := <[otherKey := otherRelease]> {[ Sample.key := o ]};
     secrets := ∅;
     scheme := ["NodeAllocationRequest"; "NodeReleaseRequest"];
     faults := fs; entropy := []; now := 1000; trace := [] |}.

(** A condition somebody else put on a request, and a stale Fulfilled. *)
Definition validated : Condition :=
  {| CondType := "Validated"; CondStatus := ConditionTrue;
     ObservedGeneration := 1; LastTransitionTime := 500;
     Reason := "Checked"; Message := "The request is well formed" |}.

Definition notFulfilled : Condition :=
  {| CondType := "Fulfilled"; CondStatus := ConditionFalse;
     ObservedGeneration := 0; LastTransitionTime := 600;
     Reason := "Pending"; Message := "No node yet" |}.

Definition pendingRelease : ReleaseReconciler.NodeReleaseRequest :=
  {| ObjMeta := Sample.meta None [Sample.finalizerName];
     Spec := {| ReleaseReconciler.CloudID := "X";
                ReleaseReconciler.NodeID := "N";
                ReleaseReconciler.Extensions := ∅ |};
     Status := {| ReleaseReconciler.Conditions := [validated; notFulfilled] |} |}.

(** A credentials secret that is there already, with a key and an owner
    of its own. *)
Definition oldSecret : Secret :=
  {| SecretMeta :=
       {| Namespace := "europe"; Name := "cu-113d00a-22422-bmc"; UID := "5e11";
          DeletionTimestamp := None; Finalizers := [];
          OwnerReferences :=
            [ {| RefAPIVersion := "v1"; RefKind := "ConfigMap";
                 RefName := "inventory"; RefUID := "c0de" |} ] |};
     Data := Some {[ "username" := "old"; "note" := "rack 12" ]} |}.

Definition withSecret (o : AllocationReconciler.NodeAllocationRequest)
  (fs : list error) : AllocationReconciler.W :=
  {| objects := {[ Sample.key := o ]};
     secrets := {[ ("europe", "cu-113d00a-22422-bmc") := oldSecret ]};
     scheme := ["NodeAllocationRequest"; "NodeReleaseRequest"];
     faults := fs; entropy := []; now := 1000; trace := [] |}.

End Sample2.

(** * Proofs *)

Lemma pass_events_app {O A} (m : M (World O) A) (w : World O) evs :
  trace (m w).2 = trace w ++ evs -> pass_events m w = evs.
Proof. intros E. unfold pass_events. rewrite E. apply drop_app_length. Qed.

Ltac run := unfold mbind, M_bind, mret, M_ret, logger_Info, logger_Error, emit,
  getObjects, putObjects, getSecrets, putSecrets, roundTrip, time_Now, client_Scheme,
  nextFault in *; cbn [fst snd objects secrets scheme faults entropy now trace tail] in *.

Lemma bind_eq {W A B} (m : M W A) (f : A -> M W B) (w w' : W) (x : A) :
  m w = (x, w') -> (m ≫= f) w = f x w'.
Proof. intros E. unfold mbind, M_bind. by rewrite E. Qed.

Ltac step E := rewrite (bind_eq _ _ _ _ _ E).

Section ClientFacts.
Context {Sp St : Type} `{Schema Sp St}.
Local Abbreviation O := (Object Sp St).
Local Abbreviation W := (World (Object Sp St)).

(** What [client_Get] answers and what it leaves. *)
Lemma client_Get_run (request : NamespacedName) (w : W) :
  exists r w',
    client_Get request w = (r, w')
    /\ r = match nextFault w with
           | Some e => inr e
           | None => match objects w !! request with
                     | Some o => inl o
                     | None => inr ErrNotFound
                     end
           end
    /\ objects w' = objects w /\ secrets w' = secrets w /\ scheme w' = scheme w
    /\ faults w' = tail (faults w) /\ entropy w' = entropy w
    /\ trace w' = trace w
         ++ [EvGet request (match r with inl _ => None | inr e => Some e end)].
Proof.
  unfold client_Get. run. do 2 eexists. split; [reflexivity|]. cbn. tauto.
Qed.

Lemma client_Patch_run (copy base : O) (w : W) :
  exists r err w',
    client_Patch copy base w = ((r, err), w')
    /\ secrets w' = secrets w /\ scheme w' = scheme w
    /\ faults w' = tail (faults w) /\ entropy w' = entropy w
    /\ trace w' = trace w ++ [EvPatch copy base err]
    /\ match nextFault w, objects w !! ObjectKey (ObjMeta copy) with
       | Some e, _ => err = Some e /\ r = copy /\ objects w' = objects w
       | None, None => err = Some ErrNotFound /\ r = copy /\ objects w' = objects w
       | None, Some stored =>
           err = None /\ r = applyPatch base copy stored
           /\ objects w' =
                if collectable (applyPatch base copy stored)
                then delete (ObjectKey (ObjMeta copy)) (objects w)
                else <[ObjectKey (ObjMeta copy) := applyPatch base copy stored]>
                       (objects w)
       end.
Proof.
  unfold client_Patch. run.
  destruct (match faults w with [] => None | f :: _ => f end) as [e|] eqn:Ef.
  - run. do 3 eexists. split; [reflexivity|]. cbn. tauto.
  - destruct (objects w !! ObjectKey (ObjMeta copy)) as [stored|] eqn:El.
    + run. do 3 eexists. split; [reflexivity|]. cbn. tauto.
    + run. do 3 eexists. split; [reflexivity|]. cbn. tauto.
Qed.

Lemma client_Status_Patch_run (copy base : O) (w : W) :
  exists r err w',
    client_Status_Patch copy base w = ((r, err), w')
    /\ secrets w' = secrets w /\ scheme w' = scheme w
    /\ faults w' = tail (faults w) /\ entropy w' = entropy w
    /\ trace w' = trace w ++ [EvStatusPatch copy base err]
    /\ match nextFault w, objects w !! ObjectKey (ObjMeta copy) with
       | Some e, _ => err = Some e /\ r = copy /\ objects w' = objects w
       | None, None => err = Some ErrNotFound /\ r = copy /\ objects w' = objects w
       | None, Some stored =>
           err = None /\ r = applyStatusPatch base copy stored
           /\ objects w' =
                <[ObjectKey (ObjMeta copy) := applyStatusPatch base copy stored]>
                  (objects w)
       end.
Proof.
  unfold client_Status_Patch. run.
  destruct (match faults w with [] => None | f :: _ => f end) as [e|] eqn:Ef.
  - run. do 3 eexists. split; [reflexivity|]. cbn. tauto.
  - destruct (objects w !! ObjectKey (ObjMeta copy)) as [stored|] eqn:El.
    + run. do 3 eexists. split; [reflexivity|]. cbn. tauto.
    + run. do 3 eexists. split; [reflexivity|]. cbn. tauto.
Qed.
End ClientFacts.


Lemma quiet_calls_hook {O} (e : Event O) : quiet e = true -> calls_hook e = false.
Proof. by destruct e. Qed.
Lemma quiet_touches_meta {O} (e : Event O) : quiet e = true -> touches_meta e = false.
Proof. by destruct e. Qed.

Lemma ContainsFinalizer_app fs gs f :
  ContainsFinalizer (fs ++ gs) f = ContainsFinalizer fs f || ContainsFinalizer gs f.
Proof. induction fs as [|x fs IH]; cbn; [done|]. by case_decide. Qed.

Lemma ContainsFinalizer_Add fs f : ContainsFinalizer (AddFinalizer fs f) f = true.
Proof.
  unfold AddFinalizer. destruct (ContainsFinalizer fs f) eqn:E; [done|].
  rewrite ContainsFinalizer_app. cbn. case_decide; [|done]. by rewrite orb_true_r.
Qed.

Lemma ContainsFinalizer_Remove fs f : ContainsFinalizer (RemoveFinalizer fs f) f = false.
Proof.
  induction fs as [|x fs IH]; cbn; [done|]. case_decide; cbn; [done|].
  by case_decide.
Qed.

Lemma RemoveFinalizer_absent fs f :
  ContainsFinalizer fs f = false -> RemoveFinalizer fs f = fs.
Proof.
  induction fs as [|x fs IH]; cbn; [done|]. case_decide; [done|]. intros E. by rewrite IH.
Qed.

Section EngineFacts.
Context {Sp St : Type} `{Schema Sp St}.
Local Abbreviation O := (Object Sp St).
Local Abbreviation W := (World (Object Sp St)).
Variable finalizerName logger : string.
Variable processUpdate processDelete : O -> M W (O * Result * error).

Local Abbreviation R := (Reconcile finalizerName logger processUpdate processDelete).
Local Abbreviation failedLog := (failedLog logger).
Local Abbreviation cleanupLog := (cleanupLog logger).
Local Abbreviation cleanup_only_logs := (cleanup_only_logs logger processDelete).




(** The events of a pass, by the branch it takes. *)
Lemma Reconcile_shape (request : NamespacedName) (w : W) :
  quiet_hook processUpdate -> quiet_hook processDelete ->
  exists evs,
    trace (R request w).2 = trace w ++ evs
    /\ match (client_Get request w).1 with
       | inr e => exists log, evs = [EvGet request (Some e); log] /\ quiet log = true
       | inl o =>
           if unclaimed finalizerName o then
             exists err logs,
               evs = [EvGet request None; EvPatch (withFinalizer finalizerName o) o err]
                       ++ logs
               /\ Forall (fun e => quiet e = true) logs
           else if deleting o then
             exists rest,
               evs = [EvGet request None; EvHook Cleanup o] ++ rest
               /\ Forall (fun e => calls_hook e = false) rest
           else
             exists rest,
               evs = [EvGet request None; EvHook Apply o] ++ rest
               /\ Forall (fun e => calls_hook e = false /\ touches_meta e = false) rest
       end.
Proof.
  intros Hu Hd. unfold Reconcile, unclaimed, deleting.
  destruct (client_Get_run request w) as (got & w1 & Eg & Hgot & _ & _ & _ & _ & _ & Ht1).
  step Eg. rewrite Eg. cbn [fst snd].
  destruct got as [o|e].
  - cbv zeta.
    destruct (Time_IsZero (DeletionTimestamp (ObjMeta o))) eqn:Ez; cbn [negb andb].
    + destruct (ContainsFinalizer (Finalizers (ObjMeta o)) finalizerName) eqn:Ef;
        cbn [negb andb].
      * (* the update path *)
        step (eq_refl : emit (EvHook Apply o) w1 = (tt, (emit (EvHook Apply o) w1).2)).
        destruct (Hu o (emit (EvHook Apply o) w1).2) as (hevs & Hh & Hq).
        destruct (processUpdate o (emit (EvHook Apply o) w1).2)
          as [[[copy result] err] w3] eqn:Eh.
        step Eh. cbn [snd] in Hh.
        assert (Ht3 : trace w3 = trace w ++ [EvGet request None; EvHook Apply o] ++ hevs).
        { rewrite Hh. cbn. rewrite Ht1. by rewrite <- ?app_assoc. }
        assert (Hq' : Forall (fun e : Event O =>
                         calls_hook e = false /\ touches_meta e = false) hevs).
        { eapply Forall_impl; [exact Hq|]. intros x Hx.
          split; [by apply quiet_calls_hook | by apply quiet_touches_meta]. }
        destruct err as [e|].
        -- run. eexists. split.
           { rewrite Ht3. rewrite <- ?app_assoc. reflexivity. }
           eexists. split; [reflexivity|].
           apply Forall_app. split; [done|]. by repeat constructor.
        -- destruct (client_Status_Patch_run copy o w3)
             as (r & err & w4 & Ep & _ & _ & _ & _ & Ht4 & _).
           step Ep. destruct err as [e|]; run.
           ++ eexists. split.
              { rewrite Ht4, Ht3. rewrite <- ?app_assoc. reflexivity. }
              eexists. split; [reflexivity|].
              apply Forall_app. split; [done|]. by repeat constructor.
           ++ eexists. split.
              { rewrite Ht4, Ht3. rewrite <- ?app_assoc. reflexivity. }
              eexists. split; [reflexivity|].
              apply Forall_app. split; [done|]. by repeat constructor.
      * (* the object is not ours yet *)
        destruct (client_Patch_run (withFinalizer finalizerName o) o w1)
          as (r & err & w2 & Ep & _ & _ & _ & _ & Ht2 & _).
        unfold withFinalizer in Ep. step Ep.
        destruct err as [e|]; run.
        -- eexists. split.
           { rewrite Ht2, Ht1. rewrite <- ?app_assoc. reflexivity. }
           exists (Some e). eexists. split; [reflexivity|]. by repeat constructor.
        -- eexists. split.
           { rewrite Ht2, Ht1. rewrite <- ?app_assoc. reflexivity. }
           exists None, []. split; [reflexivity|]. constructor.
    + (* the delete path *)
      step (eq_refl : emit (EvHook Cleanup o) w1 = (tt, (emit (EvHook Cleanup o) w1).2)).
      destruct (Hd o (emit (EvHook Cleanup o) w1).2) as (hevs & Hh & Hq).
      destruct (processDelete o (emit (EvHook Cleanup o) w1).2)
        as [[[copy result] err] w3] eqn:Eh.
      step Eh. cbn [snd] in Hh.
      assert (Ht3 : trace w3 = trace w ++ [EvGet request None; EvHook Cleanup o] ++ hevs).
      { rewrite Hh. cbn. rewrite Ht1. by rewrite <- ?app_assoc. }
      assert (Hq' : Forall (fun e : Event O => calls_hook e = false) hevs).
      { eapply Forall_impl; [exact Hq|]. intros x Hx. by apply quiet_calls_hook. }
      destruct err as [e|].
      * run. eexists. split.
        { rewrite Ht3. rewrite <- ?app_assoc. reflexivity. }
        eexists. split; [reflexivity|]. done.
      * destruct (client_Status_Patch_run copy o w3)
          as (r & err & w4 & Ep & _ & _ & _ & _ & Ht4 & _).
        step Ep. destruct err as [e|].
        -- run. eexists. split.
           { rewrite Ht4, Ht3. rewrite <- ?app_assoc. reflexivity. }
           eexists. split; [reflexivity|].
           apply Forall_app. split; [done|]. by repeat constructor.
        -- match goal with |- context [client_Patch ?c ?b] =>
             destruct (client_Patch_run c b w4)
               as (r5 & err5 & w5 & Ep5 & _ & _ & _ & _ & Ht5 & _); step Ep5 end.
           destruct err5 as [e|]; run.
           ++ eexists. split.
              { rewrite Ht5, Ht4, Ht3. rewrite <- ?app_assoc. reflexivity. }
              eexists. split; [reflexivity|].
              apply Forall_app. split; [done|]. by repeat constructor.
           ++ eexists. split.
              { rewrite Ht5, Ht4, Ht3. rewrite <- ?app_assoc. reflexivity. }
              eexists. split; [reflexivity|].
              apply Forall_app. split; [done|]. by repeat constructor.
  - destruct e; run; (eexists; split; [rewrite Ht1; rewrite <- ?app_assoc; reflexivity|]);
      eexists; (split; [reflexivity|]); reflexivity.
Qed.

Lemma client_Get_inl (request : NamespacedName) (w : W) (o : O) :
  (client_Get request w).1 = inl o ->
  nextFault w = None /\ objects w !! request = Some o
  /\ client_Get request w = (inl o, (emit (EvGet request None) (roundTrip w).2).2).
Proof.
  unfold client_Get. run. intros E.
  destruct (match faults w with [] => None | f :: _ => f end) as [e|]; [done|].
  destruct (objects w !! request) as [o'|]; [|done].
  by simplify_eq.
Qed.

Lemma applyPatch_finalizers (o : O) (fs : list string) :
  applyPatch o (set_ObjMeta (set_Finalizers fs (ObjMeta o)) o) o
  = set_ObjMeta (set_Finalizers fs (ObjMeta o)) o.
Proof.
  destruct o as [[ns n u d f r] sp st].
  unfold applyPatch, mergeLeaf, set_ObjMeta, set_Finalizers. cbn.
  repeat case_decide; by simplify_eq.
Qed.

Lemma applyStatusPatch_same `{!SchemaLaws Sp St} (o : O) : applyStatusPatch o o o = o.
Proof.
  destruct o. unfold applyStatusPatch, set_Status. cbn. by rewrite mergeStatus_same.
Qed.

Lemma applyStatusPatch_onto `{!SchemaLaws Sp St} (o copy : O) :
  ObjMeta copy = ObjMeta o -> Spec copy = Spec o -> applyStatusPatch o copy o = copy.
Proof.
  destruct o, copy. unfold applyStatusPatch, set_Status. cbn. intros -> ->.
  by rewrite mergeStatus_onto.
Qed.


(** The pass on an object that is not being deleted and is not ours yet. *)
Lemma Reconcile_unclaimed (request : NamespacedName) (w : W) (o : O) :
  (client_Get request w).1 = inl o ->
  ObjectKey (ObjMeta o) = request ->
  unclaimed finalizerName o = true ->
  exists err,
    err = nth 1 (faults w) None
    /\ (R request w).1 = (zeroResult, err)
    /\ trace (R request w).2 =
         trace w ++ [EvGet request None; EvPatch (withFinalizer finalizerName o) o err]
           ++ failedLog "Failed to add finalizer"
                (requestKV request ++ [("finalizer", LogString finalizerName)]) err
    /\ secrets (R request w).2 = secrets w
    /\ objects (R request w).2 =
         match err with
         | Some _ => objects w
         | None => <[request := withFinalizer finalizerName o]> (objects w)
         end.
Proof.
  intros Hg Hk Hu. apply client_Get_inl in Hg as (Hf & Hl & Eg).
  unfold Reconcile. step Eg. cbv zeta.
  unfold unclaimed in Hu. apply andb_prop in Hu as [Hz Hc].
  rewrite Hz. apply negb_true_iff in Hc. rewrite Hc. cbn [negb andb].
  set (w1 := (emit (EvGet request None) (roundTrip w).2).2) in *.
  destruct (client_Patch_run (withFinalizer finalizerName o) o w1)
    as (r & err & w2 & Ep & Hs & _ & _ & _ & Ht & Hcase).
  unfold withFinalizer in Ep. step Ep.
  assert (Hnf : nextFault w1 = nth 1 (faults w) None).
  { subst w1. unfold nextFault. cbn. destruct (faults w) as [|? [|? ?]]; done. }
  assert (Hl1 : objects w1 !! ObjectKey (ObjMeta (withFinalizer finalizerName o))
                = Some o).
  { change (ObjectKey (ObjMeta (withFinalizer finalizerName o)))
      with (ObjectKey (ObjMeta o)). rewrite Hk. subst w1. exact Hl. }
  rewrite Hnf, Hl1 in Hcase.
  exists err. destruct (nth 1 (faults w) None) as [e|] eqn:En.
  - destruct Hcase as (-> & -> & Ho). run.
    repeat split; try done.
    + rewrite Ht. subst w1. cbn. by rewrite <- ?app_assoc.
  - destruct Hcase as (-> & -> & Ho). run.
    repeat split; try done.
    + rewrite Ht. subst w1. cbn. by rewrite <- ?app_assoc.
    + rewrite Ho. unfold withFinalizer. rewrite applyPatch_finalizers.
      unfold collectable. cbn. unfold AddFinalizer. rewrite Hc.
      change (ObjectKey _) with (ObjectKey (ObjMeta o)). rewrite Hk.
      destruct (DeletionTimestamp (ObjMeta o)); [|done].
      by destruct (Finalizers (ObjMeta o)).
Qed.



(** The pass on an object that is being deleted. *)
Lemma Reconcile_deleting `{!SchemaLaws Sp St} (request : NamespacedName) (w : W) (o : O) :
  cleanup_only_logs ->
  (client_Get request w).1 = inl o ->
  ObjectKey (ObjMeta o) = request ->
  deleting o = true ->
  let e1 := nth 1 (faults w) None in
  let e2 := nth 2 (faults w) None in
  (R request w).1 = (zeroResult, match e1 with Some _ => e1 | None => e2 end)
  /\ trace (R request w).2 =
       trace w
         ++ [EvGet request None; EvHook Cleanup o; cleanupLog o; EvStatusPatch o o e1]
         ++ match e1 with
            | Some _ => failedLog "Failed to updated status" (requestKV request) e1
            | None =>
                [EvPatch (withoutFinalizer finalizerName o) o e2]
                  ++ failedLog "Failed to remove finalizer"
                       (requestKV request ++ [("finalizer", LogString finalizerName)]) e2
            end
  /\ secrets (R request w).2 = secrets w
  /\ objects (R request w).2 =
       match e1, e2 with
       | None, None =>
           if collectable (withoutFinalizer finalizerName o)
           then delete request (objects w)
           else <[request := withoutFinalizer finalizerName o]> (objects w)
       | _, _ => objects w
       end.
Proof.
  intros Hd Hg Hk Hdel e1 e2. apply client_Get_inl in Hg as (Hf & Hl & Eg).
  unfold Reconcile. step Eg. cbv zeta.
  unfold deleting in Hdel. rewrite Hdel. cbn [negb andb].
  set (w1 := (emit (EvGet request None) (roundTrip w).2).2) in *.
  step (eq_refl : emit (EvHook Cleanup o) w1 = (tt, (emit (EvHook Cleanup o) w1).2)).
  step (Hd o (emit (EvHook Cleanup o) w1).2).
  set (w3 := (emit (cleanupLog o) (emit (EvHook Cleanup o) w1).2).2).
  destruct (client_Status_Patch_run o o w3)
    as (r & err & w4 & Ep & Hs4 & _ & Hf4 & _ & Ht4 & Hcase).
  step Ep.
  assert (Hnf : nextFault w3 = e1).
  { subst w3 w1 e1. unfold nextFault. cbn. destruct (faults w) as [|? [|? ?]]; done. }
  assert (Hl3 : objects w3 !! ObjectKey (ObjMeta o) = Some o).
  { rewrite Hk. subst w3 w1. exact Hl. }
  assert (Ht3 : trace w3
                = trace w ++ [EvGet request None; EvHook Cleanup o; cleanupLog o]).
  { subst w3 w1. cbn. by rewrite <- ?app_assoc. }
  rewrite Hnf, Hl3 in Hcase.
  destruct e1 as [e|] eqn:E1.
  - destruct Hcase as (-> & -> & Ho). run.
    repeat split; try done.
    rewrite Ht4, Ht3. by rewrite <- ?app_assoc.
  - destruct Hcase as (-> & -> & Ho).
    rewrite applyStatusPatch_same in *.
    assert (Ho4 : objects w4 = objects w).
    { rewrite Ho, Hk. subst w3 w1. cbn. by apply insert_id. }
    destruct (client_Patch_run (withoutFinalizer finalizerName o) o w4)
      as (r5 & err5 & w5 & Ep5 & Hs5 & _ & _ & _ & Ht5 & Hcase5).
    unfold withoutFinalizer in Ep5. step Ep5.
    assert (Hnf5 : nextFault w4 = e2).
    { unfold nextFault. rewrite Hf4. subst w3 w1 e2. cbn.
      destruct (faults w) as [|? [|? [|? ?]]]; done. }
    assert (Hl5 : objects w4 !! ObjectKey (ObjMeta (withoutFinalizer finalizerName o))
                  = Some o).
    { change (ObjectKey (ObjMeta (withoutFinalizer finalizerName o)))
        with (ObjectKey (ObjMeta o)). by rewrite Hk, Ho4. }
    rewrite Hnf5, Hl5 in Hcase5.
    change (ObjectKey (ObjMeta (withoutFinalizer finalizerName o)))
      with (ObjectKey (ObjMeta o)) in Hcase5. rewrite Hk in Hcase5.
    destruct e2 as [e|] eqn:E2.
    + destruct Hcase5 as (-> & -> & Ho5). run.
      repeat split; try done.
      * rewrite Ht5, Ht4, Ht3. by rewrite <- ?app_assoc.
      * by rewrite Hs5, Hs4.
      * by rewrite Ho5.
    + destruct Hcase5 as (-> & -> & Ho5). run.
      repeat split; try done.
      * rewrite Ht5, Ht4, Ht3. by rewrite <- ?app_assoc.
      * by rewrite Hs5, Hs4.
      * rewrite Ho5, Ho4. unfold withoutFinalizer. by rewrite applyPatch_finalizers.
Qed.

(** The pass on an object that is ours and is not being deleted, as far as
    the engine decides it: the hook, then the status patch. *)
Lemma Reconcile_update (request : NamespacedName) (w : W) (o : O) :
  (client_Get request w).1 = inl o ->
  unclaimed finalizerName o = false ->
  deleting o = false ->
  R request w =
    let '((copy, result, err), w3) :=
      processUpdate o (emit (EvHook Apply o) (client_Get request w).2).2 in
    match err with
    | Some e =>
        ((result, Some e),
         (emit (EvError logger e "Failed to process update" (requestKV request)) w3).2)
    | None =>
        let '((_, err), w4) := client_Status_Patch copy o w3 in
        match err with
        | Some e =>
            ((result, Some e),
             (emit (EvError logger e "Failed to updated status" (requestKV request))
                w4).2)
        | None =>
            ((result, None),
             (emit (EvInfo logger "Saved updated status" (requestKV request)) w4).2)
        end
    end.
Proof.
  intros Hg Hu Hdel. apply client_Get_inl in Hg as (Hf & Hl & Eg).
  unfold Reconcile. step Eg. rewrite Eg. cbv zeta. cbn [snd].
  unfold deleting in Hdel. unfold unclaimed in Hu. rewrite Hdel.
  apply negb_false_iff in Hdel. rewrite Hdel in Hu. cbn [negb andb] in *.
  apply negb_false_iff in Hu. rewrite Hu. cbn [negb].
  set (w1 := (emit (EvGet request None) (roundTrip w).2).2) in *.
  step (eq_refl : emit (EvHook Apply o) w1 = (tt, (emit (EvHook Apply o) w1).2)).
  destruct (processUpdate o (emit (EvHook Apply o) w1).2)
    as [[[copy result] err] w3] eqn:Eh.
  step Eh. destruct err as [e|]; [reflexivity|].
  destruct (client_Status_Patch copy o w3) as [[r err] w4] eqn:Ep.
  step Ep. by destruct err.
Qed.


Lemma Reconcile_calm (request : NamespacedName) (w : W) :
  calm_hook processUpdate -> calm_hook processDelete ->
  scheme (R request w).2 = scheme w
  /\ (faults w = [] -> faults (R request w).2 = []).
Proof.
  intros Hu Hd. unfold Reconcile.
  destruct (client_Get_run request w) as (got & w1 & Eg & _ & _ & _ & Hc1 & Hf1 & _ & _).
  step Eg.
  assert (Hf1' : faults w = [] -> faults w1 = []) by (intros E; by rewrite Hf1, E).
  destruct got as [o|e].
  - cbv zeta.
    destruct (negb (negb (Time_IsZero (DeletionTimestamp (ObjMeta o))))
              && negb (ContainsFinalizer (Finalizers (ObjMeta o)) finalizerName)).
    + match goal with |- context [client_Patch ?c ?b] =>
        destruct (client_Patch_run c b w1)
          as (r & err & w2 & Ep & _ & Hc2 & Hf2 & _ & _ & _); step Ep end.
      destruct err; run; (split; [congruence|]); intros E; rewrite Hf2, Hf1'; done.
    + destruct (negb (Time_IsZero (DeletionTimestamp (ObjMeta o)))).
      * step (eq_refl : emit (EvHook Cleanup o) w1 = (tt, (emit (EvHook Cleanup o) w1).2)).
        destruct (Hd o (emit (EvHook Cleanup o) w1).2) as [Hc3 Hf3].
        destruct (processDelete o _) as [[[copy result] err] w3] eqn:Eh.
        step Eh. cbn [snd] in Hc3, Hf3.
        assert (Hf3' : faults w = [] -> faults w3 = []) by (intros E; by apply Hf3, Hf1').
        destruct err as [e|]; [run; split; [congruence|done]|].
        destruct (client_Status_Patch_run copy o w3)
          as (r & err & w4 & Ep & _ & Hc4 & Hf4 & _ & _ & _).
        step Ep.
        assert (Hf4' : faults w = [] -> faults w4 = [])
          by (intros E; by rewrite Hf4, Hf3').
        destruct err as [e|]; [run; split; [cbn in Hc3; congruence|done]|].
        match goal with |- context [client_Patch ?c ?b] =>
          destruct (client_Patch_run c b w4)
            as (r5 & err5 & w5 & Ep5 & _ & Hc5 & Hf5 & _ & _ & _); step Ep5 end.
        destruct err5; run; (split; [cbn in Hc3; congruence|]);
          intros E; rewrite Hf5, Hf4'; done.
      * step (eq_refl : emit (EvHook Apply o) w1 = (tt, (emit (EvHook Apply o) w1).2)).
        destruct (Hu o (emit (EvHook Apply o) w1).2) as [Hc3 Hf3].
        destruct (processUpdate o _) as [[[copy result] err] w3] eqn:Eh.
        step Eh. cbn [snd] in Hc3, Hf3.
        assert (Hf3' : faults w = [] -> faults w3 = []) by (intros E; by apply Hf3, Hf1').
        destruct err as [e|]; [run; split; [cbn in Hc3; congruence|done]|].
        destruct (client_Status_Patch_run copy o w3)
          as (r & err & w4 & Ep & _ & Hc4 & Hf4 & _ & _ & _).
        step Ep.
        destruct err; run; (split; [cbn in Hc3; congruence|]);
          intros E; rewrite Hf4, Hf3'; done.
  - destruct e; run; (split; [congruence|done]).
Qed.

Lemma client_Get_lookup (request : NamespacedName) (w : W) :
  nextFault w = None ->
  (client_Get request w).1
  = match objects w !! request with
    | Some o => inl o
    | None => inr ErrNotFound
    end.
Proof. unfold client_Get. run. unfold nextFault. by intros ->. Qed.

Lemma nextFault_nil (w : W) : faults w = [] -> nextFault w = None.
Proof. unfold nextFault. by intros ->. Qed.

(** The pass on an object that is not there. *)
Lemma Reconcile_not_found (request : NamespacedName) (w : W) :
  (client_Get request w).1 = inr ErrNotFound ->
  (R request w).1 = (zeroResult, None)
  /\ trace (R request w).2 =
       trace w ++ [EvGet request (Some ErrNotFound);
                   EvInfo logger "Object no longer exists" (requestKV request)]
  /\ objects (R request w).2 = objects w
  /\ secrets (R request w).2 = secrets w.
Proof.
  intros Hg. unfold Reconcile.
  destruct (client_Get_run request w) as (got & w1 & Eg & _ & Ho & Hs & _ & _ & _ & Ht).
  rewrite Eg in Hg. cbn in Hg. subst got. step Eg. run.
  split_and!; try done. rewrite Ht. by rewrite <- ?app_assoc.
Qed.

Lemma withoutFinalizer_absent (o : O) :
  ContainsFinalizer (Finalizers (ObjMeta o)) finalizerName = false ->
  withoutFinalizer finalizerName o = o.
Proof.
  intros E. destruct o as [[ns n u d f r] sp st].
  unfold withoutFinalizer, set_ObjMeta, set_Finalizers. cbn in *.
  by rewrite RemoveFinalizer_absent.
Qed.

Lemma withoutFinalizer_idem (o : O) :
  withoutFinalizer finalizerName (withoutFinalizer finalizerName o)
  = withoutFinalizer finalizerName o.
Proof. apply withoutFinalizer_absent. cbn. apply ContainsFinalizer_Remove. Qed.

Lemma cleanup_only_logs_quiet : cleanup_only_logs -> quiet_hook processDelete.
Proof.
  intros Hd o w. rewrite Hd. eexists. split; [reflexivity|]. by repeat constructor.
Qed.

Lemma cleanup_only_logs_calm : cleanup_only_logs -> calm_hook processDelete.
Proof. intros Hd o w. by rewrite Hd. Qed.


(** Two passes in a row on an object that is ours or is being deleted,
    with no call failing: the second pass leaves the store as the first
    left it, and every patch it sends is empty. *)
Lemma Reconcile_twice `{!SchemaLaws Sp St} (request : NamespacedName) (w : W) (o : O) :
  cleanup_only_logs ->
  calm_hook processUpdate ->
  settling_hook processUpdate ->
  faults w = [] ->
  (client_Get request w).1 = inl o ->
  ObjectKey (ObjMeta o) = request ->
  unclaimed finalizerName o = false ->
  (R request w).1.2 = None ->
  objects (R request (R request w).2).2 = objects (R request w).2
  /\ secrets (R request (R request w).2).2 = secrets (R request w).2
  /\ Forall (fun e => noop_write e = true) (pass_events (R request) (R request w).2).
Proof.
  intros Hd Hcalm Hset Hf Hg Hk Hu Hok.
  destruct (Reconcile_calm request w Hcalm (cleanup_only_logs_calm Hd)) as [Hc1 Hf1].
  specialize (Hf1 Hf).
  destruct (deleting o) eqn:Hdel.
  - (* the object is being deleted *)
    destruct (Reconcile_deleting request w o Hd Hg Hk Hdel) as (_ & _ & Hs1 & Ho1).
    rewrite Hf in Ho1. cbn in Ho1.
    set (w1 := (R request w).2) in *.
    set (o' := withoutFinalizer finalizerName o) in *.
    destruct (collectable o') eqn:Hcol.
    + assert (Hg1 : (client_Get request w1).1 = inr ErrNotFound).
      { rewrite client_Get_lookup by (by apply nextFault_nil).
        by rewrite Ho1, lookup_delete_eq. }
      destruct (Reconcile_not_found request w1 Hg1) as (_ & Ht2 & Ho2 & Hs2).
      split_and!; try done.
      rewrite (pass_events_app _ _ _ Ht2). by repeat constructor.
    + assert (Hg1 : (client_Get request w1).1 = inl o').
      { rewrite client_Get_lookup by (by apply nextFault_nil).
        by rewrite Ho1, lookup_insert_eq. }
      assert (Hdel' : deleting o' = true) by done.
      destruct (Reconcile_deleting request w1 o' Hd Hg1 Hk Hdel') as (_ & Ht2 & Hs2 & Ho2).
      rewrite Hf1 in Ht2, Ho2. cbn in Ht2, Ho2.
      unfold o' in Ht2, Ho2 at 1 2. rewrite withoutFinalizer_idem in Ht2, Ho2.
      fold o' in Ht2, Ho2. rewrite Hcol in Ho2.
      split_and!; try done.
      * rewrite Ho2, Ho1. by rewrite insert_insert_eq.
      * rewrite (pass_events_app _ _ _ Ht2). repeat constructor; cbn;
          by rewrite bool_decide_eq_true_2.
  - (* the object is ours and stays *)
    pose proof (Reconcile_update request w o Hg Hu Hdel) as Er.
    apply client_Get_inl in Hg as (Hnf & Hl & Eg).
    rewrite Eg in Er. cbn [snd] in Er.
    set (wh := (emit (EvHook Apply o) (emit (EvGet request None) (roundTrip w).2).2).2) in *.
    assert (Hfh : faults wh = []) by (subst wh; cbn; by rewrite Hf).
    destruct (processUpdate o wh) as [[[o1 r] err] w3] eqn:Eh.
    destruct err as [e|]; [by rewrite Er in Hok|].
    destruct (Hset o wh o1 r w3 Hfh Eh) as (Ho3 & Hm1 & Hsp1 & Hagain).
    destruct (Hcalm o wh) as [Hc3 Hf3]. rewrite Eh in Hc3, Hf3. cbn [snd] in Hc3, Hf3.
    specialize (Hf3 Hfh).
    destruct (client_Status_Patch_run o1 o w3)
      as (r4 & err4 & w4 & Ep & Hs4 & Hc4 & Hf4 & _ & Ht4 & Hcase).
    rewrite Ep in Er.
    assert (Hl3 : objects w3 !! ObjectKey (ObjMeta o1) = Some o).
    { rewrite Hm1, Hk, Ho3. subst wh. exact Hl. }
    rewrite (nextFault_nil _ Hf3), Hl3 in Hcase.
    destruct Hcase as (-> & -> & Ho4).
    rewrite (applyStatusPatch_onto _ _ Hm1 Hsp1), Hm1, Hk in Ho4.
    (* the world the first pass leaves *)
    assert (Ho1 : objects (R request w).2 = <[request := o1]> (objects w)).
    { rewrite Er. cbn. rewrite Ho4, Ho3. by subst wh. }
    assert (Hs1 : secrets (R request w).2 = secrets w3) by (rewrite Er; cbn; done).
    assert (Hsch1 : scheme (R request w).2 = scheme w3)
      by (rewrite Er; cbn; done).
    set (w1 := (R request w).2) in *.
    (* the second pass *)
    assert (Hg1 : (client_Get request w1).1 = inl o1).
    { rewrite client_Get_lookup by (by apply nextFault_nil).
      by rewrite Ho1, lookup_insert_eq. }
    assert (Hu1 : unclaimed finalizerName o1 = false)
      by (unfold unclaimed; by rewrite Hm1).
    assert (Hdel1 : deleting o1 = false) by (unfold deleting; by rewrite Hm1).
    pose proof (Reconcile_update request w1 o1 Hg1 Hu1 Hdel1) as Er2.
    apply client_Get_inl in Hg1 as (_ & Hl1 & Eg1).
    rewrite Eg1 in Er2. cbn [snd] in Er2.
    set (wh2 := (emit (EvHook Apply o1) (emit (EvGet request None) (roundTrip w1).2).2).2)
      in *.
    assert (Hfh2 : faults wh2 = []) by (subst wh2; cbn; by rewrite Hf1).
    destruct (Hagain wh2 Hfh2) as (r2 & w5 & evs & Eh2 & Ho5 & Hs5 & Ht5 & Hq5).
    { subst wh2. cbn. exact Hs1. }
    { subst wh2. cbn. exact Hsch1. }
    rewrite Eh2 in Er2.
    destruct (client_Status_Patch_run o1 o1 w5)
      as (r6 & err6 & w6 & Ep6 & Hs6 & _ & _ & _ & Ht6 & Hcase6).
    rewrite Ep6 in Er2.
    assert (Hf5 : faults w5 = []).
    { destruct (Hcalm o1 wh2) as [_ Hx]. rewrite Eh2 in Hx. by apply Hx. }
    assert (Hl5 : objects w5 !! ObjectKey (ObjMeta o1) = Some o1).
    { rewrite Hm1, Hk, Ho5. subst wh2. exact Hl1. }
    rewrite (nextFault_nil _ Hf5), Hl5 in Hcase6.
    destruct Hcase6 as (-> & -> & Ho6).
    rewrite applyStatusPatch_same, Hm1, Hk in Ho6.
    split_and!.
    + rewrite Er2. cbn. rewrite Ho6, Ho5. subst wh2. cbn. by apply insert_id.
    + rewrite Er2. cbn. rewrite Hs6, Hs5. by subst wh2.
    + assert (Ht : trace (R request w1).2 =
                   trace w1 ++ [EvGet request None; EvHook Apply o1] ++ evs
                     ++ [EvStatusPatch o1 o1 None;
                         EvInfo logger "Saved updated status" (requestKV request)]).
      { rewrite Er2. cbn. rewrite Ht6, Ht5. subst wh2. cbn. by rewrite <- ?app_assoc. }
      rewrite (pass_events_app _ _ _ Ht).
      repeat (apply Forall_cons; split; [done|]).
      apply Forall_app. split; [done|].
      repeat constructor. cbn. by rewrite bool_decide_eq_true_2.
Qed.

Lemma quiet_touches_object (e : Event O) : quiet e = true -> touches_object e = false.
Proof. by destruct e. Qed.

Lemma deleting_timestamp (o : O) :
  deleting o = true -> DeletionTimestamp (ObjMeta o) <> None.
Proof. unfold deleting. by destruct (DeletionTimestamp (ObjMeta o)). Qed.

Lemma deleting_not_unclaimed (o : O) :
  deleting o = true -> unclaimed finalizerName o = false.
Proof.
  unfold deleting, unclaimed.
  by destruct (Time_IsZero (DeletionTimestamp (ObjMeta o))).
Qed.

(** ** The properties, for any kind *)

Lemma engine_not_found_is_success : not_found_is_success logger R.
Proof.
  intros request w Hg.
  destruct (Reconcile_not_found request w Hg) as (Hr & Ht & Ho & Hs).
  split_and!; try done. by apply pass_events_app.
Qed.

Lemma engine_cleanup_only_when_deleting :
  quiet_hook processUpdate -> quiet_hook processDelete ->
  cleanup_only_when_deleting R.
Proof.
  intros Hu Hd request w o Hin.
  destruct (Reconcile_shape request w Hu Hd) as (evs & Ht & Hshape).
  rewrite (pass_events_app _ _ _ Ht) in Hin.
  destruct (client_Get request w).1 as [o'|e] eqn:Eg.
  - destruct (unclaimed finalizerName o') eqn:Eu.
    { destruct Hshape as (err & logs & -> & Hq).
      apply elem_of_cons in Hin as [Hin|Hin]; [done|].
      apply elem_of_cons in Hin as [Hin|Hin]; [done|].
      rewrite Forall_forall in Hq. by specialize (Hq _ Hin). }
    destruct (deleting o') eqn:Edel.
    + destruct Hshape as (rest & -> & Hq).
      apply elem_of_cons in Hin as [Hin|Hin]; [done|].
      apply elem_of_cons in Hin as [Hin|Hin].
      * injection Hin as ->. split_and!; [done| by apply deleting_timestamp |done].
      * rewrite Forall_forall in Hq. by specialize (Hq _ Hin).
    + destruct Hshape as (rest & -> & Hq).
      apply elem_of_cons in Hin as [Hin|Hin]; [done|].
      apply elem_of_cons in Hin as [Hin|Hin]; [done|].
      rewrite Forall_forall in Hq. by destruct (Hq _ Hin).
  - destruct Hshape as (log & -> & Hq).
    apply elem_of_cons in Hin as [Hin|Hin]; [done|].
    apply list_elem_of_singleton in Hin. by subst.
Qed.

Lemma engine_cleanup_whenever_deleting :
  quiet_hook processUpdate -> quiet_hook processDelete ->
  cleanup_whenever_deleting R.
Proof.
  intros Hu Hd request w o Hg Hdel.
  destruct (Reconcile_shape request w Hu Hd) as (evs & Ht & Hshape).
  rewrite (pass_events_app _ _ _ Ht).
  rewrite Hg, (deleting_not_unclaimed _ Hdel), Hdel in Hshape.
  destruct Hshape as (rest & -> & _).
  apply elem_of_cons. right. apply list_elem_of_here.
Qed.

Lemma engine_cleanup_before_finalizer_removal :
  quiet_hook processUpdate -> quiet_hook processDelete ->
  cleanup_before_finalizer_removal finalizerName R.
Proof.
  intros Hu Hd request w pre copy base err post Hev Hc.
  destruct (Reconcile_shape request w Hu Hd) as (evs & Ht & Hshape).
  rewrite (pass_events_app _ _ _ Ht) in Hev. subst evs.
  assert (Hin : EvPatch copy base err ∈ pre ++ EvPatch copy base err :: post).
  { apply elem_of_app. right. apply list_elem_of_here. }
  destruct (client_Get request w).1 as [o'|e] eqn:Eg.
  - destruct (unclaimed finalizerName o') eqn:Eu.
    { destruct Hshape as (err' & logs & Heq & Hq). rewrite Heq in Hin.
      apply elem_of_cons in Hin as [Hin|Hin]; [done|].
      apply elem_of_cons in Hin as [Hin|Hin].
      - injection Hin as -> _ _. cbn in Hc. by rewrite ContainsFinalizer_Add in Hc.
      - rewrite Forall_forall in Hq. by specialize (Hq _ Hin). }
    destruct (deleting o') eqn:Edel.
    + destruct Hshape as (rest & Heq & _).
      destruct pre as [|x [|y pre]]; [done|done|].
      injection Heq as -> -> _. exists o'.
      apply elem_of_cons. right. apply list_elem_of_here.
    + destruct Hshape as (rest & Heq & Hq). rewrite Heq in Hin.
      apply elem_of_cons in Hin as [Hin|Hin]; [done|].
      apply elem_of_cons in Hin as [Hin|Hin]; [done|].
      rewrite Forall_forall in Hq. by destruct (Hq _ Hin).
  - destruct Hshape as (log & Heq & Hq). rewrite Heq in Hin.
    apply elem_of_cons in Hin as [Hin|Hin]; [done|].
    apply list_elem_of_singleton in Hin. by subst.
Qed.

Lemma engine_claim_pass_is_isolated : claim_pass_is_isolated finalizerName logger R.
Proof.
  intros request w o Hg Hk Hdt Hc err claimed.
  assert (Hu : unclaimed finalizerName o = true).
  { unfold unclaimed. by rewrite Hdt, Hc. }
  destruct (Reconcile_unclaimed request w o Hg Hk Hu) as (err' & -> & Hr & Ht & Hs & Ho).
  assert (Hcl : withFinalizer finalizerName o = claimed).
  { unfold withFinalizer, AddFinalizer. by rewrite Hc. }
  rewrite Hcl in *.
  split_and!; try done. by apply pass_events_app.
Qed.

Lemma engine_delete_path_in_order `{!SchemaLaws Sp St} :
  cleanup_only_logs -> delete_path_in_order finalizerName logger R.
Proof.
  intros Hd request w o t Hg Hk Hdt Ht e1 e2.
  assert (Hdel : deleting o = true).
  { unfold deleting. rewrite Hdt. cbn. by destruct (Z.eqb_spec t 0). }
  destruct (Reconcile_deleting request w o Hd Hg Hk Hdel) as (Hr & Htr & Hs & Ho).
  split_and!; try done. by apply pass_events_app.
Qed.

(** Whatever the cleanup hook is: when it fails, the pass ends there with
    its error, in the world the hook left. *)
Lemma engine_failed_cleanup_stops_pass (request : NamespacedName) (w w3 : W)
  (o copy : O) (result : Result) (e : Err) :
  (client_Get request w).1 = inl o ->
  deleting o = true ->
  processDelete o (emit (EvHook Cleanup o) (client_Get request w).2).2
    = ((copy, result, Some e), w3) ->
  R request w = ((result, Some e), w3).
Proof.
  intros Hg Hdel Eh. apply client_Get_inl in Hg as (_ & _ & Eg).
  unfold Reconcile. step Eg. rewrite Eg in Eh. cbn [snd] in Eh. cbv zeta.
  unfold deleting in Hdel. rewrite Hdel. cbn [negb andb].
  step (eq_refl : emit (EvHook Cleanup o) (emit (EvGet request None) (roundTrip w).2).2
                  = (tt, (emit (EvHook Cleanup o)
                            (emit (EvGet request None) (roundTrip w).2).2).2)).
  by step Eh.
Qed.


Lemma engine_second_pass_is_noop `{!SchemaLaws Sp St} :
  cleanup_only_logs -> calm_hook processUpdate -> settling_hook processUpdate ->
  second_pass_is_noop finalizerName R.
Proof.
  intros Hd Hcalm Hset request w o Hf Hg Hk Hu Hok.
  by apply (Reconcile_twice request w o).
Qed.

Lemma engine_failed_update_only_logged :
  quiet_hook processUpdate ->
  (forall o w, objects (processUpdate o w).2 = objects w) ->
  failed_update_only_logged finalizerName logger R processUpdate.
Proof.
  intros Hq Hfr request w o copy result e w3 Hg Hu Hdel Eh.
  pose proof (Reconcile_update request w o Hg Hu Hdel) as Er.
  rewrite Eh in Er.
  destruct (Hq o (emit (EvHook Apply o) (client_Get request w).2).2) as (hevs & Hth & Hqh).
  pose proof (Hfr o (emit (EvHook Apply o) (client_Get request w).2).2) as Hob.
  rewrite Eh in Hth, Hob. cbn [snd] in Hth, Hob.
  apply client_Get_inl in Hg as (_ & _ & Eg). rewrite Eg in Hth, Hob.
  assert (Ht : trace (R request w).2 =
               trace w ++ ([EvGet request None; EvHook Apply o] ++ hevs)
                 ++ [EvError logger e "Failed to process update" (requestKV request)]).
  { rewrite Er. cbn. rewrite Hth. cbn. by rewrite <- ?app_assoc. }
  rewrite (pass_events_app _ _ _ Ht).
  split_and!.
  - by rewrite Er.
  - by rewrite last_snoc.
  - apply Forall_app. split; [|by repeat constructor].
    repeat (apply Forall_cons; split; [done|]).
    eapply Forall_impl; [exact Hqh|]. intros x. apply quiet_touches_object.
  - rewrite Er. cbn. by rewrite Hob.
Qed.
End EngineFacts.

(** ** Secrets *)

Section SecretFacts.
Context {O : Type}.
Local Abbreviation W := (World O).

Lemma mergeMap_lookup (b c s : gmap string string) (k : string) :
  mergeMap b c s !! k = if decide (b !! k = c !! k) then s !! k else c !! k.
Proof.
  unfold mergeMap. rewrite lookup_union.
  rewrite !map_lookup_filter. cbn.
  case_decide as E.
  - destruct (c !! k) as [x|] eqn:Ec; cbn.
    + rewrite option_guard_False by (intros ?; congruence). cbn.
      destruct (s !! k) as [y|] eqn:Es; cbn; [|done].
      by rewrite option_guard_True.
    + destruct (s !! k) as [y|] eqn:Es; cbn; [|done].
      by rewrite option_guard_True.
  - destruct (c !! k) as [x|] eqn:Ec; cbn.
    + rewrite option_guard_True by done. cbn.
      destruct (s !! k) as [y|] eqn:Es; cbn; [|done].
      by rewrite option_guard_False.
    + destruct (s !! k) as [y|] eqn:Es; cbn; [|done].
      by rewrite option_guard_False.
Qed.

Lemma mergeMap_onto (b c : gmap string string) : mergeMap b c b = c.
Proof.
  apply map_eq. intros k. rewrite mergeMap_lookup. by case_decide.
Qed.

Lemma secret_Get_run (key : NamespacedName) (w : W) :
  exists r w',
    secret_Get key w = (r, w')
    /\ r = match nextFault w with
           | Some e => inr e
           | None => match secrets w !! key with
                     | Some s => inl s
                     | None => inr ErrNotFound
                     end
           end
    /\ objects w' = objects w /\ secrets w' = secrets w /\ scheme w' = scheme w
    /\ faults w' = tail (faults w) /\ entropy w' = entropy w
    /\ trace w' = trace w
         ++ [EvSecretGet key (match r with inl _ => None | inr e => Some e end)].
Proof.
  unfold secret_Get. run. do 2 eexists. split; [reflexivity|]. cbn. tauto.
Qed.

Lemma secret_Create_run (secret : Secret) (w : W) :
  exists err w',
    secret_Create secret w = (err, w')
    /\ objects w' = objects w /\ scheme w' = scheme w
    /\ faults w' = tail (faults w) /\ entropy w' = entropy w
    /\ trace w' = trace w ++ [EvSecretCreate secret err]
    /\ (err = None ->
        secrets w' = <[ObjectKey (SecretMeta secret) := secret]> (secrets w)).
Proof.
  unfold secret_Create. run.
  destruct (match faults w with [] => None | f :: _ => f end) as [e|] eqn:Ef.
  - run. do 2 eexists. split; [reflexivity|]. cbn. repeat split; done.
  - destruct (secrets w !! ObjectKey (SecretMeta secret)) as [stored|] eqn:El.
    + run. do 2 eexists. split; [reflexivity|]. cbn. repeat split; done.
    + run. do 2 eexists. split; [reflexivity|]. cbn. repeat split; done.
Qed.

Lemma secret_Patch_run (copy base : Secret) (w : W) :
  exists r err w',
    secret_Patch copy base w = ((r, err), w')
    /\ objects w' = objects w /\ scheme w' = scheme w
    /\ faults w' = tail (faults w) /\ entropy w' = entropy w
    /\ trace w' = trace w ++ [EvSecretPatch copy base err]
    /\ (err = None ->
        exists stored,
          secrets w !! ObjectKey (SecretMeta copy) = Some stored
          /\ r = applySecretPatch base copy stored
          /\ secrets w' = <[ObjectKey (SecretMeta copy) := r]> (secrets w)).
Proof.
  unfold secret_Patch. run.
  destruct (match faults w with [] => None | f :: _ => f end) as [e|] eqn:Ef.
  - run. do 3 eexists. split; [reflexivity|]. cbn. repeat split; done.
  - destruct (secrets w !! ObjectKey (SecretMeta copy)) as [stored|] eqn:El.
    + run. do 3 eexists. split; [reflexivity|]. cbn. repeat split; try done.
      intros _. by exists stored.
    + run. do 3 eexists. split; [reflexivity|]. cbn. repeat split; done.
Qed.

Lemma mutate_ok (f : Secret -> Secret * error) (key : NamespacedName)
  (obj obj' : Secret) :
  mutate f key obj = (obj', None) ->
  f obj = (obj', None) /\ ObjectKey (SecretMeta obj') = key.
Proof.
  unfold mutate. destruct (f obj) as [o' [e|]]; [done|].
  case_decide; [|done]. intros E. by simplify_eq.
Qed.

(** [CreateOrPatch] touches secrets only, and its events are quiet. *)
Lemma CreateOrPatch_frame (obj : Secret) (f : Secret -> Secret * error) (w : W) :
  objects (CreateOrPatch obj f w).2 = objects w
  /\ scheme (CreateOrPatch obj f w).2 = scheme w
  /\ entropy (CreateOrPatch obj f w).2 = entropy w
  /\ exists evs,
       trace (CreateOrPatch obj f w).2 = trace w ++ evs
       /\ Forall (fun e => quiet e = true) evs.
Proof.
  unfold CreateOrPatch.
  destruct (secret_Get_run (ObjectKey (SecretMeta obj)) w)
    as (got & w1 & Eg & _ & Ho1 & _ & Hc1 & _ & He1 & Ht1).
  step Eg. destruct got as [before|e].
  - destruct (mutate f _ before) as [obj' [e|]].
    + run. repeat split; try done. eexists. split; [exact Ht1|]. by repeat constructor.
    + case_decide.
      * run. repeat split; try done. eexists. split; [exact Ht1|]. by repeat constructor.
      * destruct (secret_Patch_run obj' before w1)
          as (r & err & w2 & Ep & Ho2 & Hc2 & _ & He2 & Ht2 & _).
        step Ep.
        destruct err; run; (repeat split; [congruence..|]);
          (eexists; split; [rewrite Ht2, Ht1; by rewrite <- ?app_assoc|]);
          by repeat constructor.
  - destruct (negb (IsNotFound (Some e))).
    + run. repeat split; try done. eexists. split; [exact Ht1|]. by repeat constructor.
    + destruct (mutate f _ obj) as [obj' [e'|]].
      * run. repeat split; try done. eexists. split; [exact Ht1|]. by repeat constructor.
      * destruct (secret_Create_run obj' w1) as (err & w2 & Ec & Ho2 & Hc2 & _ & He2 & Ht2 & _).
        step Ec.
        destruct err; run; (repeat split; [congruence..|]);
          (eexists; split; [rewrite Ht2, Ht1; by rewrite <- ?app_assoc|]);
          by repeat constructor.
Qed.

(** When [CreateOrPatch] succeeds, the secret it returns is the stored one,
    under the key it was asked for, and it is what the mutate function made
    of the blank or of the fetched secret, as patched into the store. *)
Lemma CreateOrPatch_ok (obj : Secret) (f : Secret -> Secret * error) (w w' : W)
  (sec : Secret) (op : OperationResult) :
  CreateOrPatch obj f w = ((sec, op, None), w') ->
  exists src sec',
    f src = (sec', None)
    /\ ObjectKey (SecretMeta sec') = ObjectKey (SecretMeta obj)
    /\ (src = obj \/ secrets w !! ObjectKey (SecretMeta obj) = Some src)
    /\ (sec = sec' \/ sec = applySecretPatch src sec' src)
    /\ secrets w' = <[ObjectKey (SecretMeta obj) := sec]> (secrets w).
Proof.
  unfold CreateOrPatch.
  destruct (secret_Get_run (ObjectKey (SecretMeta obj)) w)
    as (got & w1 & Eg & Hgot & _ & Hs1 & _ & _ & _ & _).
  step Eg. destruct got as [before|e].
  - assert (Hl : secrets w !! ObjectKey (SecretMeta obj) = Some before).
    { destruct (nextFault w); [done|].
      destruct (secrets w !! ObjectKey (SecretMeta obj)); by simplify_eq. }
    destruct (mutate f _ before) as [obj' [e|]] eqn:Em; [by run|].
    apply mutate_ok in Em as [Ef Hk].
    case_decide as Eb.
    + run. intros [= ? ? ?]. subst. exists sec, sec.
      split_and!; [done|done|by right|by left|].
      rewrite Hs1. symmetry. by apply insert_id.
    + destruct (secret_Patch_run obj' before w1)
        as (r & err & w2 & Ep & _ & _ & _ & _ & _ & Hok).
      step Ep. destruct err as [e|]; [by run|]. run. intros [= ? ? ?]. subst.
      destruct (Hok eq_refl) as (stored & Hst & Hr & Hs2).
      rewrite Hk, Hs1, Hl in Hst. injection Hst as <-.
      exists before, obj'.
      split_and!; [done|done|by right|by right|].
      by rewrite Hs2, Hk, Hs1.
  - destruct (negb (IsNotFound (Some e))); [by run|].
    destruct (mutate f _ obj) as [obj' [e'|]] eqn:Em; [by run|].
    apply mutate_ok in Em as [Ef Hk].
    destruct (secret_Create_run obj' w1) as (err & w2 & Ec & _ & _ & _ & _ & _ & Hok).
    step Ec. destruct err as [e'|]; [by run|]. run. intros [= ? ? ?]. subst.
    exists obj, sec.
    split_and!; [done|done|by left|by left|].
    by rewrite (Hok eq_refl), Hk, Hs1.
Qed.

(** On a stored secret that the mutate function leaves as it is,
    [CreateOrPatch] only reads. *)
Lemma CreateOrPatch_settled (obj : Secret) (f : Secret -> Secret * error) (w : W)
  (s : Secret) :
  nextFault w = None ->
  secrets w !! ObjectKey (SecretMeta obj) = Some s ->
  f s = (s, None) ->
  ObjectKey (SecretMeta s) = ObjectKey (SecretMeta obj) ->
  CreateOrPatch obj f w
  = ((s, OperationResultNone, None),
     (emit (EvSecretGet (ObjectKey (SecretMeta obj)) None) (roundTrip w).2).2).
Proof.
  intros Hf Hl Hfs Hk. unfold CreateOrPatch, secret_Get, mutate. run.
  unfold nextFault in Hf. rewrite Hf, Hl. run. rewrite Hfs.
  rewrite decide_True by done. rewrite decide_True by done. reflexivity.
Qed.

Lemma CreateOrPatch_faults (obj : Secret) (f : Secret -> Secret * error) (w : W) :
  faults w = [] -> faults (CreateOrPatch obj f w).2 = [].
Proof.
  intros Hf. unfold CreateOrPatch.
  destruct (secret_Get_run (ObjectKey (SecretMeta obj)) w)
    as (got & w1 & Eg & _ & _ & _ & _ & Hf1 & _ & _).
  step Eg. rewrite Hf in Hf1. cbn in Hf1. destruct got as [before|e].
  - destruct (mutate f _ before) as [obj' [e|]]; [by run|].
    case_decide; [by run|].
    destruct (secret_Patch_run obj' before w1) as (r & err & w2 & Ep & _ & _ & Hf2 & _).
    step Ep. rewrite Hf1 in Hf2. by destruct err; run.
  - destruct (negb (IsNotFound (Some e))); [by run|].
    destruct (mutate f _ obj) as [obj' [e'|]]; [by run|].
    destruct (secret_Create_run obj' w1) as (err & w2 & Ec & _ & _ & Hf2 & _).
    step Ec. rewrite Hf1 in Hf2. by destruct err; run.
Qed.

(** How the secret of a successful [CreateOrPatch] came to be in the store:
    created, patched, or found as it should be. *)
Lemma CreateOrPatch_how (obj : Secret) (f : Secret -> Secret * error) (w w' : W)
  (sec : Secret) (op : OperationResult) :
  CreateOrPatch obj f w = ((sec, op, None), w') ->
  exists evs,
    trace w' = trace w ++ evs
    /\ (EvSecretCreate sec None ∈ evs
        \/ (exists copy base,
              EvSecretPatch copy base None ∈ evs /\ f base = (copy, None)
              /\ sec = applySecretPatch base copy base)
        \/ secrets w !! ObjectKey (SecretMeta obj) = Some sec).
Proof.
  unfold CreateOrPatch.
  destruct (secret_Get_run (ObjectKey (SecretMeta obj)) w)
    as (got & w1 & Eg & Hgot & _ & Hs1 & _ & _ & _ & Ht1).
  step Eg. destruct got as [before|e].
  - assert (Hl : secrets w !! ObjectKey (SecretMeta obj) = Some before).
    { destruct (nextFault w); [done|].
      destruct (secrets w !! ObjectKey (SecretMeta obj)); by simplify_eq. }
    destruct (mutate f _ before) as [obj' [e|]] eqn:Em; [by run|].
    apply mutate_ok in Em as [Ef Hk].
    case_decide as Eb.
    + run. intros [= ? ? ?]. subst. eexists. split; [exact Ht1|]. by right; right.
    + destruct (secret_Patch_run obj' before w1)
        as (r & err & w2 & Ep & _ & _ & _ & _ & Ht2 & Hok).
      step Ep. destruct err as [e|]; [by run|]. run. intros [= ? ? ?]. subst.
      destruct (Hok eq_refl) as (stored & Hst & Hr & Hs2).
      rewrite Hk, Hs1, Hl in Hst. injection Hst as <-.
      eexists. split; [rewrite Ht2, Ht1; by rewrite <- ?app_assoc|].
      right; left. exists obj', before. split_and!; [|done|done].
      apply elem_of_cons. right. apply list_elem_of_here.
  - destruct (negb (IsNotFound (Some e))); [by run|].
    destruct (mutate f _ obj) as [obj' [e'|]] eqn:Em; [by run|].
    destruct (secret_Create_run obj' w1) as (err & w2 & Ec & _ & _ & _ & _ & Ht2 & _).
    step Ec. destruct err as [e'|]; [by run|]. run. intros [= ? ? ?]. subst.
    eexists. split; [rewrite Ht2, Ht1; by rewrite <- ?app_assoc|].
    left. apply elem_of_cons. right. apply list_elem_of_here.
Qed.
End SecretFacts.

(** ** The hooks of the two kinds *)

Lemma referSameObject_refl (ref : OwnerReference) (gv : GroupVersion) :
  ParseGroupVersion (RefAPIVersion ref) = inl gv -> referSameObject ref ref = true.
Proof.
  intros E. unfold referSameObject. rewrite E. by rewrite !bool_decide_eq_true_2.
Qed.

Lemma upsertOwnerRef_idem (ref : OwnerReference) (owners : list OwnerReference) :
  referSameObject ref ref = true ->
  upsertOwnerRef ref (upsertOwnerRef ref owners) = upsertOwnerRef ref owners.
Proof.
  intros Hrefl.
  induction owners as [|o owners IH]; cbn.
  - by rewrite Hrefl.
  - destruct (referSameObject o ref) eqn:E; cbn.
    + by rewrite Hrefl.
    + by rewrite E, IH.
Qed.

Lemma FindStatusCondition_app_None (cs : list Condition) (c : Condition) (t : string) :
  FindStatusCondition cs t = None ->
  FindStatusCondition (cs ++ [c]) t = if decide (CondType c = t) then Some c else None.
Proof.
  induction cs as [|x cs IH]; cbn; [done|].
  destruct (decide (CondType x = t)); [done|]. exact IH.
Qed.

Lemma FindStatusCondition_replace (now : Z) (c : Condition) (cs : list Condition) :
  is_Some (FindStatusCondition cs (CondType c)) ->
  FindStatusCondition (replaceCondition now c cs) (CondType c)
  = updateCondition now c <$> FindStatusCondition cs (CondType c).
Proof.
  induction cs as [|x cs IH]; cbn; [by intros [? ?]|].
  destruct (decide (CondType x = CondType c)) as [E|E]; cbn.
  - intros _. rewrite decide_True; [done|].
    unfold updateCondition. by destruct (decide (CondStatus x = CondStatus c)).
  - intros Hs. rewrite decide_False by done. by apply IH.
Qed.

Lemma updateCondition_idem (t1 t2 : Z) (c x : Condition) :
  updateCondition t2 c (updateCondition t1 c x) = updateCondition t1 c x.
Proof.
  unfold updateCondition. destruct (decide (CondStatus x = CondStatus c)) as [E|E]; cbn.
  - by rewrite decide_True.
  - by rewrite decide_True.
Qed.

Lemma replaceCondition_idem (t1 t2 : Z) (c : Condition) (cs : list Condition) :
  replaceCondition t2 c (replaceCondition t1 c cs) = replaceCondition t1 c cs.
Proof.
  induction cs as [|x cs IH]; cbn; [done|].
  destruct (decide (CondType x = CondType c)) as [E|E]; cbn.
  - rewrite decide_True.
    + by rewrite updateCondition_idem.
    + unfold updateCondition. by destruct (decide (CondStatus x = CondStatus c)).
  - by rewrite decide_False, IH.
Qed.

Lemma replaceCondition_absent (t : Z) (c : Condition) (cs : list Condition) :
  FindStatusCondition cs (CondType c) = None -> replaceCondition t c cs = cs.
Proof.
  induction cs as [|x cs IH]; cbn; [done|].
  destruct (decide (CondType x = CondType c)); [done|].
  intros E. by rewrite IH.
Qed.

(** Setting a condition again, at any later time, changes nothing. *)
Lemma SetStatusCondition_idem (t1 t2 : Z) (cs : list Condition) (c : Condition) :
  SetStatusCondition t2 (SetStatusCondition t1 cs c) c = SetStatusCondition t1 cs c.
Proof.
  unfold SetStatusCondition at 2 3.
  destruct (FindStatusCondition cs (CondType c)) as [x|] eqn:E.
  - unfold SetStatusCondition.
    rewrite FindStatusCondition_replace by (by rewrite E). rewrite E. cbn.
    apply replaceCondition_idem.
  - unfold SetStatusCondition.
    rewrite (FindStatusCondition_app_None _ _ _ E). cbn. rewrite decide_True by done.
    induction cs as [|x cs IH]; cbn.
    + rewrite decide_True by done. unfold updateCondition. cbn.
      by rewrite decide_True.
    + cbn in E. destruct (decide (CondType x = CondType c)); [done|].
      by rewrite IH.
Qed.

Lemma FindStatusCondition_elem (cs : list Condition) (t : string) (x : Condition) :
  FindStatusCondition cs t = Some x -> x ∈ cs /\ CondType x = t.
Proof.
  induction cs as [|y cs IH]; cbn; [done|].
  destruct (decide (CondType y = t)) as [E|E].
  - intros [= <-]. split; [apply list_elem_of_here|done].
  - intros Hx. destruct (IH Hx) as [Hin Ht]. split; [by apply list_elem_of_further|done].
Qed.

(** After [SetStatusCondition] the list holds a condition of the new
    condition's type and status. *)
Lemma SetStatusCondition_holds (t : Z) (cs : list Condition) (c : Condition) :
  exists x, x ∈ SetStatusCondition t cs c
            /\ CondType x = CondType c /\ CondStatus x = CondStatus c.
Proof.
  unfold SetStatusCondition.
  destruct (FindStatusCondition cs (CondType c)) as [y|] eqn:E.
  - pose proof (FindStatusCondition_replace t c cs) as Hr.
    rewrite E in Hr. specialize (Hr (ltac:(by eexists))). cbn in Hr.
    apply FindStatusCondition_elem in Hr as [Hin Ht].
    eexists. split; [exact Hin|]. split; [done|].
    unfold updateCondition. by destruct (decide (CondStatus y = CondStatus c)).
  - eexists. split; [apply elem_of_app; right; apply list_elem_of_here|]. done.
Qed.

Lemma encodeHex_nonempty_append (s t : string) : s +:+ "-" +:+ t <> "".
Proof. induction s; cbn; done. Qed.

Lemma UUID_String_nonempty (u : list N) : UUID_String u <> "".
Proof. unfold UUID_String. apply encodeHex_nonempty_append. Qed.

Module AllocationFacts.
Import AllocationReconciler.

#[global] Instance allocation_schema_laws
  : SchemaLaws NodeAllocationRequestSpec NodeAllocationRequestStatus.
Proof.
  split.
  - intros b [id [a c] cs]. cbn. unfold mergeAllocationStatus, mergeLeaf. cbn.
    by rewrite !decide_True.
  - intros [id [a c] cs] [id' [a' c'] cs']. cbn.
    unfold mergeAllocationStatus, mergeLeaf. cbn.
    repeat case_decide; by simplify_eq.
Qed.

Lemma allocation_processDelete_only_logs : cleanup_only_logs logger processDelete.
Proof. intros o w. reflexivity. Qed.



(** [processUpdate], one step at a time. *)
Lemma allocation_processUpdate_unfold (object : NodeAllocationRequest) (w : W) :
  processUpdate object w =
    let w0 := (emit (EvInfo logger "Fulfilling request" (fulfillKV object)) w).2 in
    let '(object1, w1) :=
      if decide (NodeID (Status object) = "")
      then (set_NodeID (uuid_NewString w0).1 object, (uuid_NewString w0).2)
      else (object, w0) in
    let '((secret, _, err), w2) :=
      CreateOrPatch (blankSecret object1) (mutateSecret object1 (scheme w1)) w1 in
    match err with
    | Some e => ((object1, zeroResult, Some e), w2)
    | None =>
        let w3 :=
          (emit (EvInfo logger "Created BMC credentials secret"
                   [("namespace", LogString (Namespace (SecretMeta secret)));
                    ("name", LogString (Name (SecretMeta secret)))]) w2).2 in
        let object2 :=
          set_BMC {| Address := "https://mybmc.com";
                     CredentialsName := Name (SecretMeta secret) |} object1 in
        let object3 :=
          set_Conditions
            (SetStatusCondition (now w3) (Conditions (Status object2)) fulfilled)
            object2 in
        ((object3, zeroResult, None),
         (emit (EvInfo logger "Fulfilled request" (fulfillKV object3)) w3).2)
    end.
Proof.
  unfold processUpdate.
  step (eq_refl : logger_Info logger "Fulfilling request" (fulfillKV object) w
                  = (tt, (emit (EvInfo logger "Fulfilling request" (fulfillKV object)) w).2)).
  cbv zeta.
  destruct (decide (NodeID (Status object) = "")) as [E|E].
  - unfold mbind at 1, M_bind at 1. unfold mbind at 1, M_bind at 1.
    destruct (uuid_NewString _) as [id w1]. cbn [fst snd mret M_ret].
    step (eq_refl : client_Scheme w1 = (scheme w1, w1)).
    unfold blankSecret.
    destruct (CreateOrPatch _ _ w1) as [[[secret op] err] w2] eqn:Ec.
    step Ec. by destruct err.
  - unfold mbind at 1, M_bind at 1. cbn [fst snd mret M_ret].
    step (eq_refl : client_Scheme
             (emit (EvInfo logger "Fulfilling request" (fulfillKV object)) w).2
           = (scheme (emit (EvInfo logger "Fulfilling request" (fulfillKV object)) w).2,
              (emit (EvInfo logger "Fulfilling request" (fulfillKV object)) w).2)).
    unfold blankSecret.
    destruct (CreateOrPatch _ _ _) as [[[secret op] err] w2] eqn:Ec.
    step Ec. by destruct err.
Qed.



Lemma allocation_credentials_idem (data : gmap string string) :
  credentials (credentials data) = credentials data.
Proof.
  unfold credentials.
  rewrite (insert_id _ "username" "myuser").
  - by rewrite insert_insert_eq.
  - rewrite lookup_insert_ne by done. by rewrite lookup_insert_eq.
Qed.

(** What the mutate function makes of a secret, when it succeeds. *)
Lemma allocation_mutateSecret_ok (object : NodeAllocationRequest) (sch : list string)
  (src sec : Secret) :
  mutateSecret object sch src = (sec, None) ->
  sec = {| SecretMeta :=
             set_OwnerReferences
               (upsertOwnerRef (ownerRef object) (OwnerReferences (SecretMeta src)))
               (SecretMeta src);
           Data := Some (credentials (default ∅ (Data src))) |}.
Proof.
  unfold mutateSecret, SetOwnerReference.
  destruct (validateOwner _ _); [done|].
  destruct (bool_decide _); [|done]. by intros [= <-].
Qed.

(** The mutate function leaves its own result as it is. *)
Lemma allocation_mutateSecret_fix (object object' : NodeAllocationRequest) (sch : list string)
  (src sec : Secret) :
  ObjMeta object' = ObjMeta object ->
  mutateSecret object sch src = (sec, None) ->
  mutateSecret object' sch sec = (sec, None).
Proof.
  intros Hm Hs. pose proof (allocation_mutateSecret_ok _ _ _ _ Hs) as ->.
  revert Hs. unfold mutateSecret, SetOwnerReference. rewrite Hm.
  unfold validateOwner. cbn.
  repeat case_decide; try done; destruct (bool_decide _); try done; intros _;
    cbn; unfold set_OwnerReferences; cbn;
    change (mkOwnerReference pluginapi_GroupVersion "NodeAllocationRequest"
              (Name (ObjMeta object)) (UID (ObjMeta object))) with (ownerRef object);
    (rewrite upsertOwnerRef_idem
       by (eapply referSameObject_refl; vm_compute; reflexivity));
    change (<["password":="mypass"]> (<["username":="myuser"]> ?d)) with (credentials d);
    by rewrite allocation_credentials_idem.
Qed.

(** Patching the fetched secret with what the mutate function made of it
    installs exactly that. *)
Lemma allocation_applySecretPatch_mutate (object : NodeAllocationRequest) (sch : list string)
  (src sec : Secret) :
  mutateSecret object sch src = (sec, None) -> applySecretPatch src sec src = sec.
Proof.
  intros Hs. apply allocation_mutateSecret_ok in Hs as ->.
  destruct src as [[ns n u d f r] data]. unfold applySecretPatch, mergeLeaf. cbn.
  f_equal.
  - unfold set_OwnerReferences. cbn. f_equal; by repeat case_decide.
  - case_decide as E; [done|]. by rewrite mergeMap_onto.
Qed.


Lemma allocation_uuid_NewString_frame (w : W) :
  objects (uuid_NewString w).2 = objects w
  /\ secrets (uuid_NewString w).2 = secrets w
  /\ scheme (uuid_NewString w).2 = scheme w
  /\ faults (uuid_NewString w).2 = faults w
  /\ now (uuid_NewString w).2 = now w
  /\ trace (uuid_NewString w).2 = trace w
  /\ (uuid_NewString w).1 <> "".
Proof.
  unfold uuid_NewString, uuid_NewRandom, rand_Read. run.
  split_and!; try done. apply UUID_String_nonempty.
Qed.

Lemma allocation_processUpdate_quiet : quiet_hook processUpdate.
Proof.
  intros object w. rewrite allocation_processUpdate_unfold. cbv zeta.
  set (w0 := (emit _ w).2).
  assert (Ht0 : trace w0 = trace w ++ [EvInfo logger "Fulfilling request" (fulfillKV object)])
    by done.
  destruct (decide (NodeID (Status object) = "")) as [E|E].
  - destruct (allocation_uuid_NewString_frame w0) as (_ & _ & _ & _ & _ & Ht1 & _).
    destruct (CreateOrPatch_frame (blankSecret (set_NodeID (uuid_NewString w0).1 object))
                (mutateSecret (set_NodeID (uuid_NewString w0).1 object)
                   (scheme (uuid_NewString w0).2)) (uuid_NewString w0).2)
      as (_ & _ & _ & evs & Ht2 & Hq).
    destruct (CreateOrPatch _ _ _) as [[[secret op] [e|]] w2]; cbn [snd] in Ht2; cbn.
    + eexists. split; [rewrite Ht2, Ht1, Ht0; by rewrite <- ?app_assoc|].
      constructor; [done|]. done.
    + eexists. split; [rewrite Ht2, Ht1, Ht0; by rewrite <- ?app_assoc|].
      constructor; [done|]. apply Forall_app. split; [done|]. by repeat constructor.
  - destruct (CreateOrPatch_frame (blankSecret object) (mutateSecret object (scheme w0)) w0)
      as (_ & _ & _ & evs & Ht2 & Hq).
    destruct (CreateOrPatch _ _ _) as [[[secret op] [e|]] w2]; cbn [snd] in Ht2; cbn.
    + eexists. split; [rewrite Ht2, Ht0; by rewrite <- ?app_assoc|].
      constructor; [done|]. done.
    + eexists. split; [rewrite Ht2, Ht0; by rewrite <- ?app_assoc|].
      constructor; [done|]. apply Forall_app. split; [done|]. by repeat constructor.
Qed.

(** [processUpdate] leaves the stored objects and the scheme alone, and
    changes nothing of the working copy but its status. *)
Lemma allocation_processUpdate_frame (object : NodeAllocationRequest) (w : W) :
  objects (processUpdate object w).2 = objects w
  /\ scheme (processUpdate object w).2 = scheme w
  /\ ObjMeta (processUpdate object w).1.1.1 = ObjMeta object
  /\ Spec (processUpdate object w).1.1.1 = Spec object
  /\ (processUpdate object w).1.1.2 = zeroResult.
Proof.
  rewrite allocation_processUpdate_unfold. cbv zeta.
  set (w0 := (emit _ w).2).
  assert (Ho0 : objects w0 = objects w) by done.
  assert (Hc0 : scheme w0 = scheme w) by done.
  destruct (decide (NodeID (Status object) = "")) as [E|E].
  - destruct (allocation_uuid_NewString_frame w0) as (Ho1 & _ & Hc1 & _ & _ & _ & _).
    destruct (CreateOrPatch_frame (blankSecret (set_NodeID (uuid_NewString w0).1 object))
                (mutateSecret (set_NodeID (uuid_NewString w0).1 object)
                   (scheme (uuid_NewString w0).2)) (uuid_NewString w0).2)
      as (Ho2 & Hc2 & _ & _).
    destruct (CreateOrPatch _ _ _) as [[[secret op] [e|]] w2];
      cbn [snd] in Ho2, Hc2; cbn; split_and!; congruence.
  - destruct (CreateOrPatch_frame (blankSecret object) (mutateSecret object (scheme w0)) w0)
      as (Ho2 & Hc2 & _ & _).
    destruct (CreateOrPatch _ _ _) as [[[secret op] [e|]] w2];
      cbn [snd] in Ho2, Hc2; cbn; split_and!; congruence.
Qed.

(** An identifier that is there stays, and no random byte is drawn. *)
Lemma allocation_processUpdate_keeps_NodeID (object : NodeAllocationRequest) (w : W) :
  NodeID (Status object) <> "" ->
  NodeID (Status (processUpdate object w).1.1.1) = NodeID (Status object)
  /\ entropy (processUpdate object w).2 = entropy w.
Proof.
  intros Hid. rewrite allocation_processUpdate_unfold. cbv zeta.
  set (w0 := (emit _ w).2).
  rewrite decide_False by done.
  destruct (CreateOrPatch_frame (blankSecret object) (mutateSecret object (scheme w0)) w0)
    as (_ & _ & He & _).
  destruct (CreateOrPatch _ _ _) as [[[secret op] [e|]] w2]; cbn [snd] in He; cbn; done.
Qed.

(** A successful [processUpdate]: the status it leaves in the working copy
    and the secret it leaves in the store. *)
Lemma allocation_processUpdate_ok (object object' : NodeAllocationRequest) (result : Result)
  (w w' : W) :
  processUpdate object w = ((object', result, None), w') ->
  NodeID (Status object')
    = (if decide (NodeID (Status object) = "") then (uuid_NewString w).1
       else NodeID (Status object))
  /\ NodeID (Status object') <> ""
  /\ StatusBMC (Status object')
     = {| Address := "https://mybmc.com";
          CredentialsName := Name (ObjMeta object) +:+ "-bmc" |}
  /\ Conditions (Status object')
     = SetStatusCondition (now w') (Conditions (Status object)) fulfilled
  /\ exists sec,
       secrets w' = <[bmcKey object := sec]> (secrets w)
       /\ ObjectKey (SecretMeta sec) = bmcKey object
       /\ mutateSecret object (scheme w) sec = (sec, None)
       /\ exists data, Data sec = Some (credentials data).
Proof.
  rewrite allocation_processUpdate_unfold. cbv zeta.
  set (w0 := (emit _ w).2).
  destruct (decide (NodeID (Status object) = "")) as [E|E].
  - destruct (allocation_uuid_NewString_frame w0) as (_ & Hs1 & Hc1 & _ & Hn1 & _ & Hne).
    set (object1 := set_NodeID (uuid_NewString w0).1 object) in *.
    destruct (CreateOrPatch _ _ _) as [[[secret op] [e|]] w2] eqn:Ec; [done|].
    intros [= <- <- <-]. cbn.
    apply CreateOrPatch_ok in Ec as (src & sec' & Hf & Hk & Hsrc & Hsec & Hs2).
    assert (secret = sec') as ->.
    { destruct Hsec as [->| ->]; [done|]. by eapply allocation_applySecretPatch_mutate. }
    split_and!; try done.
    + cbn in Hk. unfold ObjectKey in Hk. by injection Hk as _ ->.
    + exists sec'. split_and!.
      * by rewrite Hs2, Hs1.
      * exact Hk.
      * rewrite Hc1 in Hf. eapply allocation_mutateSecret_fix; [|exact Hf]. done.
      * apply allocation_mutateSecret_ok in Hf as ->. by eexists.
  - destruct (CreateOrPatch _ _ _) as [[[secret op] [e|]] w2] eqn:Ec; [done|].
    intros [= <- <- <-]. cbn.
    apply CreateOrPatch_ok in Ec as (src & sec' & Hf & Hk & Hsrc & Hsec & Hs2).
    assert (secret = sec') as ->.
    { destruct Hsec as [->| ->]; [done|]. by eapply allocation_applySecretPatch_mutate. }
    split_and!; try done.
    + cbn in Hk. unfold ObjectKey in Hk. by injection Hk as _ ->.
    + exists sec'. split_and!.
      * by rewrite Hs2.
      * exact Hk.
      * eapply allocation_mutateSecret_fix; [|exact Hf]. done.
      * apply allocation_mutateSecret_ok in Hf as ->. by eexists.
Qed.

Lemma allocation_processUpdate_calm : calm_hook processUpdate.
Proof.
  intros object w. split; [apply allocation_processUpdate_frame|].
  intros Hf. rewrite allocation_processUpdate_unfold. cbv zeta.
  set (w0 := (emit _ w).2).
  assert (Hf0 : faults w0 = []) by done.
  destruct (decide (NodeID (Status object) = "")) as [E|E].
  - destruct (allocation_uuid_NewString_frame w0) as (_ & _ & _ & Hf1 & _).
    rewrite Hf0 in Hf1.
    pose proof (CreateOrPatch_faults
                  (blankSecret (set_NodeID (uuid_NewString w0).1 object))
                  (mutateSecret (set_NodeID (uuid_NewString w0).1 object)
                     (scheme (uuid_NewString w0).2)) (uuid_NewString w0).2 Hf1) as Hf2.
    destruct (CreateOrPatch _ _ _) as [[[secret op] [e|]] w2]; cbn [snd] in Hf2; by cbn.
  - pose proof (CreateOrPatch_faults (blankSecret object)
                  (mutateSecret object (scheme w0)) w0 Hf0) as Hf2.
    destruct (CreateOrPatch _ _ _) as [[[secret op] [e|]] w2]; cbn [snd] in Hf2; by cbn.
Qed.

Lemma allocation_processUpdate_settles : settling_hook processUpdate.
Proof.
  intros o w o1 r w1 Hf Eh.
  destruct (allocation_processUpdate_frame o w) as (Ho & Hsch & Hm & Hsp & _).
  rewrite Eh in Ho, Hsch, Hm, Hsp. cbn in Ho, Hsch, Hm, Hsp.
  destruct (allocation_processUpdate_ok _ _ _ _ _ Eh)
    as (_ & Hid & Hbmc & Hcs & sec & Hs1 & Hk & Hfix & _).
  split_and!; try done.
  intros w2 Hf2 Hs2 Hsch2.
  rewrite allocation_processUpdate_unfold. cbv zeta.
  set (w0 := (emit _ w2).2).
  rewrite decide_False by done.
  assert (Hkey : ObjectKey (SecretMeta (blankSecret o1)) = bmcKey o).
  { unfold blankSecret, bmcKey, ObjectKey. cbn. by rewrite Hm. }
  rewrite (CreateOrPatch_settled (blankSecret o1) (mutateSecret o1 (scheme w0)) w0 sec).
  - assert (Hname : Name (SecretMeta sec) = Name (ObjMeta o) +:+ "-bmc").
    { unfold ObjectKey, bmcKey in Hk. by injection Hk. }
    assert (Hsame : forall t,
      set_Conditions
        (SetStatusCondition t
           (Conditions
              (Status
                 (set_BMC {| Address := "https://mybmc.com";
                             CredentialsName := Name (SecretMeta sec) |} o1)))
           fulfilled)
        (set_BMC {| Address := "https://mybmc.com";
                    CredentialsName := Name (SecretMeta sec) |} o1) = o1).
    { intros t. destruct o1 as [m sp [id bmc cs]]. cbn in *.
      unfold set_Conditions, set_BMC, set_Status. cbn.
      rewrite Hname, <- Hbmc, Hcs. by rewrite SetStatusCondition_idem. }
    cbn iota beta. cbv zeta. rewrite Hsame.
    do 3 eexists. split; [reflexivity|].
    split_and!.
    + done.
    + done.
    + cbn. rewrite <- ?app_assoc. reflexivity.
    + by repeat constructor.
  - by apply nextFault_nil.
  - rewrite Hkey. subst w0. cbn. by rewrite Hs2, Hs1, lookup_insert_eq.
  - eapply allocation_mutateSecret_fix; [exact Hm|].
    replace (scheme w0) with (scheme w); [done|]. subst w0. cbn. congruence.
  - by rewrite Hkey.
Qed.

(** The credentials secret of a successful [processUpdate] is in the store
    because the pass created it, because the pass patched it, or because it
    was there already as it should be. *)
Lemma allocation_processUpdate_secret (object object' : NodeAllocationRequest) (result : Result)
  (w w' : W) :
  processUpdate object w = ((object', result, None), w') ->
  exists sec,
    secrets w' !! bmcKey object = Some sec
    /\ (EvSecretCreate sec None ∈ pass_events (processUpdate object) w
        \/ (exists base, EvSecretPatch sec base None ∈ pass_events (processUpdate object) w)
        \/ secrets w !! bmcKey object = Some sec).
Proof.
  intros Eh.
  destruct (allocation_processUpdate_ok _ _ _ _ _ Eh) as (_ & _ & _ & _ & sec & Hs & _ & _ & _).
  exists sec. split; [by rewrite Hs, lookup_insert_eq|].
  assert (Hins : secrets w' !! bmcKey object = Some sec)
    by (by rewrite Hs, lookup_insert_eq).
  unfold pass_events. rewrite Eh. cbn [snd].
  revert Eh. rewrite allocation_processUpdate_unfold. cbv zeta.
  set (w0 := (emit _ w).2).
  assert (Ht0 : trace w0 = trace w ++ [EvInfo logger "Fulfilling request" (fulfillKV object)])
    by done.
  assert (Hs0 : secrets w0 = secrets w) by done.
  assert (Hgen : forall object1 w1 secret op w2,
            ObjMeta object1 = ObjMeta object ->
            trace w1 = trace w0 -> secrets w1 = secrets w0 ->
            CreateOrPatch (blankSecret object1) (mutateSecret object1 (scheme w1)) w1
              = ((secret, op, None), w2) ->
            secrets w2 !! bmcKey object = Some sec ->
            forall tl,
            EvSecretCreate sec None ∈ drop (length (trace w)) (trace w2 ++ tl)
            \/ (exists base,
                  EvSecretPatch sec base None ∈ drop (length (trace w)) (trace w2 ++ tl))
            \/ secrets w !! bmcKey object = Some sec).
  { intros object1 w1 secret op w2 Hm Ht1 Hs1 Ec Hl tl.
    pose proof (CreateOrPatch_ok _ _ _ _ _ _ Ec) as (src & sec' & Hf & Hk & _ & Hsec & Hs2).
    assert (secret = sec') as <-.
    { destruct Hsec as [->| ->]; [done|]. by eapply allocation_applySecretPatch_mutate. }
    assert (Hkey : ObjectKey (SecretMeta (blankSecret object1)) = bmcKey object).
    { unfold blankSecret, bmcKey, ObjectKey. cbn. by rewrite Hm. }
    rewrite Hs2, Hkey, lookup_insert_eq in Hl. injection Hl as ->.
    apply CreateOrPatch_how in Ec as (evs & Ht2 & Hhow).
    rewrite Ht2, Ht1, Ht0. rewrite <- !app_assoc. rewrite drop_app_length.
    destruct Hhow as [Hc|[(copy & base & Hin & Hfb & Hsb)|Hthere]].
    - left. apply elem_of_cons. right. apply elem_of_app. by left.
    - right; left. exists base.
      assert (sec = copy) as ->.
      { rewrite Hsb. by eapply allocation_applySecretPatch_mutate. }
      apply elem_of_cons. right. apply elem_of_app. by left.
    - right; right. by rewrite Hkey, Hs1, Hs0 in Hthere. }
  destruct (decide (NodeID (Status object) = "")) as [E|E].
  - destruct (allocation_uuid_NewString_frame w0) as (_ & Hs1 & _ & _ & _ & Ht1 & _).
    destruct (CreateOrPatch _ _ _) as [[[secret op] [e|]] w2] eqn:Ec; [done|].
    intros [= <- <- <-]. cbn [trace emit snd]. cbn [secrets emit snd] in Hins.
    rewrite <- app_assoc.
    by eapply (Hgen _ _ _ _ _ eq_refl Ht1 Hs1 Ec).
  - destruct (CreateOrPatch _ _ _) as [[[secret op] [e|]] w2] eqn:Ec; [done|].
    intros [= <- <- <-]. cbn [trace emit snd]. cbn [secrets emit snd] in Hins.
    rewrite <- app_assoc.
    by eapply (Hgen object w0 _ _ _ eq_refl eq_refl eq_refl Ec).
Qed.
End AllocationFacts.

Module ReleaseFacts.
Import ReleaseReconciler.

#[global] Instance release_schema_laws : SchemaLaws NodeReleaseRequestSpec NodeReleaseRequestStatus.
Proof.
  split.
  - intros b [cs]. unfold mergeStatus. cbn. unfold mergeReleaseStatus, mergeLeaf. cbn.
    by rewrite decide_True.
  - intros [cs] [cs']. unfold mergeStatus. cbn. unfold mergeReleaseStatus, mergeLeaf. cbn.
    case_decide; by simplify_eq.
Qed.

Lemma release_processDelete_only_logs : cleanup_only_logs logger processDelete.
Proof. intros o w. reflexivity. Qed.

Lemma release_processUpdate_quiet : quiet_hook processUpdate.
Proof.
  intros o w. eexists. split.
  - unfold processUpdate. run. rewrite <- ?app_assoc. reflexivity.
  - by repeat constructor.
Qed.

Lemma release_processUpdate_calm : calm_hook processUpdate.
Proof. intros o w. by split. Qed.

Lemma release_processUpdate_settles : settling_hook processUpdate.
Proof.
  intros o w o1 r w1 Hf. unfold processUpdate at 1. run. intros [= <- <- <-].
  split_and!; try done.
  intros w2 Hf2 Hs2 Hsch2. unfold processUpdate. run. cbn.
  rewrite SetStatusCondition_idem.
  do 3 eexists. split; [reflexivity|]. split_and!.
  - done.
  - done.
  - cbn. rewrite <- ?app_assoc. reflexivity.
  - by repeat constructor.
Qed.
End ReleaseFacts.

(** * More of the code *)

Section MoreEngineFacts.
Context {Sp St : Type} `{Schema Sp St}.
Local Abbreviation O := (Object Sp St).
Local Abbreviation W := (World (Object Sp St)).
Variable finalizerName logger : string.
Variable processUpdate processDelete : O -> M W (O * Result * error).

Local Abbreviation R := (Reconcile finalizerName logger processUpdate processDelete).

(** The pass whose Get fails otherwise than with not-found. *)
Lemma Reconcile_get_failed (request : NamespacedName) (w : W) (e : Err) :
  (client_Get request w).1 = inr e ->
  e <> ErrNotFound ->
  (R request w).1 = (zeroResult, Some e)
  /\ trace (R request w).2 =
       trace w ++ [EvGet request (Some e); EvError logger e "Failed to get object" []]
  /\ objects (R request w).2 = objects w
  /\ secrets (R request w).2 = secrets w.
Proof.
  intros Hg Hne. unfold Reconcile.
  destruct (client_Get_run request w) as (got & w1 & Eg & _ & Ho & Hs & _ & _ & _ & Ht).
  rewrite Eg in Hg. cbn in Hg. subst got. step Eg.
  destruct e; try done; run; (split_and!; try done);
    rewrite Ht; by rewrite <- ?app_assoc.
Qed.

Lemma engine_get_error_is_returned : get_error_is_returned logger R.
Proof.
  intros request w e Hg Hne.
  destruct (Reconcile_get_failed request w e Hg Hne) as (Hr & Ht & Ho & Hs).
  split_and!; try done. by apply pass_events_app.
Qed.

(** With hooks that return the zero result, so does the pass. *)
Lemma engine_never_requeues :
  plain_hook processUpdate -> plain_hook processDelete -> never_requeues R.
Proof.
  intros Hu Hd request w. unfold Reconcile.
  destruct (client_Get request w) as [got w1] eqn:Eg. step Eg.
  destruct got as [o|e].
  - cbv zeta.
    destruct (negb (negb (Time_IsZero (DeletionTimestamp (ObjMeta o))))
              && negb (ContainsFinalizer (Finalizers (ObjMeta o)) finalizerName)).
    + match goal with |- context [client_Patch ?c ?b] =>
        destruct (client_Patch c b w1) as [[r err] w2] eqn:Ep; step Ep end.
      by destruct err.
    + destruct (negb (Time_IsZero (DeletionTimestamp (ObjMeta o)))).
      * step (eq_refl : emit (EvHook Cleanup o) w1 = (tt, (emit (EvHook Cleanup o) w1).2)).
        pose proof (Hd o (emit (EvHook Cleanup o) w1).2) as Hz.
        destruct (processDelete o _) as [[[copy result] err] w3] eqn:Eh.
        step Eh. cbn in Hz. subst result.
        destruct err as [e|]; [done|].
        destruct (client_Status_Patch copy o w3) as [[r err] w4] eqn:Ep. step Ep.
        destruct err as [e|]; [done|].
        match goal with |- context [client_Patch ?c ?b] =>
          destruct (client_Patch c b w4) as [[r5 err5] w5] eqn:Ep5; step Ep5 end.
        by destruct err5.
      * step (eq_refl : emit (EvHook Apply o) w1 = (tt, (emit (EvHook Apply o) w1).2)).
        pose proof (Hu o (emit (EvHook Apply o) w1).2) as Hz.
        destruct (processUpdate o _) as [[[copy result] err] w3] eqn:Eh.
        step Eh. cbn in Hz. subst result.
        destruct err as [e|]; [done|].
        destruct (client_Status_Patch copy o w3) as [[r err] w4] eqn:Ep. step Ep.
        by destruct err.
  - by destruct e.
Qed.

Lemma RemoveFinalizer_others (fs : list string) :
  RemoveFinalizer fs finalizerName = otherFinalizers finalizerName fs.
Proof.
  unfold otherFinalizers. induction fs as [|f fs IH]; [done|].
  rewrite filter_cons. cbn [RemoveFinalizer].
  destruct (decide (f = finalizerName)) as [E|E].
  - by rewrite decide_False by (intros ?; done).
  - by rewrite decide_True, IH.
Qed.

Lemma otherFinalizers_idem (fs : list string) :
  otherFinalizers finalizerName (otherFinalizers finalizerName fs)
  = otherFinalizers finalizerName fs.
Proof.
  rewrite <- !RemoveFinalizer_others. apply RemoveFinalizer_absent.
  apply ContainsFinalizer_Remove.
Qed.

Lemma otherFinalizers_snoc (fs : list string) :
  otherFinalizers finalizerName (fs ++ [finalizerName])
  = otherFinalizers finalizerName fs.
Proof.
  unfold otherFinalizers. rewrite filter_app.
  rewrite (filter_cons_False _ finalizerName) by (intros ?; done).
  by rewrite filter_nil, app_nil_r.
Qed.

Lemma ContainsFinalizer_false (fs : list string) :
  ContainsFinalizer fs finalizerName = false -> finalizerName ∉ fs.
Proof.
  induction fs as [|f fs IH]; cbn.
  - intros _. apply not_elem_of_nil.
  - destruct (decide (f = finalizerName)) as [E|E]; [done|].
    intros Hc. apply not_elem_of_cons. split; [done|]. by apply IH.
Qed.

(** What a pass leaves in the store, when the object is stored under its
    name: nothing new, or the object with the token added, or the object
    with the token removed (erased when that was its last finalizer), or
    the object with the status the update hook made. *)
Lemma Reconcile_store `{!SchemaLaws Sp St} (request : NamespacedName) (w : W) :
  cleanup_only_logs logger processDelete ->
  status_hook processUpdate ->
  named request w ->
  objects (R request w).2 = objects w
  \/ exists o,
       objects w !! request = Some o
       /\ ((unclaimed finalizerName o = true
            /\ objects (R request w).2
               = <[request := withFinalizer finalizerName o]> (objects w))
           \/ (deleting o = true
               /\ objects (R request w).2
                  = (if collectable (withoutFinalizer finalizerName o)
                     then delete request (objects w)
                     else <[request := withoutFinalizer finalizerName o]> (objects w)))
           \/ (exists o1,
                 ObjMeta o1 = ObjMeta o /\ Spec o1 = Spec o
                 /\ objects (R request w).2 = <[request := o1]> (objects w))).
Proof.
  intros Hd Hu Hn.
  destruct (client_Get request w).1 as [o|e] eqn:Hg.
  - pose proof (client_Get_inl request w o Hg) as (Hnf & Hl & Eg).
    pose proof (Hn o Hl) as Hk.
    destruct (unclaimed finalizerName o) eqn:Eu.
    { destruct (Reconcile_unclaimed finalizerName logger processUpdate processDelete
                  request w o Hg Hk Eu) as (err & _ & _ & _ & _ & Ho).
      destruct err; [by left|]. right. exists o. split; [done|]. left. by split. }
    destruct (deleting o) eqn:Edel.
    { destruct (Reconcile_deleting finalizerName logger processUpdate processDelete
                  request w o Hd Hg Hk Edel) as (_ & _ & _ & Ho).
      destruct (nth 1 (faults w) None); [by left|].
      destruct (nth 2 (faults w) None); [by left|].
      right. exists o. split; [done|]. right; left. by split. }
    pose proof (Reconcile_update finalizerName logger processUpdate processDelete
                  request w o Hg Eu Edel) as Er.
    rewrite Eg in Er. cbn [snd] in Er.
    set (wh := (emit (EvHook Apply o) (emit (EvGet request None) (roundTrip w).2).2).2)
      in *.
    destruct (Hu o wh) as (Ho3 & Hm1 & Hsp1).
    destruct (processUpdate o wh) as [[[o1 r] err] w3] eqn:Eh.
    cbn [fst snd] in Ho3, Hm1, Hsp1.
    destruct err as [e|]; [left; rewrite Er; cbn; by rewrite Ho3|].
    destruct (client_Status_Patch_run o1 o w3)
      as (r4 & err4 & w4 & Ep & _ & _ & _ & _ & _ & Hcase).
    rewrite Ep in Er.
    assert (Hl3 : objects w3 !! ObjectKey (ObjMeta o1) = Some o).
    { rewrite Hm1, Hk, Ho3. subst wh. exact Hl. }
    rewrite Hl3 in Hcase.
    destruct (nextFault w3).
    + destruct Hcase as (-> & _ & Ho4). left. rewrite Er. cbn. by rewrite Ho4, Ho3.
    + destruct Hcase as (-> & _ & Ho4).
      rewrite (applyStatusPatch_onto _ _ Hm1 Hsp1), Hm1, Hk in Ho4.
      right. exists o. split; [done|]. right; right. exists o1.
      split_and!; try done. rewrite Er. cbn. by rewrite Ho4, Ho3.
  - left. destruct (decide (e = ErrNotFound)) as [->|Hne].
    + by destruct (Reconcile_not_found finalizerName logger processUpdate processDelete
                     request w Hg) as (_ & _ & Ho & _).
    + by destruct (Reconcile_get_failed request w e Hg Hne) as (_ & _ & Ho & _).
Qed.

Lemma engine_touches_one_object `{!SchemaLaws Sp St} :
  cleanup_only_logs logger processDelete ->
  status_hook processUpdate ->
  touches_one_object R.
Proof.
  intros Hd Hu request w Hn.
  destruct (Reconcile_store request w Hd Hu Hn)
    as [Ho|(o & Hl & [[_ Ho]|[[_ Ho]|(o1 & _ & _ & Ho)]])]; rewrite Ho.
  - done.
  - split; [|by rewrite Hl]. intros k Hk. by rewrite lookup_insert_ne.
  - split; [|by rewrite Hl]. intros k Hk.
    destruct (collectable _); [by rewrite lookup_delete_ne|by rewrite lookup_insert_ne].
  - split; [|by rewrite Hl]. intros k Hk. by rewrite lookup_insert_ne.
Qed.

Lemma engine_keeps_what_is_not_its_own `{!SchemaLaws Sp St} :
  cleanup_only_logs logger processDelete ->
  status_hook processUpdate ->
  keeps_what_is_not_its_own finalizerName R.
Proof.
  intros Hd Hu request w o o' Hn Hl Hl'.
  destruct (Reconcile_store request w Hd Hu Hn)
    as [Ho|(o0 & Hl0 & [[Hun Ho]|[[Hdel Ho]|(o1 & Hm1 & Hsp1 & Ho)]])];
    rewrite Ho in Hl'.
  - rewrite Hl in Hl'. by injection Hl' as ->.
  - rewrite Hl in Hl0. injection Hl0 as <-.
    rewrite lookup_insert_eq in Hl'. injection Hl' as <-.
    apply andb_prop in Hun as [_ Hc]. apply negb_true_iff in Hc.
    unfold withFinalizer, AddFinalizer. rewrite Hc. cbn.
    split_and!; try done.
    + apply otherFinalizers_snoc.
    + intros Hnd. apply NoDup_app. split_and!; [done| |apply NoDup_singleton].
      intros x Hx Hx'. apply list_elem_of_singleton in Hx' as ->.
      by apply (ContainsFinalizer_false _ Hc).
  - rewrite Hl in Hl0. injection Hl0 as <-.
    destruct (collectable _); [by rewrite lookup_delete_eq in Hl'|].
    rewrite lookup_insert_eq in Hl'. injection Hl' as <-.
    unfold withoutFinalizer. cbn. rewrite RemoveFinalizer_others.
    split_and!; try done.
    + apply otherFinalizers_idem.
    + apply NoDup_filter.
  - rewrite Hl in Hl0. injection Hl0 as <-.
    rewrite lookup_insert_eq in Hl'. injection Hl' as <-.
    by rewrite Hm1, Hsp1.
Qed.

Lemma engine_delete_pass_outcome `{!SchemaLaws Sp St} :
  cleanup_only_logs logger processDelete ->
  delete_pass_outcome finalizerName R.
Proof.
  intros Hd request w o Hg Hk Hdel H1 H2.
  destruct (Reconcile_deleting finalizerName logger processUpdate processDelete
              request w o Hd Hg Hk Hdel) as (Hr & _ & _ & Ho).
  rewrite H1, H2 in Hr, Ho. split; [done|]. rewrite Ho.
  unfold collectable, withoutFinalizer. cbn. rewrite RemoveFinalizer_others.
  unfold deleting in Hdel.
  destruct (DeletionTimestamp (ObjMeta o)); [|done].
  by destruct (otherFinalizers finalizerName (Finalizers (ObjMeta o))).
Qed.
End MoreEngineFacts.

Section MoreSecretFacts.
Context {O : Type}.
Local Abbreviation W := (World O).

Lemma secret_Create_outcome (secret : Secret) (w : W) :
  (secret_Create secret w).1
  = match nextFault w with
    | Some e => Some e
    | None => match secrets w !! ObjectKey (SecretMeta secret) with
              | Some _ => Some ErrAlreadyExists
              | None => None
              end
    end
  /\ ((secret_Create secret w).1 <> None ->
      secrets (secret_Create secret w).2 = secrets w).
Proof.
  unfold secret_Create. run. unfold nextFault.
  destruct (match faults w with [] => None | f :: _ => f end) as [e|]; [done|].
  by destruct (secrets w !! ObjectKey (SecretMeta secret)).
Qed.

Lemma secret_Patch_outcome (copy base : Secret) (w : W) :
  (secret_Patch copy base w).1.2
  = match nextFault w with
    | Some e => Some e
    | None => match secrets w !! ObjectKey (SecretMeta copy) with
              | Some _ => None
              | None => Some ErrNotFound
              end
    end
  /\ ((secret_Patch copy base w).1.2 <> None ->
      secrets (secret_Patch copy base w).2 = secrets w).
Proof.
  unfold secret_Patch. run. unfold nextFault.
  destruct (match faults w with [] => None | f :: _ => f end) as [e|]; [done|].
  by destruct (secrets w !! ObjectKey (SecretMeta copy)).
Qed.

(** A failed [CreateOrPatch] leaves the secrets as they were. *)
Lemma CreateOrPatch_failed (obj : Secret) (f : Secret -> Secret * error) (w w' : W)
  (sec : Secret) (op : OperationResult) (e : Err) :
  CreateOrPatch obj f w = ((sec, op, Some e), w') -> secrets w' = secrets w.
Proof.
  unfold CreateOrPatch.
  destruct (secret_Get_run (ObjectKey (SecretMeta obj)) w)
    as (got & w1 & Eg & _ & _ & Hs1 & _ & _ & _ & _).
  step Eg. destruct got as [before|e0].
  - destruct (mutate f _ before) as [obj' [e1|]]; [run; by intros [= <- <- <- <-]|].
    case_decide; [by run|].
    destruct (secret_Patch_outcome obj' before w1) as [_ Hfail].
    destruct (secret_Patch obj' before w1) as [[r err] w2] eqn:Ep. step Ep.
    cbn [fst snd] in Hfail.
    destruct err as [e1|]; [|by run]. run. intros [= <- <- <- <-].
    by rewrite Hfail.
  - destruct (negb (IsNotFound (Some e0))); [run; by intros [= <- <- <- <-]|].
    destruct (mutate f _ obj) as [obj' [e1|]]; [run; by intros [= <- <- <- <-]|].
    destruct (secret_Create_outcome obj' w1) as [_ Hfail].
    destruct (secret_Create obj' w1) as [err w2] eqn:Ec. step Ec.
    cbn [fst snd] in Hfail.
    destruct err as [e1|]; [|by run]. run. intros [= <- <- <- <-].
    by rewrite Hfail.
Qed.


(** [CreateOrPatch] succeeds when no call is refused, the secret in the
    store (if any) carries its key, and the mutate function succeeds on
    what it is run on without changing the key. *)
Lemma CreateOrPatch_succeeds (obj : Secret) (f : Secret -> Secret * error) (w : W)
  (sec' : Secret) :
  faults w = [] ->
  f (default obj (secrets w !! ObjectKey (SecretMeta obj))) = (sec', None) ->
  ObjectKey (SecretMeta sec') = ObjectKey (SecretMeta obj) ->
  (CreateOrPatch obj f w).1.2 = None.
Proof.
  intros Hf Hfs Hk. unfold CreateOrPatch, secret_Get, mutate. run.
  rewrite Hf. cbn.
  destruct (secrets w !! ObjectKey (SecretMeta obj)) as [before|] eqn:Hl; cbn in *.
  - rewrite Hfs. rewrite decide_True by done.
    case_decide; [done|].
    unfold secret_Patch. run. cbn. rewrite Hk, Hl. by run.
  - rewrite Hfs. rewrite decide_True by done.
    unfold secret_Create. run. cbn. rewrite Hk, Hl. by run.
Qed.
End MoreSecretFacts.

(** ** More on conditions and owner references *)

Lemma SetStatusCondition_others (t : Z) (cs : list Condition) (c : Condition) :
  filter (fun x => CondType x <> CondType c) (SetStatusCondition t cs c)
  = filter (fun x => CondType x <> CondType c) cs.
Proof.
  unfold SetStatusCondition.
  destruct (FindStatusCondition cs (CondType c)) as [y|] eqn:E.
  - clear E. induction cs as [|x cs IH]; [done|]. cbn [replaceCondition].
    destruct (decide (CondType x = CondType c)) as [Ex|Ex].
    + rewrite !filter_cons. rewrite decide_False.
      * by rewrite decide_False by (intros Hn; by apply Hn).
      * intros Hn. apply Hn. unfold updateCondition.
        by destruct (decide (CondStatus x = CondStatus c)).
    + rewrite !filter_cons. rewrite !decide_True by done. by rewrite IH.
  - rewrite filter_app, filter_cons, decide_False by (intros Hn; by apply Hn).
    by rewrite filter_nil, app_nil_r.
Qed.

Lemma SetStatusCondition_found (t : Z) (cs : list Condition) (c : Condition) :
  FindStatusCondition (SetStatusCondition t cs c) (CondType c)
  = Some match FindStatusCondition cs (CondType c) with
         | Some x => updateCondition t c x
         | None =>
             {| CondType := CondType c;
                CondStatus := CondStatus c;
                ObservedGeneration := ObservedGeneration c;
                LastTransitionTime :=
                  (if (LastTransitionTime c =? 0)%Z then t else LastTransitionTime c);
                Reason := Reason c;
                Message := Message c |}
         end.
Proof.
  unfold SetStatusCondition.
  destruct (FindStatusCondition cs (CondType c)) as [y|] eqn:E.
  - rewrite FindStatusCondition_replace by (by rewrite E). by rewrite E.
  - rewrite (FindStatusCondition_app_None _ _ _ E). cbn. by rewrite decide_True.
Qed.

(** Setting the condition both hooks set. *)
Lemma SetStatusCondition_fulfils (t : Z) (cs : list Condition) :
  fulfils cs (SetStatusCondition t cs fulfilled) t.
Proof.
  split; [apply (SetStatusCondition_others t cs fulfilled)|].
  pose proof (SetStatusCondition_found t cs fulfilled) as Hf. cbn in Hf.
  eexists. split; [exact Hf|].
  destruct (FindStatusCondition cs FulfilledCondition) as [x|];
    [|cbn; by split_and!].
  unfold updateCondition. cbn.
  destruct (decide (CondStatus x = ConditionTrue)) as [E|E]; cbn; by split_and!.
Qed.



(** A reference to the request in another version of its API counts as a
    reference to the same object: [upsertOwnerRef] replaces it. *)
Lemma upsertOwnerRef_other_version
  (object : AllocationReconciler.NodeAllocationRequest) (version uid : string) :
  countSlashes version = 0 ->
  let old :=
    {| RefAPIVersion := "hardwaremanagement.oran.openshift.io/" +:+ version;
       RefKind := "NodeAllocationRequest";
       RefName := Name (ObjMeta object);
       RefUID := uid |} in
  referSameObject old (ownerRef object) = true
  /\ upsertOwnerRef (ownerRef object) [old] = [ownerRef object].
Proof.
  intros Hv old.
  assert (Hsame : referSameObject old (ownerRef object) = true).
  { assert (E1 : ParseGroupVersion (RefAPIVersion old)
                 = inl {| Group := "hardwaremanagement.oran.openshift.io";
                          Version := version |}).
    { unfold ParseGroupVersion, old. cbn [RefAPIVersion String.append].
      rewrite bool_decide_eq_false_2 by (intros E; discriminate E).
      rewrite bool_decide_eq_false_2 by (intros E; discriminate E).
      cbv beta iota delta [String.append]. simpl. by rewrite Hv. }
    unfold referSameObject. rewrite E1.
    change (ParseGroupVersion (RefAPIVersion (ownerRef object)))
      with (@inl GroupVersion Err
              {| Group := "hardwaremanagement.oran.openshift.io";
                 Version := "v1alpha1" |}).
    cbn. by rewrite !bool_decide_eq_true_2. }
  split; [exact Hsame|]. cbn [upsertOwnerRef]. by rewrite Hsame.
Qed.

Module MoreAllocationFacts.
Import AllocationReconciler.

Lemma allocation_plain_update : plain_hook processUpdate.
Proof. intros o w. apply AllocationFacts.allocation_processUpdate_frame. Qed.

Lemma allocation_status_update : status_hook processUpdate.
Proof.
  intros o w.
  destruct (AllocationFacts.allocation_processUpdate_frame o w) as (? & _ & ? & ? & _).
  done.
Qed.

(** A failed [processUpdate] has written no secret, and has left the BMC
    details and the conditions of the working copy alone. *)
Lemma allocation_processUpdate_failed (object object' : NodeAllocationRequest)
  (result : Result) (e : Err) (w w' : W) :
  processUpdate object w = ((object', result, Some e), w') ->
  secrets w' = secrets w
  /\ StatusBMC (Status object') = StatusBMC (Status object)
  /\ Conditions (Status object') = Conditions (Status object).
Proof.
  rewrite AllocationFacts.allocation_processUpdate_unfold. cbv zeta.
  set (w0 := (emit _ w).2).
  assert (Hs0 : secrets w0 = secrets w) by done.
  destruct (decide (NodeID (Status object) = "")) as [E|E].
  - destruct (AllocationFacts.allocation_uuid_NewString_frame w0)
      as (_ & Hs1 & _ & _ & _ & _ & _).
    destruct (CreateOrPatch _ _ _) as [[[secret op] [e'|]] w2] eqn:Ec; [|done].
    intros [= <- <- <- <-]. apply CreateOrPatch_failed in Ec.
    split_and!; [congruence|done|done].
  - destruct (CreateOrPatch _ _ _) as [[[secret op] [e'|]] w2] eqn:Ec; [|done].
    intros [= <- <- <- <-]. apply CreateOrPatch_failed in Ec.
    split_and!; [congruence|done|done].
Qed.


Lemma allocation_mutateSecret_succeeds (object : NodeAllocationRequest)
  (sch : list string) (src : Secret) :
  Namespace (SecretMeta src) = Namespace (ObjMeta object) ->
  "NodeAllocationRequest" ∈ sch ->
  exists sec',
    mutateSecret object sch src = (sec', None)
    /\ ObjectKey (SecretMeta sec') = ObjectKey (SecretMeta src).
Proof.
  intros Hns Hk. unfold mutateSecret, SetOwnerReference, validateOwner. rewrite Hns.
  destruct (decide (Namespace (ObjMeta object) = "")) as [E|E].
  - rewrite bool_decide_eq_true_2 by exact Hk. by eexists.
  - rewrite decide_True by done. rewrite bool_decide_eq_true_2 by exact Hk.
    by eexists.
Qed.

(** [processUpdate] succeeds when no call is refused, the scheme knows the
    kind, and the secret in the store (if any) carries its key. *)
Lemma allocation_processUpdate_succeeds (object : NodeAllocationRequest) (w : W) :
  faults w = [] ->
  "NodeAllocationRequest" ∈ scheme w ->
  secret_named (bmcKey object) w ->
  (processUpdate object w).1.2 = None.
Proof.
  intros Hf Hsch Hn.
  rewrite AllocationFacts.allocation_processUpdate_unfold. cbv zeta.
  set (w0 := (emit _ w).2).
  assert (Hgen : forall (object1 : NodeAllocationRequest) (w1 : W),
            ObjMeta object1 = ObjMeta object -> secrets w1 = secrets w ->
            scheme w1 = scheme w -> faults w1 = [] ->
            (CreateOrPatch (blankSecret object1) (mutateSecret object1 (scheme w1)) w1).1.2
            = None).
  { intros object1 w1 Hm Hs1 Hc1 Hf1.
    assert (Hkey : ObjectKey (SecretMeta (blankSecret object1)) = bmcKey object).
    { unfold blankSecret, bmcKey, ObjectKey. cbn. by rewrite Hm. }
    set (src := default (blankSecret object1)
                  (secrets w1 !! ObjectKey (SecretMeta (blankSecret object1)))).
    assert (Hsrc : ObjectKey (SecretMeta src) = bmcKey object).
    { subst src. rewrite Hkey, Hs1.
      destruct (secrets w !! bmcKey object) as [s|] eqn:Hl; cbn; [by apply Hn|done]. }
    destruct (allocation_mutateSecret_succeeds object1 (scheme w1) src)
      as (sec' & Hmut & Hk').
    { rewrite Hm. unfold ObjectKey, bmcKey in Hsrc. by injection Hsrc. }
    { by rewrite Hc1. }
    apply (CreateOrPatch_succeeds _ _ _ sec'); [done|done|].
    by rewrite Hk', Hsrc, Hkey. }
  destruct (decide (NodeID (Status object) = "")) as [E|E].
  - destruct (AllocationFacts.allocation_uuid_NewString_frame w0)
      as (_ & Hs1 & Hc1 & Hf1 & _ & _ & _).
    specialize (Hgen (set_NodeID (uuid_NewString w0).1 object) (uuid_NewString w0).2
                  eq_refl Hs1 Hc1).
    rewrite Hf1 in Hgen. specialize (Hgen Hf).
    destruct (CreateOrPatch _ _ _) as [[[secret op] err] w2]. cbn in Hgen. by subst.
  - specialize (Hgen object w0 eq_refl eq_refl eq_refl Hf).
    destruct (CreateOrPatch _ _ _) as [[[secret op] err] w2]. cbn in Hgen. by subst.
Qed.
End MoreAllocationFacts.

Module MoreReleaseFacts.
Import ReleaseReconciler.

Lemma release_plain_update : plain_hook processUpdate.
Proof. by intros o w. Qed.

Lemma release_status_update : status_hook processUpdate.
Proof. by intros o w. Qed.
End MoreReleaseFacts.

Section ProgressFacts.
Context {Sp St : Type} `{Schema Sp St} `{!SchemaLaws Sp St}.
Local Abbreviation O := (Object Sp St).
Local Abbreviation W := (World (Object Sp St)).
Variable finalizerName logger : string.
Variable processUpdate processDelete : O -> M W (O * Result * error).

Local Abbreviation R := (Reconcile finalizerName logger processUpdate processDelete).

(** The pass on an object that is ours and stays, when the hook succeeds
    and the status patch goes through: the stored object becomes the
    working copy the hook left. *)
Lemma Reconcile_update_ok (request : NamespacedName) (w w3 : W) (o o1 : O)
  (r : Result) :
  (client_Get request w).1 = inl o ->
  ObjectKey (ObjMeta o) = request ->
  unclaimed finalizerName o = false ->
  deleting o = false ->
  processUpdate o (emit (EvHook Apply o) (client_Get request w).2).2
    = ((o1, r, None), w3) ->
  objects w3 = objects w ->
  ObjMeta o1 = ObjMeta o ->
  Spec o1 = Spec o ->
  nextFault w3 = None ->
  (R request w).1 = (r, None)
  /\ objects (R request w).2 = <[request := o1]> (objects w)
  /\ secrets (R request w).2 = secrets w3.
Proof.
  intros Hg Hk Hu Hdel Eh Ho3 Hm1 Hsp1 Hnf.
  pose proof (Reconcile_update finalizerName logger processUpdate processDelete
                request w o Hg Hu Hdel) as Er.
  rewrite Eh in Er.
  apply client_Get_inl in Hg as (_ & Hl & _).
  destruct (client_Status_Patch_run o1 o w3)
    as (r4 & err4 & w4 & Ep & Hs4 & _ & _ & _ & _ & Hcase).
  rewrite Ep in Er.
  assert (Hl3 : objects w3 !! ObjectKey (ObjMeta o1) = Some o)
    by (by rewrite Hm1, Hk, Ho3).
  rewrite Hnf, Hl3 in Hcase. destruct Hcase as (-> & _ & Ho4).
  rewrite (applyStatusPatch_onto _ _ Hm1 Hsp1), Hm1, Hk in Ho4.
  rewrite Er. cbn. by rewrite Ho4, Ho3, Hs4.
Qed.

(** With no call refused and an update hook that succeeds where it is
    called, the pass returns no error. *)
Lemma Reconcile_succeeds (request : NamespacedName) (w : W) :
  cleanup_only_logs logger processDelete ->
  calm_hook processUpdate ->
  status_hook processUpdate ->
  faults w = [] ->
  named request w ->
  (forall o,
     objects w !! request = Some o ->
     (processUpdate o (emit (EvHook Apply o) (client_Get request w).2).2).1.2 = None) ->
  (R request w).1.2 = None.
Proof.
  intros Hd Hcalm Hst Hf Hn Hok.
  pose proof (client_Get_lookup request w (nextFault_nil _ Hf)) as Hg.
  destruct (objects w !! request) as [o|] eqn:Hl.
  - pose proof (Hn o Hl) as Hk.
    destruct (unclaimed finalizerName o) eqn:Eu.
    { destruct (Reconcile_unclaimed finalizerName logger processUpdate processDelete
                  request w o Hg Hk Eu) as (err & -> & Hr & _).
      rewrite Hr, Hf. done. }
    destruct (deleting o) eqn:Edel.
    { destruct (Reconcile_deleting finalizerName logger processUpdate processDelete
                  request w o Hd Hg Hk Edel) as (Hr & _).
      rewrite Hr, Hf. done. }
    specialize (Hok o eq_refl).
    destruct (Hst o (emit (EvHook Apply o) (client_Get request w).2).2)
      as (Ho3 & Hm1 & Hsp1).
    destruct (Hcalm o (emit (EvHook Apply o) (client_Get request w).2).2) as [_ Hf3].
    destruct (processUpdate o _) as [[[o1 r] err] w3] eqn:Eh.
    cbn in Hok, Ho3, Hm1, Hsp1, Hf3. subst err.
    pose proof (client_Get_inl request w o Hg) as (_ & _ & Eg).
    rewrite Eg in Ho3, Hf3. cbn in Ho3, Hf3. rewrite Hf in Hf3.
    destruct (Reconcile_update_ok request w w3 o o1 r Hg Hk Eu Edel Eh Ho3 Hm1 Hsp1)
      as (Hr & _); [by apply nextFault_nil, Hf3|].
    by rewrite Hr.
  - destruct (Reconcile_not_found finalizerName logger processUpdate processDelete
                request w Hg) as (Hr & _).
    by rewrite Hr.
Qed.

(** The first two passes on a fresh object, with no call refused: the
    first adds the finalizer, and the second, when the hook succeeds, puts
    the working copy the hook left in the store. *)
Lemma Reconcile_claim_then_update (request : NamespacedName) (w : W) (o : O) :
  cleanup_only_logs logger processDelete ->
  calm_hook processUpdate ->
  status_hook processUpdate ->
  faults w = [] ->
  objects w !! request = Some o ->
  ObjectKey (ObjMeta o) = request ->
  unclaimed finalizerName o = true ->
  let o1 := withFinalizer finalizerName o in
  let w1 := (R request w).2 in
  let wh := (emit (EvHook Apply o1) (client_Get request w1).2).2 in
  (R request w).1 = (zeroResult, None)
  /\ faults wh = [] /\ secrets wh = secrets w /\ scheme wh = scheme w
  /\ forall o2 r w3,
       processUpdate o1 wh = ((o2, r, None), w3) ->
       (R request w1).1 = (r, None)
       /\ objects (R request w1).2 = <[request := o2]> (objects w)
       /\ secrets (R request w1).2 = secrets w3.
Proof.
  intros Hd Hcalm Hst Hf Hl Hk Hu o1 w1 wh.
  assert (Hg : (client_Get request w).1 = inl o).
  { rewrite client_Get_lookup by (by apply nextFault_nil). by rewrite Hl. }
  destruct (Reconcile_unclaimed finalizerName logger processUpdate processDelete
              request w o Hg Hk Hu) as (err & -> & Hr & _ & Hs1 & Ho1).
  rewrite Hf in Hr, Ho1. cbn in Hr, Ho1.
  destruct (Reconcile_calm finalizerName logger processUpdate processDelete request w
              Hcalm (cleanup_only_logs_calm logger processDelete Hd)) as [Hc1 Hf1].
  specialize (Hf1 Hf). fold w1 in Hs1, Ho1, Hc1, Hf1.
  assert (Hg1 : (client_Get request w1).1 = inl o1).
  { rewrite client_Get_lookup by (by apply nextFault_nil).
    by rewrite Ho1, lookup_insert_eq. }
  pose proof (client_Get_inl request w1 o1 Hg1) as (_ & _ & Eg1).
  assert (Hfh : faults wh = []) by (subst wh; rewrite Eg1; cbn; by rewrite Hf1).
  assert (Hsh : secrets wh = secrets w) by (subst wh; rewrite Eg1; cbn; done).
  assert (Hch : scheme wh = scheme w) by (subst wh; rewrite Eg1; cbn; done).
  split_and!; try done.
  intros o2 r w3 Eh.
  assert (Hu1 : unclaimed finalizerName o1 = false).
  { unfold unclaimed. cbn. rewrite ContainsFinalizer_Add. by rewrite andb_false_r. }
  assert (Hdel1 : deleting o1 = false).
  { apply andb_prop in Hu as [Hz _]. unfold deleting. cbn. by rewrite Hz. }
  destruct (Hst o1 wh) as (Ho3 & Hm2 & Hsp2).
  destruct (Hcalm o1 wh) as [_ Hf3].
  rewrite Eh in Ho3, Hm2, Hsp2, Hf3. cbn in Ho3, Hm2, Hsp2, Hf3.
  assert (Ho3' : objects w3 = objects w1).
  { rewrite Ho3. subst wh. by rewrite Eg1. }
  destruct (Reconcile_update_ok request w1 w3 o1 o2 r Hg1 Hk Hu1 Hdel1 Eh Ho3' Hm2 Hsp2)
    as (Hr2 & Ho2 & Hs2); [by apply nextFault_nil, Hf3|].
  split_and!; try done. rewrite Ho2, Ho1. by rewrite insert_insert_eq.
Qed.
End ProgressFacts.

Section SecretsFrame.
Context {Sp St : Type} `{Schema Sp St}.
Local Abbreviation O := (Object Sp St).
Local Abbreviation W := (World (Object Sp St)).
Variable finalizerName logger : string.
Variable processUpdate processDelete : O -> M W (O * Result * error).

Local Abbreviation R := (Reconcile finalizerName logger processUpdate processDelete).

(** The pass itself writes no secret: the secrets after it are those
    before it, or those the update hook left when it was called on the
    fetched object. *)
Lemma Reconcile_secrets (request : NamespacedName) (w : W) :
  (forall o w, secrets (processDelete o w).2 = secrets w) ->
  secrets (R request w).2 = secrets w
  \/ exists o wh,
       (client_Get request w).1 = inl o
       /\ secrets wh = secrets w
       /\ secrets (R request w).2 = secrets (processUpdate o wh).2.
Proof.
  intros Hd. unfold Reconcile.
  destruct (client_Get_run request w) as (got & w1 & Eg & _ & _ & Hs1 & _ & _ & _ & _).
  step Eg. rewrite Eg. cbn [fst].
  destruct got as [o|e].
  - cbv zeta.
    destruct (negb (negb (Time_IsZero (DeletionTimestamp (ObjMeta o))))
              && negb (ContainsFinalizer (Finalizers (ObjMeta o)) finalizerName)).
    + match goal with |- context [client_Patch ?c ?b] =>
        destruct (client_Patch_run c b w1)
          as (r & err & w2 & Ep & Hs2 & _); step Ep end.
      left. destruct err; run; congruence.
    + destruct (negb (Time_IsZero (DeletionTimestamp (ObjMeta o)))).
      * left.
        step (eq_refl : emit (EvHook Cleanup o) w1 = (tt, (emit (EvHook Cleanup o) w1).2)).
        pose proof (Hd o (emit (EvHook Cleanup o) w1).2) as Hs3.
        destruct (processDelete o _) as [[[copy result] err] w3] eqn:Eh.
        step Eh. cbn in Hs3.
        destruct err as [e|]; [run; congruence|].
        destruct (client_Status_Patch_run copy o w3)
          as (r & err & w4 & Ep & Hs4 & _).
        step Ep.
        destruct err as [e|]; [run; congruence|].
        match goal with |- context [client_Patch ?c ?b] =>
          destruct (client_Patch_run c b w4)
            as (r5 & err5 & w5 & Ep5 & Hs5 & _); step Ep5 end.
        destruct err5; run; congruence.
      * right. exists o, (emit (EvHook Apply o) w1).2.
        split; [done|]. split; [done|].
        step (eq_refl : emit (EvHook Apply o) w1 = (tt, (emit (EvHook Apply o) w1).2)).
        destruct (processUpdate o _) as [[[copy result] err] w3] eqn:Eh.
        step Eh. cbn [snd].
        destruct err as [e|]; [by run|].
        destruct (client_Status_Patch_run copy o w3)
          as (r & err & w4 & Ep & Hs4 & _).
        step Ep.
        destruct err; run; congruence.
  - left. destruct e; run; congruence.
Qed.
End SecretsFrame.

Lemma allocation_processUpdate_other_secrets
  (object : AllocationReconciler.NodeAllocationRequest) (w : AllocationReconciler.W)
  (k : NamespacedName) :
  k <> bmcKey object ->
  secrets (AllocationReconciler.processUpdate object w).2 !! k = secrets w !! k.
Proof.
  intros Hk.
  destruct (AllocationReconciler.processUpdate object w) as [[[o' r] [e|]] w'] eqn:Eh.
  - destruct (MoreAllocationFacts.allocation_processUpdate_failed _ _ _ _ _ _ Eh)
      as (Hs & _).
    cbn. by rewrite Hs.
  - destruct (AllocationFacts.allocation_processUpdate_ok _ _ _ _ _ Eh)
      as (_ & _ & _ & _ & sec & Hs & _).
    cbn. rewrite Hs. by rewrite lookup_insert_ne.
Qed.

Lemma named_lookup {Sp St} (request : NamespacedName) (w : World (Object Sp St))
  (o : Object Sp St) :
  objects w !! request = Some o -> ObjectKey (ObjMeta o) = request -> named request w.
Proof. intros Hl Hk o' Hl'. congruence. Qed.

Lemma named_absent {Sp St} (request : NamespacedName) (w : World (Object Sp St)) :
  objects w !! request = None -> named request w.
Proof. intros Hl o' Hl'. congruence. Qed.

Lemma secret_named_lookup {O} (key : NamespacedName) (w : World O) (s : Secret) :
  secrets w !! key = Some s -> ObjectKey (SecretMeta s) = key -> secret_named key w.
Proof. intros Hl Hk s' Hl'. congruence. Qed.

Lemma secret_named_absent {O} (key : NamespacedName) (w : World O) :
  secrets w !! key = None -> secret_named key w.
Proof. intros Hl s' Hl'. congruence. Qed.

(** * Further properties of the code *)

(** X1.  When the Get of a pass fails with an error other than not-found,
    [Reconcile] of either kind logs it (Failed to get object) and returns
    it with the zero result, and does nothing else: no hook, no patch, the
    stored objects and secrets as before. *)
Theorem other_get_errors_are_returned (finalizerName : string) :
  get_error_is_returned AllocationReconciler.logger
    (AllocationReconciler.Reconcile finalizerName)
  /\ get_error_is_returned ReleaseReconciler.logger
       (ReleaseReconciler.Reconcile finalizerName).
Proof. split; apply engine_get_error_is_returned. Qed.

Lemma other_get_errors_are_returned_witness :
  let o := Sample.allocation None [Sample.finalizerName] in
  let w : AllocationReconciler.W := Sample.world (Some o) [Some ErrUnavailable] in
  (client_Get Sample.key w).1 = inr ErrUnavailable
  /\ (AllocationReconciler.Reconcile Sample.finalizerName Sample.key w).1
     = (zeroResult, Some ErrUnavailable).
Proof.
  intros o w. split; [reflexivity|].
  apply (proj1 (other_get_errors_are_returned Sample.finalizerName)
           Sample.key w ErrUnavailable); [reflexivity | discriminate].
Defined.

(** X2.  [Reconcile] of either kind never asks for a requeue: whatever the
    world and whatever fails, the result it returns is the zero result
    (retries are left to the error it returns). *)
Theorem reconcile_never_requeues (finalizerName : string) :
  never_requeues (AllocationReconciler.Reconcile finalizerName)
  /\ never_requeues (ReleaseReconciler.Reconcile finalizerName).
Proof.
  split.
  - apply (engine_never_requeues finalizerName AllocationReconciler.logger
             AllocationReconciler.processUpdate AllocationReconciler.processDelete).
    + apply MoreAllocationFacts.allocation_plain_update.
    + by intros o w.
  - apply (engine_never_requeues finalizerName ReleaseReconciler.logger
             ReleaseReconciler.processUpdate ReleaseReconciler.processDelete).
    + apply MoreReleaseFacts.release_plain_update.
    + by intros o w.
Qed.

(** X3.  A pass of either kind on one name leaves the objects stored under
    every other name as they were, and never puts an object under a name
    that had none (the object, if any, being stored under its name). *)
Theorem reconcile_touches_one_object (finalizerName : string) :
  touches_one_object (AllocationReconciler.Reconcile finalizerName)
  /\ touches_one_object (ReleaseReconciler.Reconcile finalizerName).
Proof.
  split.
  - apply (engine_touches_one_object finalizerName AllocationReconciler.logger
             AllocationReconciler.processUpdate AllocationReconciler.processDelete).
    + apply AllocationFacts.allocation_processDelete_only_logs.
    + apply MoreAllocationFacts.allocation_status_update.
  - apply (engine_touches_one_object finalizerName ReleaseReconciler.logger
             ReleaseReconciler.processUpdate ReleaseReconciler.processDelete).
    + apply ReleaseFacts.release_processDelete_only_logs.
    + apply MoreReleaseFacts.release_status_update.
Qed.

Lemma reconcile_touches_one_object_witness :
  let o := Sample.release None [Sample.finalizerName] in
  let w := Sample2.twoReleases o [] in
  objects (ReleaseReconciler.Reconcile Sample.finalizerName Sample.key w).2
    !! Sample2.otherKey = Some Sample2.otherRelease.
Proof.
  intros o w.
  rewrite (proj1 (proj2 (reconcile_touches_one_object Sample.finalizerName)
                    Sample.key w (named_lookup Sample.key w o eq_refl eq_refl))
             Sample2.otherKey); [reflexivity | discriminate].
Defined.

(** X4.  No pass of the release reconciler changes the secrets.  A pass of
    the allocation reconciler changes at most the credentials secret of
    the object it fetched: the secrets under every other key are as
    before. *)
Theorem reconcile_touches_one_secret (finalizerName : string) :
  (forall request (w : ReleaseReconciler.W),
      secrets (ReleaseReconciler.Reconcile finalizerName request w).2 = secrets w)
  /\ (forall request (w : AllocationReconciler.W) k,
         (forall o, (client_Get request w).1 = inl o -> k <> bmcKey o) ->
         secrets (AllocationReconciler.Reconcile finalizerName request w).2 !! k
         = secrets w !! k).
Proof.
  split.
  - intros request w.
    destruct (Reconcile_secrets finalizerName ReleaseReconciler.logger
                ReleaseReconciler.processUpdate ReleaseReconciler.processDelete
                request w) as [Hs|(o & wh & _ & Hh & Hs)]; [done|done|].
    unfold ReleaseReconciler.Reconcile. by rewrite Hs.
  - intros request w k Hk.
    destruct (Reconcile_secrets finalizerName AllocationReconciler.logger
                AllocationReconciler.processUpdate AllocationReconciler.processDelete
                request w) as [Hs|(o & wh & Hg & Hh & Hs)]; [done| |].
    + unfold AllocationReconciler.Reconcile. by rewrite Hs.
    + unfold AllocationReconciler.Reconcile. rewrite Hs.
      rewrite allocation_processUpdate_other_secrets by (by apply Hk).
      by rewrite Hh.
Qed.

Lemma reconcile_touches_one_secret_witness :
  let o := Sample.allocation None [Sample.finalizerName] in
  let w := Sample2.withSecret o [] in
  secrets (AllocationReconciler.Reconcile Sample.finalizerName Sample.key w).2
    !! ("europe", "other-bmc") = None.
Proof.
  intros o w.
  rewrite (proj2 (reconcile_touches_one_secret Sample.finalizerName) Sample.key w
             ("europe", "other-bmc")); [reflexivity|].
  intros o' Hg. vm_compute in Hg. injection Hg as <-. vm_compute. discriminate.
Defined.

(** X5.  Of the object it reconciles, a pass of either kind changes the
    status and whether the token is among the finalizers, and nothing
    else: namespace, name, UID, deletion timestamp, owner references and
    spec stay, the finalizers of others stay in their order, and
    finalizers without duplicates stay without duplicates. *)
Theorem reconcile_keeps_what_is_not_its_own (finalizerName : string) :
  keeps_what_is_not_its_own finalizerName (AllocationReconciler.Reconcile finalizerName)
  /\ keeps_what_is_not_its_own finalizerName (ReleaseReconciler.Reconcile finalizerName).
Proof.
  split.
  - apply (engine_keeps_what_is_not_its_own finalizerName AllocationReconciler.logger
             AllocationReconciler.processUpdate AllocationReconciler.processDelete).
    + apply AllocationFacts.allocation_processDelete_only_logs.
    + apply MoreAllocationFacts.allocation_status_update.
  - apply (engine_keeps_what_is_not_its_own finalizerName ReleaseReconciler.logger
             ReleaseReconciler.processUpdate ReleaseReconciler.processDelete).
    + apply ReleaseFacts.release_processDelete_only_logs.
    + apply MoreReleaseFacts.release_status_update.
Qed.

Lemma reconcile_keeps_what_is_not_its_own_witness :
  let o := Sample.release (Some 1700%Z)
             ["example.com/first"; Sample.finalizerName; "example.com/last"] in
  let w : ReleaseReconciler.W := Sample.world (Some o) [] in
  let o' := Sample.release (Some 1700%Z) ["example.com/first"; "example.com/last"] in
  objects (ReleaseReconciler.Reconcile Sample.finalizerName Sample.key w).2 !! Sample.key
    = Some o'
  /\ otherFinalizers Sample.finalizerName (Finalizers (ObjMeta o'))
     = otherFinalizers Sample.finalizerName (Finalizers (ObjMeta o)).
Proof.
  intros o w o'.
  assert (Hl' : objects (ReleaseReconciler.Reconcile Sample.finalizerName Sample.key w).2
                  !! Sample.key = Some o') by (vm_compute; reflexivity).
  split; [exact Hl'|].
  apply (proj2 (reconcile_keeps_what_is_not_its_own Sample.finalizerName)
           Sample.key w o o' (named_lookup Sample.key w o eq_refl eq_refl) eq_refl Hl').
Defined.

(** X6.  A delete pass of either kind whose two patches go through returns
    no error and leaves the object with the token removed and every other
    finalizer in place; when the token was its only finalizer the object
    is gone from the store. *)
Theorem delete_pass_removes_only_the_token (finalizerName : string) :
  delete_pass_outcome finalizerName (AllocationReconciler.Reconcile finalizerName)
  /\ delete_pass_outcome finalizerName (ReleaseReconciler.Reconcile finalizerName).
Proof.
  split.
  - apply (engine_delete_pass_outcome finalizerName AllocationReconciler.logger
             AllocationReconciler.processUpdate AllocationReconciler.processDelete).
    apply AllocationFacts.allocation_processDelete_only_logs.
  - apply (engine_delete_pass_outcome finalizerName ReleaseReconciler.logger
             ReleaseReconciler.processUpdate ReleaseReconciler.processDelete).
    apply ReleaseFacts.release_processDelete_only_logs.
Qed.

Lemma delete_pass_removes_only_the_token_witness :
  let oa := Sample.allocation (Some 1700%Z) [Sample.finalizerName] in
  let wa : AllocationReconciler.W := Sample.world (Some oa) [] in
  let or := Sample.release (Some 1700%Z) ["example.com/other"; Sample.finalizerName] in
  let wr : ReleaseReconciler.W := Sample.world (Some or) [] in
  objects (AllocationReconciler.Reconcile Sample.finalizerName Sample.key wa).2
    = delete Sample.key (objects wa)
  /\ objects (ReleaseReconciler.Reconcile Sample.finalizerName Sample.key wr).2
     = <[Sample.key := Sample.release (Some 1700%Z) ["example.com/other"]]> (objects wr).
Proof.
  intros oa wa or wr. split.
  - apply (proj1 (delete_pass_removes_only_the_token Sample.finalizerName)
             Sample.key wa oa); reflexivity.
  - apply (proj2 (delete_pass_removes_only_the_token Sample.finalizerName)
             Sample.key wr or); reflexivity.
Defined.

(** What the update hook of the release reconciler returns, in full. *)
Lemma release_processUpdate_run (object : ReleaseReconciler.NodeReleaseRequest)
  (w : ReleaseReconciler.W) :
  let object' :=
    set_Status
      {| ReleaseReconciler.Conditions :=
           SetStatusCondition (now w) (ReleaseReconciler.Conditions (Status object))
             fulfilled |} object in
  ReleaseReconciler.processUpdate object w
  = ((object', zeroResult, None),
     (emit (EvInfo ReleaseReconciler.logger "Fulfilled request"
              (ReleaseReconciler.fulfillKV object'))
        (emit (EvInfo ReleaseReconciler.logger "Fulfilling request"
                 (ReleaseReconciler.fulfillKV object)) w).2).2).
Proof. reflexivity. Qed.

(** X7.  A release request nobody has claimed yet is fulfilled in two
    passes, when no call fails and nothing changes from outside: the first
    pass adds the token, the second leaves the condition Fulfilled with
    status True in the stored status, beside the conditions of other types
    it had; both return the zero result and no error, the spec is as
    before, and no secret is written. *)
Theorem release_request_is_fulfilled_in_two_passes (finalizerName : string)
  (request : NamespacedName) (w : ReleaseReconciler.W)
  (o : ReleaseReconciler.NodeReleaseRequest) :
  faults w = [] ->
  objects w !! request = Some o ->
  ObjectKey (ObjMeta o) = request ->
  unclaimed finalizerName o = true ->
  let R := ReleaseReconciler.Reconcile finalizerName request in
  (R w).1 = (zeroResult, None)
  /\ (R (R w).2).1 = (zeroResult, None)
  /\ secrets (R (R w).2).2 = secrets w
  /\ exists o2 t,
       objects (R (R w).2).2 = <[request := o2]> (objects w)
       /\ ObjMeta o2 = ObjMeta (withFinalizer finalizerName o)
       /\ Spec o2 = Spec o
       /\ fulfils (ReleaseReconciler.Conditions (Status o))
            (ReleaseReconciler.Conditions (Status o2)) t.
Proof.
  intros Hf Hl Hk Hu R.
  destruct (Reconcile_claim_then_update finalizerName ReleaseReconciler.logger
              ReleaseReconciler.processUpdate ReleaseReconciler.processDelete
              request w o ReleaseFacts.release_processDelete_only_logs
              ReleaseFacts.release_processUpdate_calm
              MoreReleaseFacts.release_status_update Hf Hl Hk Hu)
    as (Hr1 & _ & Hsh & _ & Hnext).
  match type of Hnext with
  | forall o2 r w3, ReleaseReconciler.processUpdate ?o1 ?wh = _ -> _ =>
      pose proof (Hnext _ _ _ (release_processUpdate_run o1 wh)) as (Hr2 & Ho2 & Hs2)
  end.
  split; [exact Hr1|]. split; [exact Hr2|]. split.
  - unfold R, ReleaseReconciler.Reconcile. rewrite Hs2. cbn. exact Hsh.
  - eexists _, _. split; [exact Ho2|]. split; [reflexivity|]. split; [reflexivity|].
    cbn. apply SetStatusCondition_fulfils.
Qed.

Lemma release_request_is_fulfilled_in_two_passes_witness :
  let o := set_Status
             {| ReleaseReconciler.Conditions :=
                  [Sample2.validated; Sample2.notFulfilled] |}
             (Sample.release None []) in
  let w : ReleaseReconciler.W := Sample.world (Some o) [] in
  let R := ReleaseReconciler.Reconcile Sample.finalizerName Sample.key in
  (R (R w).2).1 = (zeroResult, None)
  /\ exists o2 t,
       objects (R (R w).2).2 = <[Sample.key := o2]> (objects w)
       /\ fulfils (ReleaseReconciler.Conditions (Status o))
            (ReleaseReconciler.Conditions (Status o2)) t.
Proof.
  intros o w R.
  destruct (release_request_is_fulfilled_in_two_passes Sample.finalizerName
              Sample.key w o)
    as (_ & Hr2 & _ & o2 & t & Ho2 & _ & _ & Hful);
    [reflexivity | reflexivity | reflexivity | reflexivity |].
  split; [exact Hr2|]. exists o2, t. split; [exact Ho2 | exact Hful].
Defined.

(** X8.  An allocation request nobody has claimed yet is fulfilled in two
    passes, when no call fails, the scheme knows the kind and nothing
    changes from outside: the first pass adds the token; after the second
    the stored request has a node identifier, the address of the BMC, the
    name of the credentials secret (its own name followed by -bmc) and the
    condition Fulfilled with status True, its spec is as before, and the
    secret of that name is in the store with the credentials; the secrets
    under other keys are as before. *)
Theorem allocation_request_is_fulfilled_in_two_passes (finalizerName : string)
  (request : NamespacedName) (w : AllocationReconciler.W)
  (o : AllocationReconciler.NodeAllocationRequest) :
  faults w = [] ->
  "NodeAllocationRequest" ∈ scheme w ->
  secret_named (bmcKey o) w ->
  objects w !! request = Some o ->
  ObjectKey (ObjMeta o) = request ->
  unclaimed finalizerName o = true ->
  let R := AllocationReconciler.Reconcile finalizerName request in
  (R w).1 = (zeroResult, None)
  /\ (R (R w).2).1 = (zeroResult, None)
  /\ exists o2 t sec data,
       objects (R (R w).2).2 = <[request := o2]> (objects w)
       /\ ObjMeta o2 = ObjMeta (withFinalizer finalizerName o)
       /\ Spec o2 = Spec o
       /\ AllocationReconciler.NodeID (Status o2) <> ""
       /\ AllocationReconciler.StatusBMC (Status o2)
          = {| AllocationReconciler.Address := "https://mybmc.com";
               AllocationReconciler.CredentialsName := Name (ObjMeta o) +:+ "-bmc" |}
       /\ fulfils (AllocationReconciler.Conditions (Status o))
            (AllocationReconciler.Conditions (Status o2)) t
       /\ secrets (R (R w).2).2 = <[bmcKey o := sec]> (secrets w)
       /\ ObjectKey (SecretMeta sec) = bmcKey o
       /\ Data sec = Some (credentials data).
Proof.
  intros Hf Hsch Hsn Hl Hk Hu R.
  destruct (Reconcile_claim_then_update finalizerName AllocationReconciler.logger
              AllocationReconciler.processUpdate AllocationReconciler.processDelete
              request w o AllocationFacts.allocation_processDelete_only_logs
              AllocationFacts.allocation_processUpdate_calm
              MoreAllocationFacts.allocation_status_update Hf Hl Hk Hu)
    as (Hr1 & Hfh & Hsh & Hch & Hnext).
  match type of Hnext with
  | forall o2 r w3, AllocationReconciler.processUpdate ?a ?b = _ -> _ =>
      set (wh := b) in *; set (o1 := a) in *
  end.
  assert (Hfh' : faults wh = []) by exact Hfh.
  assert (Hsh' : secrets wh = secrets w) by exact Hsh.
  assert (Hch' : scheme wh = scheme w) by exact Hch.
  clearbody wh. clear Hfh Hsh Hch.
  assert (Hok : (AllocationReconciler.processUpdate o1 wh).1.2 = None).
  { apply MoreAllocationFacts.allocation_processUpdate_succeeds.
    - exact Hfh'.
    - by rewrite Hch'.
    - intros s Hs. rewrite Hsh' in Hs. by apply Hsn. }
  destruct (AllocationReconciler.processUpdate o1 wh) as [[[o2 r] err] w3] eqn:Eh.
  cbn in Hok. subst err.
  pose proof (MoreAllocationFacts.allocation_plain_update o1 wh) as Hplain.
  rewrite Eh in Hplain. cbn in Hplain. subst r.
  destruct (Hnext _ _ _ eq_refl) as (Hr2 & Ho2 & Hs2).
  destruct (AllocationFacts.allocation_processUpdate_ok _ _ _ _ _ Eh)
    as (_ & Hid & Hbmc & Hcs & sec & Hsec & Hkey & _ & data & Hdata).
  destruct (MoreAllocationFacts.allocation_status_update o1 wh) as (_ & Hm & Hsp).
  rewrite Eh in Hm, Hsp. cbn [fst] in Hm, Hsp.
  split; [exact Hr1|]. split; [exact Hr2|].
  exists o2, (now w3), sec, data.
  split; [exact Ho2|]. split; [exact Hm|]. split; [exact Hsp|].
  split; [exact Hid|]. split; [exact Hbmc|]. split.
  { rewrite Hcs. apply SetStatusCondition_fulfils. }
  split; [|split; [exact Hkey | exact Hdata]].
  unfold R, AllocationReconciler.Reconcile. rewrite Hs2, Hsec. by rewrite Hsh'.
Qed.

Lemma allocation_request_is_fulfilled_in_two_passes_witness :
  let o := Sample.allocation None [] in
  let w : AllocationReconciler.W := Sample.world (Some o) [] in
  let R := AllocationReconciler.Reconcile Sample.finalizerName Sample.key in
  (R (R w).2).1 = (zeroResult, None)
  /\ exists o2,
       objects (R (R w).2).2 = <[Sample.key := o2]> (objects w)
       /\ AllocationReconciler.NodeID (Status o2) <> "".
Proof.
  intros o w R.
  destruct (allocation_request_is_fulfilled_in_two_passes Sample.finalizerName
              Sample.key w o)
    as (_ & Hr2 & o2 & _ & _ & _ & Ho2 & _ & _ & Hid & _).
  - reflexivity.
  - vm_compute. apply list_elem_of_here.
  - apply secret_named_absent. reflexivity.
  - reflexivity.
  - reflexivity.
  - reflexivity.
  - split; [exact Hr2|]. exists o2. split; [exact Ho2 | exact Hid].
Defined.

(** X9.  What the update hooks do to the conditions.  The hook of the
    release reconciler never fails, makes no call to the API server (its
    events are its two log lines; secrets, scheduled faults and clock are
    as before) and hands back the request with the condition Fulfilled set
    to True at the time of the clock; the hook of the allocation
    reconciler, when it succeeds, does the same to the conditions.  In
    both, the conditions of other types stay as they were, in their order,
    and the transition time of Fulfilled is kept when it was True
    already. *)
Theorem update_hooks_set_fulfilled_and_keep_the_rest :
  (forall (o : ReleaseReconciler.NodeReleaseRequest) (w : ReleaseReconciler.W),
      let r := ReleaseReconciler.processUpdate o w in
      r.1.2 = None
      /\ fulfils (ReleaseReconciler.Conditions (Status o))
           (ReleaseReconciler.Conditions (Status r.1.1.1)) (now w)
      /\ pass_events (ReleaseReconciler.processUpdate o) w
         = [EvInfo ReleaseReconciler.logger "Fulfilling request"
              (ReleaseReconciler.fulfillKV o);
            EvInfo ReleaseReconciler.logger "Fulfilled request"
              (ReleaseReconciler.fulfillKV r.1.1.1)]
      /\ secrets r.2 = secrets w /\ faults r.2 = faults w /\ now r.2 = now w)
  /\ (forall (o o' : AllocationReconciler.NodeAllocationRequest) (r : Result)
             (w w' : AllocationReconciler.W),
         AllocationReconciler.processUpdate o w = ((o', r, None), w') ->
         fulfils (AllocationReconciler.Conditions (Status o))
           (AllocationReconciler.Conditions (Status o')) (now w')).
Proof.
  split.
  - intros o w r. subst r. rewrite release_processUpdate_run. cbn [fst snd].
    split; [reflexivity|]. split; [apply SetStatusCondition_fulfils|].
    split; [|done].
    apply pass_events_app. rewrite release_processUpdate_run. cbn.
    by rewrite <- app_assoc.
  - intros o o' r w w' E.
    destruct (AllocationFacts.allocation_processUpdate_ok _ _ _ _ _ E)
      as (_ & _ & _ & -> & _).
    apply SetStatusCondition_fulfils.
Qed.

Lemma update_hooks_set_fulfilled_and_keep_the_rest_witness :
  let o := Sample.allocation None [Sample.finalizerName] in
  let w : AllocationReconciler.W := Sample.world (Some o) [] in
  let r := AllocationReconciler.processUpdate o w in
  fulfils [] (AllocationReconciler.Conditions (Status r.1.1.1)) (now r.2).
Proof.
  intros o w r.
  apply (proj2 update_hooks_set_fulfilled_and_keep_the_rest o r.1.1.1 r.1.1.2 w r.2).
  vm_compute. reflexivity.
Defined.

(** The pass in which the update hook fails writes no secret of its own. *)
Lemma Reconcile_update_failed_secrets {Sp St} `{Schema Sp St}
  (finalizerName logger : string)
  (processUpdate processDelete :
     Object Sp St -> M (World (Object Sp St)) (Object Sp St * Result * error))
  (request : NamespacedName) (w : World (Object Sp St)) (o : Object Sp St) :
  (client_Get request w).1 = inl o ->
  unclaimed finalizerName o = false ->
  deleting o = false ->
  let wh := (emit (EvHook Apply o) (client_Get request w).2).2 in
  (processUpdate o wh).1.2 <> None ->
  secrets wh = secrets w
  /\ secrets (Reconcile finalizerName logger processUpdate processDelete request w).2
     = secrets (processUpdate o wh).2.
Proof.
  intros Hg Hu Hd wh Hfail.
  pose proof (client_Get_inl request w o Hg) as (_ & _ & Eg).
  split; [subst wh; by rewrite Eg|].
  rewrite (Reconcile_update finalizerName logger processUpdate processDelete
             request w o Hg Hu Hd).
  fold wh. destruct (processUpdate o wh) as [[[copy result] [e|]] w3]; [done|].
  by cbn in Hfail.
Qed.

(** X10.  When the update hook of the allocation reconciler fails it has
    written nothing: the stored objects and the secrets are as before, and
    the working copy it hands back has the metadata, the spec, the BMC and
    the conditions it came with (a node identifier it may have generated
    is in the working copy only).  The pass in which it fails leaves the
    secrets as they were. *)
Theorem failed_allocation_update_writes_nothing :
  (forall (object object' : AllocationReconciler.NodeAllocationRequest)
          (result : Result) (e : Err) (w w' : AllocationReconciler.W),
      AllocationReconciler.processUpdate object w = ((object', result, Some e), w') ->
      objects w' = objects w /\ secrets w' = secrets w
      /\ ObjMeta object' = ObjMeta object /\ Spec object' = Spec object
      /\ AllocationReconciler.StatusBMC (Status object')
         = AllocationReconciler.StatusBMC (Status object)
      /\ AllocationReconciler.Conditions (Status object')
         = AllocationReconciler.Conditions (Status object))
  /\ (forall (finalizerName : string) (request : NamespacedName)
             (w : AllocationReconciler.W)
             (o : AllocationReconciler.NodeAllocationRequest),
         (client_Get request w).1 = inl o ->
         unclaimed finalizerName o = false ->
         deleting o = false ->
         (AllocationReconciler.processUpdate o
            (emit (EvHook Apply o) (client_Get request w).2).2).1.2 <> None ->
         secrets (AllocationReconciler.Reconcile finalizerName request w).2
         = secrets w).
Proof.
  split.
  - intros object object' result e w w' E.
    destruct (MoreAllocationFacts.allocation_processUpdate_failed _ _ _ _ _ _ E)
      as (Hs & Hb & Hc).
    destruct (AllocationFacts.allocation_processUpdate_frame object w)
      as (Ho & _ & Hm & Hsp & _).
    rewrite E in Ho, Hm, Hsp. cbn in Ho, Hm, Hsp. done.
  - intros finalizerName request w o Hg Hu Hd Hfail.
    destruct (Reconcile_update_failed_secrets finalizerName AllocationReconciler.logger
                AllocationReconciler.processUpdate AllocationReconciler.processDelete
                request w o Hg Hu Hd Hfail) as [Hsh Hs].
    unfold AllocationReconciler.Reconcile. rewrite Hs.
    destruct (AllocationReconciler.processUpdate o
                (emit (EvHook Apply o) (client_Get request w).2).2)
      as [[[copy result] [e|]] w3] eqn:E; [|done].
    destruct (MoreAllocationFacts.allocation_processUpdate_failed _ _ _ _ _ _ E)
      as (Hs3 & _). cbn. by rewrite Hs3.
Qed.

Lemma failed_allocation_update_writes_nothing_witness :
  let o := Sample.allocation None [Sample.finalizerName] in
  let w := Sample2.withSecret o [None; None; Some ErrConflict] in
  let r := AllocationReconciler.processUpdate o
             (emit (EvHook Apply o) (client_Get Sample.key w).2).2 in
  r.1.2 = Some ErrConflict
  /\ secrets r.2 = secrets w
  /\ AllocationReconciler.NodeID (Status r.1.1.1) <> ""
  /\ secrets (AllocationReconciler.Reconcile Sample.finalizerName Sample.key w).2
     = secrets w.
Proof.
  intros o w r.
  split; [reflexivity|]. split.
  - destruct (proj1 failed_allocation_update_writes_nothing
                o r.1.1.1 r.1.1.2 ErrConflict
                (emit (EvHook Apply o) (client_Get Sample.key w).2).2 r.2)
      as (_ & Hs & _); [vm_compute; reflexivity | exact Hs].
  - split; [vm_compute; discriminate|].
    apply (proj2 failed_allocation_update_writes_nothing Sample.finalizerName
             Sample.key w o); [reflexivity | reflexivity | reflexivity |].
    vm_compute. discriminate.
Defined.

(** The mutate function of the allocation hook needs the kind of the
    request in the scheme. *)
Lemma allocation_mutateSecret_needs_kind
  (object : AllocationReconciler.NodeAllocationRequest) (sch : list string)
  (src sec : Secret) :
  AllocationReconciler.mutateSecret object sch src = (sec, None) ->
  "NodeAllocationRequest" ∈ sch.
Proof.
  unfold AllocationReconciler.mutateSecret, SetOwnerReference.
  destruct (validateOwner _ _); [done|].
  destruct (bool_decide _) eqn:Hk; [|done].
  intros _. by apply bool_decide_eq_true_1 in Hk.
Qed.



(** X12.  When the update hook of the allocation reconciler succeeds: it
    does whenever no call fails, the scheme knows the kind of the request
    and the secret stored under the credentials key, if any, carries that
    key; and it never does when the scheme does not know the kind. *)
Theorem allocation_update_needs_the_kind_in_the_scheme
  (object : AllocationReconciler.NodeAllocationRequest) (w : AllocationReconciler.W) :
  (faults w = [] ->
   "NodeAllocationRequest" ∈ scheme w ->
   secret_named (bmcKey object) w ->
   (AllocationReconciler.processUpdate object w).1.2 = None)
  /\ ((AllocationReconciler.processUpdate object w).1.2 = None ->
      "NodeAllocationRequest" ∈ scheme w).
Proof.
  split.
  - apply MoreAllocationFacts.allocation_processUpdate_succeeds.
  - intros Hok.
    destruct (AllocationReconciler.processUpdate object w) as [[[o' r] err] w'] eqn:E.
    cbn in Hok. subst err.
    destruct (AllocationFacts.allocation_processUpdate_ok _ _ _ _ _ E)
      as (_ & _ & _ & _ & sec & _ & _ & Hm & _).
    by apply allocation_mutateSecret_needs_kind in Hm.
Qed.

Lemma allocation_update_needs_the_kind_in_the_scheme_witness :
  let o := Sample.allocation None [Sample.finalizerName] in
  let w := Sample2.withSecret o [] in
  (AllocationReconciler.processUpdate o w).1.2 = None
  /\ "NodeAllocationRequest" ∈ scheme w.
Proof.
  intros o w.
  assert (Hok : (AllocationReconciler.processUpdate o w).1.2 = None).
  { apply (proj1 (allocation_update_needs_the_kind_in_the_scheme o w)).
    - reflexivity.
    - vm_compute. apply list_elem_of_here.
    - apply (secret_named_lookup _ _ Sample2.oldSecret); reflexivity. }
  split; [exact Hok|].
  apply (proj2 (allocation_update_needs_the_kind_in_the_scheme o w) Hok).
Defined.

(** A pass of the allocation reconciler in which nothing fails. *)
Lemma allocation_Reconcile_succeeds (finalizerName : string)
  (request : NamespacedName) (w : AllocationReconciler.W) :
  faults w = [] ->
  named request w ->
  "NodeAllocationRequest" ∈ scheme w ->
  (forall o, objects w !! request = Some o -> secret_named (bmcKey o) w) ->
  (AllocationReconciler.Reconcile finalizerName request w).1 = (zeroResult, None).
Proof.
  intros Hf Hn Hsch Hsn.
  pose proof (engine_never_requeues finalizerName AllocationReconciler.logger
                AllocationReconciler.processUpdate AllocationReconciler.processDelete
                MoreAllocationFacts.allocation_plain_update
                (fun o w => eq_refl) request w) as Hres.
  assert (Herr : (AllocationReconciler.Reconcile finalizerName request w).1.2 = None).
  { apply (Reconcile_succeeds finalizerName AllocationReconciler.logger
             AllocationReconciler.processUpdate AllocationReconciler.processDelete).
    - apply AllocationFacts.allocation_processDelete_only_logs.
    - apply AllocationFacts.allocation_processUpdate_calm.
    - apply MoreAllocationFacts.allocation_status_update.
    - exact Hf.
    - exact Hn.
    - intros o Hl.
      assert (Hg : (client_Get request w).1 = inl o).
      { rewrite client_Get_lookup by (by apply nextFault_nil). by rewrite Hl. }
      pose proof (client_Get_inl request w o Hg) as (_ & _ & Eg).
      apply MoreAllocationFacts.allocation_processUpdate_succeeds.
      + rewrite Eg. cbn. by rewrite Hf.
      + rewrite Eg. exact Hsch.
      + intros s Hs. rewrite Eg in Hs. by apply (Hsn o Hl). }
  unfold AllocationReconciler.Reconcile in *.
  destruct (Reconcile _ _ _ _ request w) as [[r e] w']. cbn in *. by subst.
Qed.

(** X13.  A pass in which no call fails returns the zero result and no
    error.  For the release reconciler that is all it takes; for the
    allocation reconciler the scheme has to know the kind of the request,
    and the secret stored under the credentials key of the request, if
    any, has to carry that key. *)
Theorem reconcile_succeeds_when_nothing_fails (finalizerName : string) :
  (forall (request : NamespacedName) (w : ReleaseReconciler.W),
      faults w = [] ->
      named request w ->
      (ReleaseReconciler.Reconcile finalizerName request w).1 = (zeroResult, None))
  /\ (forall (request : NamespacedName) (w : AllocationReconciler.W),
         faults w = [] ->
         named request w ->
         "NodeAllocationRequest" ∈ scheme w ->
         (forall o, objects w !! request = Some o -> secret_named (bmcKey o) w) ->
         (AllocationReconciler.Reconcile finalizerName request w).1
         = (zeroResult, None)).
Proof.
  split; [|apply allocation_Reconcile_succeeds].
  intros request w Hf Hn.
  pose proof (engine_never_requeues finalizerName ReleaseReconciler.logger
                ReleaseReconciler.processUpdate ReleaseReconciler.processDelete
                MoreReleaseFacts.release_plain_update
                (fun o w => eq_refl) request w) as Hres.
  assert (Herr : (ReleaseReconciler.Reconcile finalizerName request w).1.2 = None).
  { apply (Reconcile_succeeds finalizerName ReleaseReconciler.logger
             ReleaseReconciler.processUpdate ReleaseReconciler.processDelete).
    - apply ReleaseFacts.release_processDelete_only_logs.
    - apply ReleaseFacts.release_processUpdate_calm.
    - apply MoreReleaseFacts.release_status_update.
    - exact Hf.
    - exact Hn.
    - intros o _. reflexivity. }
  unfold ReleaseReconciler.Reconcile in *.
  destruct (Reconcile _ _ _ _ request w) as [[r e] w']. cbn in *. by subst.
Qed.

Lemma reconcile_succeeds_when_nothing_fails_witness :
  let or := Sample.release (Some 1700%Z) [Sample.finalizerName] in
  let wr : ReleaseReconciler.W := Sample.world (Some or) [] in
  let oa := Sample.allocation None [Sample.finalizerName] in
  let wa := Sample2.withSecret oa [] in
  (ReleaseReconciler.Reconcile Sample.finalizerName Sample.key wr).1
    = (zeroResult, None)
  /\ (AllocationReconciler.Reconcile Sample.finalizerName Sample.key wa).1
     = (zeroResult, None).
Proof.
  intros or wr oa wa. split.
  - apply (proj1 (reconcile_succeeds_when_nothing_fails Sample.finalizerName)
             Sample.key wr); [reflexivity|].
    apply (named_lookup _ _ or); reflexivity.
  - apply (proj2 (reconcile_succeeds_when_nothing_fails Sample.finalizerName)
             Sample.key wa).
    + reflexivity.
    + apply (named_lookup _ _ oa); reflexivity.
    + vm_compute. apply list_elem_of_here.
    + intros o Hl. vm_compute in Hl. injection Hl as <-.
      apply (secret_named_lookup _ _ Sample2.oldSecret); reflexivity.
Defined.

(** ** The program *)

(** [main], with the look-ups in the scheme resolved: the kinds of the
    plugin API are registered before the reconcilers are. *)
Lemma main_run (boot : Program.Boot) :
  let kindA := @schema_kind _ _ AllocationReconciler.schema in
  let kindR := @schema_kind _ _ ReleaseReconciler.schema in
  let sch :=
    Program.builtinKinds boot ++ [kindA; kindR] ++ Program.otherPluginKinds boot in
  let allocation := (kindA, AllocationReconciler.logger) in
  let release := (kindR, ReleaseReconciler.logger) in
  Program.main boot =
    match Program.configError boot with
    | Some e =>
        Program.mkRun (Program.Exited 1) None
          [Program.ErrorLine e "unable to get kubeconfig"]
    | None =>
    match Program.newManagerError boot with
    | Some e =>
        Program.mkRun (Program.Exited 1) None
          [Program.ErrorLine e "Failed to create controller manager"]
    | None =>
    match Program.addToSchemeError boot with
    | Some e =>
        Program.mkRun (Program.Exited 1)
          (Some (Program.mkManager (Program.builtinKinds boot) [] false))
          [Program.ErrorLine e "Failed to add plugin API types to the scheme"]
    | None =>
    match Program.completeError boot kindA with
    | Some e =>
        Program.mkRun (Program.Exited 1) (Some (Program.mkManager sch [] false))
          [Program.ErrorLine e "Failed to create allocation reconciler"]
    | None =>
    match Program.completeError boot kindR with
    | Some e =>
        Program.mkRun (Program.Exited 1)
          (Some (Program.mkManager sch [allocation] false))
          [Program.ErrorLine e "Failed to create release reconciler"]
    | None =>
    match Program.startError boot with
    | Some e =>
        Program.mkRun (Program.Exited 1)
          (Some (Program.mkManager sch [allocation; release] true))
          [Program.InfoLine "Starting controller manager";
           Program.ErrorLine e "Controller manager failed"]
    | None =>
        Program.mkRun Program.Returned
          (Some (Program.mkManager sch [allocation; release] true))
          [Program.InfoLine "Starting controller manager"]
    end end end end end end.
Proof.
  intros kindA kindR sch allocation release.
  unfold Program.main, Program.ctrl_NewManager, Program.pluginapi_AddToScheme.
  destruct (Program.configError boot); [done|].
  destruct (Program.newManagerError boot); [done|].
  destruct (Program.addToSchemeError boot); [done|].
  unfold Program.Complete. cbn [Program.mgrScheme Program.mgrControllers
                                  Program.mgrStarted].
  fold kindA kindR. fold sch.
  assert (HA : kindA ∈ sch).
  { apply elem_of_app. right. apply list_elem_of_here. }
  assert (HR : kindR ∈ sch).
  { apply elem_of_app. right. apply list_elem_of_further, list_elem_of_here. }
  rewrite (bool_decide_eq_true_2 _ HA).
  destruct (Program.completeError boot kindA); [done|].
  cbn [Program.mgrScheme Program.mgrControllers Program.mgrStarted].
  rewrite (bool_decide_eq_true_2 _ HR).
  destruct (Program.completeError boot kindR); [done|].
  unfold Program.manager_Start.
  cbn [Program.mgrScheme Program.mgrControllers Program.mgrStarted app].
  by destruct (Program.startError boot).
Qed.

(** The manager [main] has started knows the kinds of the plugin API. *)
Lemma main_started (boot : Program.Boot) (m : Program.Manager) :
  Program.manager (Program.main boot) = Some m ->
  Program.mgrStarted m = true ->
  Program.mgrControllers m
  = [(@schema_kind _ _ AllocationReconciler.schema, AllocationReconciler.logger);
     (@schema_kind _ _ ReleaseReconciler.schema, ReleaseReconciler.logger)]
  /\ Program.mgrScheme m
     = Program.builtinKinds boot
         ++ [@schema_kind _ _ AllocationReconciler.schema;
             @schema_kind _ _ ReleaseReconciler.schema]
         ++ Program.otherPluginKinds boot
  /\ Program.configError boot = None
  /\ Program.newManagerError boot = None
  /\ Program.addToSchemeError boot = None
  /\ Program.completeError boot (@schema_kind _ _ AllocationReconciler.schema) = None
  /\ Program.completeError boot (@schema_kind _ _ ReleaseReconciler.schema) = None.
Proof.
  rewrite main_run. cbv zeta.
  destruct (Program.configError boot); [done|].
  destruct (Program.newManagerError boot); [done|].
  destruct (Program.addToSchemeError boot); [by intros [= <-]|].
  destruct (Program.completeError boot _); [by intros [= <-]|].
  destruct (Program.completeError boot _); [by intros [= <-]|].
  by destruct (Program.startError boot); intros [= <-].
Qed.

(** X14.  [main] starts only a complete manager: when the manager has been
    started, every step before succeeded, the scheme of the manager knows
    the kinds it was created with and the two kinds the reconcilers are
    for, the allocation reconciler and then the release reconciler are
    registered with it, each for its kind and with its logger, and the log
    starts with the line Starting controller manager. *)
Theorem main_starts_only_a_complete_manager (boot : Program.Boot)
  (m : Program.Manager) :
  Program.manager (Program.main boot) = Some m ->
  Program.mgrStarted m = true ->
  Program.mgrControllers m
  = [(@schema_kind _ _ AllocationReconciler.schema, AllocationReconciler.logger);
     (@schema_kind _ _ ReleaseReconciler.schema, ReleaseReconciler.logger)]
  /\ (forall kind,
        kind ∈ Program.builtinKinds boot
        \/ kind = @schema_kind _ _ AllocationReconciler.schema
        \/ kind = @schema_kind _ _ ReleaseReconciler.schema ->
        kind ∈ Program.mgrScheme m)
  /\ (Program.configError boot = None
      /\ Program.newManagerError boot = None
      /\ Program.addToSchemeError boot = None
      /\ Program.completeError boot (@schema_kind _ _ AllocationReconciler.schema)
         = None
      /\ Program.completeError boot (@schema_kind _ _ ReleaseReconciler.schema)
         = None)
  /\ head (Program.output (Program.main boot))
     = Some (Program.InfoLine "Starting controller manager").
Proof.
  intros Hm Hs.
  destruct (main_started boot m Hm Hs) as (Hc & Hsch & H1 & H2 & H3 & H4 & H5).
  split; [exact Hc|]. split; [|split; [done|]].
  - intros kind Hkind. rewrite Hsch, !elem_of_app, !elem_of_cons. tauto.
  - rewrite main_run. cbv zeta. rewrite H1, H2, H3, H4, H5.
    by destruct (Program.startError boot).
Qed.

Lemma main_starts_only_a_complete_manager_witness :
  let m := {| Program.mgrScheme :=
                ["Secret"; "NodeAllocationRequest"; "NodeReleaseRequest";
                 "NodeAllocationRequestList"; "NodeReleaseRequestList"];
              Program.mgrControllers :=
                [("NodeAllocationRequest", "allocation");
                 ("NodeReleaseRequest", "release")];
              Program.mgrStarted := true |} in
  Program.manager (Program.main Program.calmBoot) = Some m
  /\ head (Program.output (Program.main Program.calmBoot))
     = Some (Program.InfoLine "Starting controller manager").
Proof.
  intros m. split; [reflexivity|].
  apply (main_starts_only_a_complete_manager Program.calmBoot m); reflexivity.
Defined.

(** X15.  How [main] ends.  When no step fails it returns, with one line
    in the log and the manager started.  When a step fails it exits with
    status 1 at the first failing step: the log ends with the one error
    line of the run, the steps after it are not taken, and the manager is
    started only when it was [Start] itself that failed. *)
Theorem main_exits_with_one_at_the_first_failure (boot : Program.Boot) :
  (Program.quietBoot boot ->
   Program.exit (Program.main boot) = Program.Returned
   /\ Program.output (Program.main boot)
      = [Program.InfoLine "Starting controller manager"]
   /\ exists m, Program.manager (Program.main boot) = Some m
                /\ Program.mgrStarted m = true)
  /\ (~ Program.quietBoot boot ->
      Program.exit (Program.main boot) = Program.Exited 1
      /\ (exists e msg,
            last (Program.output (Program.main boot)) = Some (Program.ErrorLine e msg)
            /\ filter (fun l => Program.isError l = true)
                 (Program.output (Program.main boot))
               = [Program.ErrorLine e msg])
      /\ (forall m,
            Program.manager (Program.main boot) = Some m ->
            Program.mgrStarted m = true ->
            Program.startError boot <> None)).
Proof.
  split.
  - intros (H1 & H2 & H3 & H4 & H5 & H6).
    rewrite main_run. cbv zeta. rewrite H1, H2, H3, H4, H5, H6. cbn.
    split; [done|]. split; [done|]. by eexists.
  - intros Hq.
    assert (Hstart : forall m,
               Program.manager (Program.main boot) = Some m ->
               Program.mgrStarted m = true ->
               Program.startError boot <> None).
    { intros m Hm Hs Hn.
      destruct (main_started boot m Hm Hs) as (_ & _ & H1 & H2 & H3 & H4 & H5).
      by apply Hq. }
    split; [|split; [|exact Hstart]].
    + rewrite main_run. cbv zeta.
      destruct (Program.configError boot) eqn:H1; [done|].
      destruct (Program.newManagerError boot) eqn:H2; [done|].
      destruct (Program.addToSchemeError boot) eqn:H3; [done|].
      destruct (Program.completeError boot _) eqn:H4; [done|].
      destruct (Program.completeError boot _) eqn:H5 in |- *; [done|].
      destruct (Program.startError boot) eqn:H6; [done|].
      by destruct Hq.
    + rewrite main_run. cbv zeta.
      destruct (Program.configError boot) eqn:H1; [by eexists _, _|].
      destruct (Program.newManagerError boot) eqn:H2; [by eexists _, _|].
      destruct (Program.addToSchemeError boot) eqn:H3; [by eexists _, _|].
      destruct (Program.completeError boot _) eqn:H4; [by eexists _, _|].
      destruct (Program.completeError boot _) eqn:H5 in |- *; [by eexists _, _|].
      destruct (Program.startError boot) eqn:H6; [by eexists _, _|].
      by destruct Hq.
Qed.

Lemma main_exits_with_one_at_the_first_failure_witness :
  Program.exit (Program.main Program.calmBoot) = Program.Returned
  /\ Program.exit (Program.main Program.brokenBoot) = Program.Exited 1.
Proof.
  split.
  - apply (proj1 (main_exits_with_one_at_the_first_failure Program.calmBoot)).
    unfold Program.quietBoot. repeat split; reflexivity.
  - apply (proj2 (main_exits_with_one_at_the_first_failure Program.brokenBoot)).
    intros (_ & _ & _ & _ & H & _). vm_compute in H. discriminate.
Defined.

(** X16.  The scheme [main] prepares is enough for the allocation
    reconciler: with the scheme of the manager [main] has started, a pass
    of the allocation reconciler in which no call fails returns the zero
    result and no error, and its update hook succeeds on the stored
    request. *)
Theorem started_manager_reconciles_without_error (boot : Program.Boot)
  (m : Program.Manager) (finalizerName : string) (request : NamespacedName) :
  Program.manager (Program.main boot) = Some m ->
  Program.mgrStarted m = true ->
  (forall w : AllocationReconciler.W,
      scheme w = Program.mgrScheme m ->
      faults w = [] ->
      named request w ->
      (forall o, objects w !! request = Some o -> secret_named (bmcKey o) w) ->
      (AllocationReconciler.Reconcile finalizerName request w).1 = (zeroResult, None)
      /\ forall o,
           objects w !! request = Some o ->
           (AllocationReconciler.processUpdate o w).1.2 = None).
Proof.
  intros Hm Hs w Hsch Hf Hn Hsn.
  destruct (main_started boot m Hm Hs) as (_ & Hk & _).
  assert (HA : "NodeAllocationRequest" ∈ scheme w).
  { rewrite Hsch, Hk. apply elem_of_app. right. apply list_elem_of_here. }
  split.
  - by apply allocation_Reconcile_succeeds.
  - intros o Hl. apply MoreAllocationFacts.allocation_processUpdate_succeeds; auto.
Qed.

Lemma started_manager_reconciles_without_error_witness :
  let m := {| Program.mgrScheme :=
                ["Secret"; "NodeAllocationRequest"; "NodeReleaseRequest";
                 "NodeAllocationRequestList"; "NodeReleaseRequestList"];
              Program.mgrControllers :=
                [("NodeAllocationRequest", "allocation");
                 ("NodeReleaseRequest", "release")];
              Program.mgrStarted := true |} in
  let o := Sample.allocation None [Sample.finalizerName] in
  let w : AllocationReconciler.W :=
    {| objects := {[ Sample.key := o ]}; secrets := ∅;
       scheme := Program.mgrScheme m; faults := []; entropy := []; now := 1000;
       trace := [] |} in
  (AllocationReconciler.Reconcile Sample.finalizerName Sample.key w).1
  = (zeroResult, None).
Proof.
  intros m o w.
  apply (started_manager_reconciles_without_error Program.calmBoot m
           Sample.finalizerName Sample.key eq_refl eq_refl w).
  - reflexivity.
  - reflexivity.
  - apply (named_lookup _ _ o); reflexivity.
  - intros o' _. apply secret_named_absent. reflexivity.
Defined.

(** ** More on the shape of a pass *)

Lemma hooks_called_none {O} (evs : list (Event O)) :
  Forall (fun e => calls_hook e = false) evs -> hooks_called evs = [].
Proof.
  induction 1 as [|e evs He _ IH]; [done|].
  unfold hooks_called in *. cbn. rewrite IH. by destruct e.
Qed.

Lemma hooks_called_quiet {O} (evs : list (Event O)) :
  Forall (fun e => quiet e = true) evs -> hooks_called evs = [].
Proof.
  intros Hq. apply hooks_called_none.
  eapply Forall_impl; [exact Hq|]. intros e. apply quiet_calls_hook.
Qed.

Section ShapeFacts.
Context {Sp St : Type} `{Schema Sp St}.
Local Abbreviation O := (Object Sp St).
Local Abbreviation W := (World (Object Sp St)).
Variable finalizerName logger : string.
Variable processUpdate processDelete : O -> M W (O * Result * error).

Local Abbreviation R := (Reconcile finalizerName logger processUpdate processDelete).

Lemma engine_one_hook_per_pass :
  quiet_hook processUpdate -> quiet_hook processDelete ->
  one_hook_per_pass finalizerName R.
Proof.
  intros Hu Hd request w.
  destruct (Reconcile_shape finalizerName logger processUpdate processDelete
              request w Hu Hd) as (evs & Ht & Hshape).
  rewrite (pass_events_app _ _ _ Ht).
  destruct ((client_Get request w).1) as [o|e].
  - destruct (unclaimed finalizerName o).
    + destruct Hshape as (err & logs & -> & Hq).
      unfold hooks_called. cbn. by apply hooks_called_quiet.
    + destruct (deleting o).
      * destruct Hshape as (rest & -> & Hn).
        unfold hooks_called. cbn. f_equal. by apply hooks_called_none.
      * destruct Hshape as (rest & -> & Hn).
        unfold hooks_called. cbn. f_equal. apply hooks_called_none.
        eapply Forall_impl; [exact Hn|]. by intros e [? _].
  - destruct Hshape as (log & -> & Hq).
    unfold hooks_called. cbn. by destruct log.
Qed.

Lemma engine_failed_status_patch_is_returned :
  failed_status_patch_is_returned finalizerName logger R processUpdate.
Proof.
  intros request w o copy result w3 e Hg Hu Hd E Hf.
  rewrite (Reconcile_update finalizerName logger processUpdate processDelete
             request w o Hg Hu Hd).
  rewrite E.
  destruct (client_Status_Patch_run copy o w3)
    as (r & err & w4 & Ep & Hs & _ & _ & _ & Ht & Hcase).
  rewrite Ep. rewrite Hf in Hcase. destruct Hcase as (-> & -> & Ho).
  cbn. rewrite Ho, Hs, Ht. by rewrite <- app_assoc.
Qed.
End ShapeFacts.

(** X17.  A pass calls at most one hook, decided by the object it fetched:
    none when the Get fails or when the object is neither being deleted
    nor carrying the token, the cleanup hook when the object is being
    deleted, the update hook when it carries the token and is not being
    deleted; and the hook gets the object as fetched. *)
Theorem reconcile_calls_one_hook_per_pass (finalizerName : string) :
  one_hook_per_pass finalizerName (AllocationReconciler.Reconcile finalizerName)
  /\ one_hook_per_pass finalizerName (ReleaseReconciler.Reconcile finalizerName).
Proof.
  split.
  - apply (engine_one_hook_per_pass finalizerName AllocationReconciler.logger
             AllocationReconciler.processUpdate AllocationReconciler.processDelete).
    + apply AllocationFacts.allocation_processUpdate_quiet.
    + apply (cleanup_only_logs_quiet AllocationReconciler.logger _
               AllocationFacts.allocation_processDelete_only_logs).
  - apply (engine_one_hook_per_pass finalizerName ReleaseReconciler.logger
             ReleaseReconciler.processUpdate ReleaseReconciler.processDelete).
    + apply ReleaseFacts.release_processUpdate_quiet.
    + apply (cleanup_only_logs_quiet ReleaseReconciler.logger _
               ReleaseFacts.release_processDelete_only_logs).
Qed.

(** X18.  When the update hook has succeeded and the status patch after it
    is refused, the pass of either kind logs the error (Failed to updated
    status) and returns it with the result of the hook; the stored objects
    are as the hook left them, so the status is not saved, and the secrets
    are as the hook left them too: what the hook of the allocation
    reconciler wrote to the credentials secret stays written. *)
Theorem failed_status_patch_is_logged_and_returned (finalizerName : string) :
  failed_status_patch_is_returned finalizerName AllocationReconciler.logger
    (AllocationReconciler.Reconcile finalizerName) AllocationReconciler.processUpdate
  /\ failed_status_patch_is_returned finalizerName ReleaseReconciler.logger
       (ReleaseReconciler.Reconcile finalizerName) ReleaseReconciler.processUpdate.
Proof. split; apply engine_failed_status_patch_is_returned. Qed.

Lemma failed_status_patch_is_logged_and_returned_witness :
  let o := Sample.allocation None [Sample.finalizerName] in
  let w : AllocationReconciler.W :=
    Sample.world (Some o) [None; None; None; Some ErrConflict] in
  let R := AllocationReconciler.Reconcile Sample.finalizerName Sample.key in
  (R w).1 = (zeroResult, Some ErrConflict)
  /\ objects (R w).2 = objects w
  /\ is_Some (secrets (R w).2 !! bmcKey o).
Proof.
  intros o w R.
  pose (r := AllocationReconciler.processUpdate o
               (emit (EvHook Apply o) (client_Get Sample.key w).2).2).
  destruct (proj1 (failed_status_patch_is_logged_and_returned Sample.finalizerName)
              Sample.key w o r.1.1.1 r.1.1.2 r.2 ErrConflict)
    as (Hr & Ho & Hs & _);
    [reflexivity | reflexivity | reflexivity | vm_compute; reflexivity | reflexivity |].
  split; [exact Hr|]. split.
  - unfold R. rewrite Ho. reflexivity.
  - unfold R. rewrite Hs. vm_compute. by eexists.
Defined.

(** ** Failed updates *)

Section RefusedFacts.
Context {O : Type}.
Local Abbreviation W := (World O).

(** A [CreateOrPatch] that fails has written no secret: the create or the
    patch it sent, if any, was refused. *)
Lemma CreateOrPatch_refused (obj : Secret) (f : Secret -> Secret * error) (w w' : W)
  (sec : Secret) (op : OperationResult) (e : Err) :
  CreateOrPatch obj f w = ((sec, op, Some e), w') ->
  exists evs,
    trace w' = trace w ++ evs /\ Forall (fun ev => writes_secret ev = false) evs.
Proof.
  unfold CreateOrPatch.
  destruct (secret_Get_run (ObjectKey (SecretMeta obj)) w)
    as (got & w1 & Eg & _ & _ & _ & _ & _ & _ & Ht1).
  step Eg. destruct got as [before|e0].
  - destruct (mutate f _ before) as [obj' [e1|]].
    { run. intros [= <- <- <- <-]. eexists. split; [exact Ht1|]. by repeat constructor. }
    case_decide; [by run|].
    destruct (secret_Patch_run obj' before w1)
      as (r & err & w2 & Ep & _ & _ & _ & _ & Ht2 & _).
    step Ep. destruct err as [e1|]; [|by run]. run. intros [= <- <- <- <-].
    eexists. split; [rewrite Ht2, Ht1, <- app_assoc; reflexivity|].
    by repeat constructor.
  - destruct (negb (IsNotFound (Some e0))).
    { run. intros [= <- <- <- <-]. eexists. split; [exact Ht1|]. by repeat constructor. }
    destruct (mutate f _ obj) as [obj' [e1|]].
    { run. intros [= <- <- <- <-]. eexists. split; [exact Ht1|]. by repeat constructor. }
    destruct (secret_Create_run obj' w1) as (err & w2 & Ec & _ & _ & _ & _ & Ht2 & _).
    step Ec. destruct err as [e1|]; [|by run]. run. intros [= <- <- <- <-].
    eexists. split; [rewrite Ht2, Ht1, <- app_assoc; reflexivity|].
    by repeat constructor.
Qed.
End RefusedFacts.

Lemma allocation_processUpdate_refused
  (object object' : AllocationReconciler.NodeAllocationRequest) (result : Result)
  (e : Err) (w w' : AllocationReconciler.W) :
  AllocationReconciler.processUpdate object w = ((object', result, Some e), w') ->
  exists evs,
    trace w' = trace w ++ evs /\ Forall (fun ev => writes_secret ev = false) evs.
Proof.
  rewrite AllocationFacts.allocation_processUpdate_unfold. cbv zeta.
  set (w0 := (emit _ w).2).
  assert (Ht0 : trace w0 = trace w ++ [EvInfo AllocationReconciler.logger
                 "Fulfilling request" (AllocationReconciler.fulfillKV object)])
    by reflexivity.
  destruct (decide _).
  - destruct (AllocationFacts.allocation_uuid_NewString_frame w0)
      as (_ & _ & _ & _ & _ & Htu & _).
    destruct (CreateOrPatch _ _ _) as [[[sec op] [e1|]] w2] eqn:Ec; [|done].
    intros [= <- <- <- <-].
    destruct (CreateOrPatch_refused _ _ _ _ _ _ _ Ec) as (evs & Ht & Hq).
    eexists. split; [rewrite Ht, Htu, Ht0, <- app_assoc; reflexivity|].
    by apply Forall_cons.
  - destruct (CreateOrPatch _ _ _) as [[[sec op] [e1|]] w2] eqn:Ec; [|done].
    intros [= <- <- <- <-].
    destruct (CreateOrPatch_refused _ _ _ _ _ _ _ Ec) as (evs & Ht & Hq).
    eexists. split; [rewrite Ht, Ht0, <- app_assoc; reflexivity|].
    by apply Forall_cons.
Qed.

Section RefusedPass.
Context {Sp St : Type} `{Schema Sp St}.
Local Abbreviation O := (Object Sp St).
Local Abbreviation W := (World (Object Sp St)).
Variable finalizerName logger : string.
Variable processUpdate processDelete : O -> M W (O * Result * error).

Local Abbreviation R := (Reconcile finalizerName logger processUpdate processDelete).

Lemma engine_failed_update_writes_no_secret :
  (forall o w o' r e w',
      processUpdate o w = ((o', r, Some e), w') ->
      secrets w' = secrets w
      /\ exists evs,
           trace w' = trace w ++ evs
           /\ Forall (fun ev => writes_secret ev = false) evs) ->
  failed_update_writes_no_secret finalizerName R processUpdate.
Proof.
  intros Hhook request w o copy result e w3 Hg Hu Hdel Eh.
  pose proof (Reconcile_update finalizerName logger processUpdate processDelete
                request w o Hg Hu Hdel) as Er.
  rewrite Eh in Er.
  destruct (Hhook _ _ _ _ _ _ Eh) as (Hs & hevs & Hth & Hqh).
  apply client_Get_inl in Hg as (_ & _ & Eg). rewrite Eg in Hth, Hs.
  assert (Ht : trace (R request w).2 =
               trace w ++ ([EvGet request None; EvHook Apply o] ++ hevs)
                 ++ [EvError logger e "Failed to process update" (requestKV request)]).
  { rewrite Er. cbn. rewrite Hth. cbn. by rewrite <- ?app_assoc. }
  rewrite (pass_events_app _ _ _ Ht).
  split.
  - rewrite Er. cbn. by rewrite Hs.
  - apply Forall_app. split; [|by repeat constructor].
    by repeat (apply Forall_cons; split; [done|]).
Qed.
End RefusedPass.

(** * The claims *)

(** C6.  When the Get of a pass answers not-found, [Reconcile] of either
    kind returns the zero result and no error, and does nothing else: the
    pass consists of the Get and one log line, no hook is called, no patch
    is sent, and the stored objects and secrets are as before. *)
Theorem not_found_is_a_quiet_success (finalizerName : string) :
  not_found_is_success AllocationReconciler.logger
    (AllocationReconciler.Reconcile finalizerName)
  /\ not_found_is_success ReleaseReconciler.logger
       (ReleaseReconciler.Reconcile finalizerName).
Proof. split; apply engine_not_found_is_success. Qed.

Lemma not_found_is_a_quiet_success_witness :
  let wa : AllocationReconciler.W := Sample.world None [] in
  let wr : ReleaseReconciler.W := Sample.world None [] in
  ((client_Get Sample.key wa).1 = inr ErrNotFound
   /\ (AllocationReconciler.Reconcile Sample.finalizerName Sample.key wa).1
      = (zeroResult, None))
  /\ ((client_Get Sample.key wr).1 = inr ErrNotFound
      /\ (ReleaseReconciler.Reconcile Sample.finalizerName Sample.key wr).1
         = (zeroResult, None)).
Proof.
  intros wa wr. split.
  - split; [reflexivity|].
    apply (proj1 (not_found_is_a_quiet_success Sample.finalizerName) Sample.key wa).
    reflexivity.
  - split; [reflexivity|].
    apply (proj2 (not_found_is_a_quiet_success Sample.finalizerName) Sample.key wr).
    reflexivity.
Defined.

(** C3.  In every pass of either kind, the cleanup hook ([processDelete])
    is called only on the object the pass fetched, and only when that
    object's deletion timestamp is set (and is not the zero time): an
    object with a null deletion timestamp never reaches [processDelete]. *)
Theorem cleanup_requires_deletion_timestamp (finalizerName : string) :
  cleanup_only_when_deleting (AllocationReconciler.Reconcile finalizerName)
  /\ cleanup_only_when_deleting (ReleaseReconciler.Reconcile finalizerName).
Proof.
  split.
  - apply engine_cleanup_only_when_deleting.
    + apply AllocationFacts.allocation_processUpdate_quiet.
    + apply (cleanup_only_logs_quiet AllocationReconciler.logger),
        AllocationFacts.allocation_processDelete_only_logs.
  - apply engine_cleanup_only_when_deleting.
    + apply ReleaseFacts.release_processUpdate_quiet.
    + apply (cleanup_only_logs_quiet ReleaseReconciler.logger),
        ReleaseFacts.release_processDelete_only_logs.
Qed.

Lemma cleanup_requires_deletion_timestamp_witness :
  let o := Sample.allocation (Some 1700%Z) [Sample.finalizerName] in
  let w : AllocationReconciler.W := Sample.world (Some o) [] in
  EvHook Cleanup o
    ∈ pass_events (AllocationReconciler.Reconcile Sample.finalizerName Sample.key) w
  /\ DeletionTimestamp (ObjMeta o) <> None.
Proof.
  intros o w.
  assert (Hin : EvHook Cleanup o
            ∈ pass_events (AllocationReconciler.Reconcile Sample.finalizerName Sample.key) w).
  { apply (list_elem_of_lookup_2 _ 1). vm_compute. reflexivity. }
  split; [exact Hin|].
  exact (proj1 (proj2 (proj1 (cleanup_requires_deletion_timestamp Sample.finalizerName)
                         Sample.key w o Hin))).
Defined.

(** C4.  On a fetched object whose deletion timestamp is null and whose
    finalizers do not hold the token, [Reconcile] of either kind sends one
    metadata patch whose copy is the object with the token appended to its
    finalizers and nothing else changed, and returns: no hook is called and
    no status patch is sent in that pass.  When the patch goes through the
    stored object is that copy; when it fails the error is logged and
    returned and the store is as before. *)
Theorem claiming_pass_only_adds_the_finalizer (finalizerName : string) :
  claim_pass_is_isolated finalizerName AllocationReconciler.logger
    (AllocationReconciler.Reconcile finalizerName)
  /\ claim_pass_is_isolated finalizerName ReleaseReconciler.logger
       (ReleaseReconciler.Reconcile finalizerName).
Proof. split; apply engine_claim_pass_is_isolated. Qed.

Lemma claiming_pass_only_adds_the_finalizer_witness :
  let oa := Sample.allocation None [] in
  let wa : AllocationReconciler.W := Sample.world (Some oa) [] in
  let or := Sample.release None ["example.com/other"] in
  let wr : ReleaseReconciler.W := Sample.world (Some or) [None; Some ErrConflict] in
  objects (AllocationReconciler.Reconcile Sample.finalizerName Sample.key wa).2
    = <[Sample.key := Sample.allocation None [Sample.finalizerName]]> (objects wa)
  /\ objects (ReleaseReconciler.Reconcile Sample.finalizerName Sample.key wr).2
     = objects wr.
Proof.
  intros oa wa or wr. split.
  - apply (proj1 (claiming_pass_only_adds_the_finalizer Sample.finalizerName)
             Sample.key wa oa); reflexivity.
  - apply (proj2 (claiming_pass_only_adds_the_finalizer Sample.finalizerName)
             Sample.key wr or); reflexivity.
Defined.

(** C5.  On the delete path (deletion timestamp set, and not the zero
    time), [Reconcile] of either kind calls the cleanup hook, then sends
    the status patch, then sends the metadata patch that removes the
    finalizer, in this order.  When the status patch fails the pass logs
    and returns its error without sending the metadata patch, and the
    stored object keeps its finalizers.  And whatever the cleanup hook of a
    kind is, when it fails the pass returns its error at once, in the world
    the hook left: no patch is sent after it. *)
Theorem delete_path_runs_in_order (finalizerName : string) :
  (forall (Sp St : Type) (S : Schema Sp St) (logger : string)
          (processUpdate processDelete :
             Object Sp St -> M (World (Object Sp St)) (Object Sp St * Result * error))
          (request : NamespacedName) (w w3 : World (Object Sp St))
          (o copy : Object Sp St) (result : Result) (e : Err),
      (client_Get request w).1 = inl o ->
      deleting o = true ->
      processDelete o (emit (EvHook Cleanup o) (client_Get request w).2).2
        = ((copy, result, Some e), w3) ->
      Reconcile finalizerName logger processUpdate processDelete request w
        = ((result, Some e), w3))
  /\ delete_path_in_order finalizerName AllocationReconciler.logger
       (AllocationReconciler.Reconcile finalizerName)
  /\ delete_path_in_order finalizerName ReleaseReconciler.logger
       (ReleaseReconciler.Reconcile finalizerName).
Proof.
  split_and!.
  - intros. by eapply engine_failed_cleanup_stops_pass.
  - apply (engine_delete_path_in_order finalizerName AllocationReconciler.logger
             AllocationReconciler.processUpdate AllocationReconciler.processDelete).
    apply AllocationFacts.allocation_processDelete_only_logs.
  - apply (engine_delete_path_in_order finalizerName ReleaseReconciler.logger
             ReleaseReconciler.processUpdate ReleaseReconciler.processDelete).
    apply ReleaseFacts.release_processDelete_only_logs.
Qed.

(** A cleanup hook that fails, to see the first part of C5 at work. *)
Lemma delete_path_runs_in_order_witness :
  let o := Sample.allocation (Some 1700%Z) [Sample.finalizerName] in
  let failing : AllocationReconciler.NodeAllocationRequest ->
                M AllocationReconciler.W
                  (AllocationReconciler.NodeAllocationRequest * Result * error) :=
    fun o w => ((o, zeroResult, Some ErrUnavailable), w) in
  let w : AllocationReconciler.W := Sample.world (Some o) [None; Some ErrConflict] in
  let or := Sample.release (Some 1700%Z) [Sample.finalizerName] in
  let wr : ReleaseReconciler.W := Sample.world (Some or) [] in
  (Reconcile Sample.finalizerName AllocationReconciler.logger
     AllocationReconciler.processUpdate failing Sample.key w).1
    = (zeroResult, Some ErrUnavailable)
  /\ ((AllocationReconciler.Reconcile Sample.finalizerName Sample.key w).1
       = (zeroResult, Some ErrConflict)
      /\ objects (AllocationReconciler.Reconcile Sample.finalizerName Sample.key w).2
         = objects w)
  /\ objects (ReleaseReconciler.Reconcile Sample.finalizerName Sample.key wr).2 = ∅.
Proof.
  intros o failing w or wr. split; [|split].
  - rewrite (proj1 (delete_path_runs_in_order Sample.finalizerName) _ _ _
               AllocationReconciler.logger AllocationReconciler.processUpdate failing
               Sample.key w (emit (EvHook Cleanup o) (client_Get Sample.key w).2).2
               o o zeroResult ErrUnavailable); reflexivity.
  - destruct (proj1 (proj2 (delete_path_runs_in_order Sample.finalizerName))
                Sample.key w o 1700%Z) as (Hr & _ & _ & Ho);
      [reflexivity | reflexivity | reflexivity | lia |].
    split; [exact Hr | exact Ho].
  - destruct (proj2 (proj2 (delete_path_runs_in_order Sample.finalizerName))
                Sample.key wr or 1700%Z) as (_ & _ & _ & Ho);
      [reflexivity | reflexivity | reflexivity | lia |].
    rewrite Ho. vm_compute. reflexivity.
Defined.



(** C2, as the code has it.  The cleanup hook of either kind is called on
    every fetched object that is being deleted, whether or not it carries
    the finalizer; and the finalizer is never removed before the hook has
    run: a metadata patch whose finalizers lack the token is sent only
    after the call of the hook in the same pass. *)
Theorem cleanup_precedes_finalizer_removal (finalizerName : string) :
  (cleanup_whenever_deleting (AllocationReconciler.Reconcile finalizerName)
   /\ cleanup_before_finalizer_removal finalizerName
        (AllocationReconciler.Reconcile finalizerName))
  /\ (cleanup_whenever_deleting (ReleaseReconciler.Reconcile finalizerName)
      /\ cleanup_before_finalizer_removal finalizerName
           (ReleaseReconciler.Reconcile finalizerName)).
Proof.
  pose proof (cleanup_only_logs_quiet AllocationReconciler.logger _
                AllocationFacts.allocation_processDelete_only_logs) as Ha.
  pose proof (cleanup_only_logs_quiet ReleaseReconciler.logger _
                ReleaseFacts.release_processDelete_only_logs) as Hr.
  split; split.
  - by apply engine_cleanup_whenever_deleting; [apply AllocationFacts.allocation_processUpdate_quiet|].
  - by apply engine_cleanup_before_finalizer_removal;
      [apply AllocationFacts.allocation_processUpdate_quiet|].
  - by apply engine_cleanup_whenever_deleting; [apply ReleaseFacts.release_processUpdate_quiet|].
  - by apply engine_cleanup_before_finalizer_removal;
      [apply ReleaseFacts.release_processUpdate_quiet|].
Qed.

Lemma cleanup_precedes_finalizer_removal_witness :
  let o := Sample.allocation (Some 1700%Z) [Sample.finalizerName] in
  let w : AllocationReconciler.W := Sample.world (Some o) [] in
  let pre : list (Event AllocationReconciler.NodeAllocationRequest) :=
    [EvGet Sample.key None; EvHook Cleanup o;
     cleanupLog AllocationReconciler.logger o; EvStatusPatch o o None] in
  EvHook Cleanup o
    ∈ pass_events (AllocationReconciler.Reconcile Sample.finalizerName Sample.key) w
  /\ exists o', EvHook Cleanup o' ∈ pre.
Proof.
  intros o w pre. split.
  - apply (proj1 (proj1 (cleanup_precedes_finalizer_removal Sample.finalizerName))
             Sample.key w o); reflexivity.
  - apply (proj2 (proj1 (cleanup_precedes_finalizer_removal Sample.finalizerName))
             Sample.key w pre (withoutFinalizer Sample.finalizerName o) o None []);
      reflexivity.
Defined.

(** C2 as stated fails: an allocation request that is being deleted and
    carries only somebody else's finalizer has the cleanup hook called on
    it. *)
Lemma cleanup_runs_without_the_finalizer :
  let o := Sample.allocation (Some 1700%Z) ["example.com/other"] in
  let w : AllocationReconciler.W := Sample.world (Some o) [] in
  EvHook Cleanup o
    ∈ pass_events (AllocationReconciler.Reconcile Sample.finalizerName Sample.key) w
  /\ ContainsFinalizer (Finalizers (ObjMeta o)) Sample.finalizerName = false.
Proof.
  intros o w. split; [|reflexivity].
  apply (list_elem_of_lookup_2 _ 1). vm_compute. reflexivity.
Qed.

(** C9, as the code has it.  When the update hook of the allocation
    reconciler returns an error, the pass logs it (Failed to process
    update) and returns it, and sends no patch on the request, neither on
    its metadata nor on its status: the stored objects are as before, so
    the failure shows in the log and in the returned error only.  The one
    write the hook may have tried before it failed is the create or the
    patch of the credentials secret; that call was then refused, no create
    or patch of a secret went through in the pass, and the secrets are as
    before.  The update hook of the release reconciler never returns an
    error. *)
Theorem failed_update_is_logged_and_returned (finalizerName : string) :
  failed_update_only_logged finalizerName AllocationReconciler.logger
    (AllocationReconciler.Reconcile finalizerName) AllocationReconciler.processUpdate
  /\ failed_update_writes_no_secret finalizerName
       (AllocationReconciler.Reconcile finalizerName)
       AllocationReconciler.processUpdate
  /\ (forall o w, (ReleaseReconciler.processUpdate o w).1.2 = None).
Proof.
  split; [|split; [|done]].
  - apply engine_failed_update_only_logged.
    + apply AllocationFacts.allocation_processUpdate_quiet.
    + intros o w. apply AllocationFacts.allocation_processUpdate_frame.
  - apply engine_failed_update_writes_no_secret.
    intros o w o' r e w' E. split.
    + by destruct (MoreAllocationFacts.allocation_processUpdate_failed _ _ _ _ _ _ E)
        as (Hs & _).
    + exact (allocation_processUpdate_refused _ _ _ _ _ _ E).
Qed.

Lemma failed_update_is_logged_and_returned_witness :
  let o := Sample.allocation None [Sample.finalizerName] in
  let w : AllocationReconciler.W := Sample.world (Some o) [None; Some ErrUnavailable] in
  (AllocationReconciler.Reconcile Sample.finalizerName Sample.key w).1.2
    = Some ErrUnavailable
  /\ objects (AllocationReconciler.Reconcile Sample.finalizerName Sample.key w).2
     = objects w.
Proof.
  intros o w.
  pose (r := AllocationReconciler.processUpdate o
               (emit (EvHook Apply o) (client_Get Sample.key w).2).2).
  destruct (proj1 (failed_update_is_logged_and_returned Sample.finalizerName)
              Sample.key w o r.1.1.1 r.1.1.2 ErrUnavailable r.2)
    as (Hr & _ & _ & Ho); [reflexivity | reflexivity | reflexivity | | ].
  - vm_compute. reflexivity.
  - split; [by rewrite Hr | exact Ho].
Defined.

(** C9 as stated fails: the secret cannot be read, the update hook of the
    allocation reconciler fails, the pass returns the error, and the stored
    request has no condition at all: nothing was written to its status. *)
Lemma failed_update_leaves_no_condition :
  let o := Sample.allocation None [Sample.finalizerName] in
  let w : AllocationReconciler.W := Sample.world (Some o) [None; Some ErrUnavailable] in
  let w' := (AllocationReconciler.Reconcile Sample.finalizerName Sample.key w).2 in
  (AllocationReconciler.Reconcile Sample.finalizerName Sample.key w).1.2
    = Some ErrUnavailable
  /\ (AllocationReconciler.Conditions ∘ Status) <$> (objects w' !! Sample.key) = Some []
  /\ Forall (fun e => touches_object e = false)
       (pass_events (AllocationReconciler.Reconcile Sample.finalizerName Sample.key) w).
Proof.
  intros o w w'. split_and!.
  - vm_compute. reflexivity.
  - vm_compute. reflexivity.
  - vm_compute. repeat constructor.
Qed.

(** C1, as the code has it.  Take an object that already carries the
    finalizer or is being deleted, and two passes of [Reconcile] in a row
    on it, with no change from outside, no call failing, and the first
    pass successful.  Then the second pass writes nothing new: every patch
    it sends has a copy equal to its base (the object the first pass left
    in the store), it creates and patches no secret, and the stored objects
    and secrets after it are those the first pass left. *)
Theorem second_pass_writes_nothing_new (finalizerName : string) :
  second_pass_is_noop finalizerName (AllocationReconciler.Reconcile finalizerName)
  /\ second_pass_is_noop finalizerName (ReleaseReconciler.Reconcile finalizerName).
Proof.
  split.
  - apply (engine_second_pass_is_noop finalizerName AllocationReconciler.logger
             AllocationReconciler.processUpdate AllocationReconciler.processDelete).
    + apply AllocationFacts.allocation_processDelete_only_logs.
    + apply AllocationFacts.allocation_processUpdate_calm.
    + apply AllocationFacts.allocation_processUpdate_settles.
  - apply (engine_second_pass_is_noop finalizerName ReleaseReconciler.logger
             ReleaseReconciler.processUpdate ReleaseReconciler.processDelete).
    + apply ReleaseFacts.release_processDelete_only_logs.
    + apply ReleaseFacts.release_processUpdate_calm.
    + apply ReleaseFacts.release_processUpdate_settles.
Qed.

Lemma second_pass_writes_nothing_new_witness :
  let oa := Sample.allocation None [Sample.finalizerName] in
  let wa : AllocationReconciler.W := Sample.world (Some oa) [] in
  let Ra := AllocationReconciler.Reconcile Sample.finalizerName Sample.key in
  let or := Sample.release (Some 1700%Z) [Sample.finalizerName; "example.com/other"] in
  let wr : ReleaseReconciler.W := Sample.world (Some or) [] in
  let Rr := ReleaseReconciler.Reconcile Sample.finalizerName Sample.key in
  (objects (Ra (Ra wa).2).2 = objects (Ra wa).2
   /\ secrets (Ra (Ra wa).2).2 = secrets (Ra wa).2)
  /\ (objects (Rr (Rr wr).2).2 = objects (Rr wr).2
      /\ secrets (Rr (Rr wr).2).2 = secrets (Rr wr).2).
Proof.
  intros oa wa Ra or wr Rr. split.
  - destruct (proj1 (second_pass_writes_nothing_new Sample.finalizerName)
                Sample.key wa oa) as (Ho & Hs & _);
      [reflexivity | reflexivity | reflexivity | reflexivity | vm_compute; reflexivity |].
    split; [exact Ho | exact Hs].
  - destruct (proj2 (second_pass_writes_nothing_new Sample.finalizerName)
                Sample.key wr or) as (Ho & Hs & _);
      [reflexivity | reflexivity | reflexivity | reflexivity | vm_compute; reflexivity |].
    split; [exact Ho | exact Hs].
Defined.

(** C1 as stated fails: on a fresh allocation request the first pass only
    adds the finalizer, and the second pass, with nothing changed from
    outside, writes a status that is not the one in the store. *)
Lemma second_pass_on_a_fresh_request_writes_status :
  let o := Sample.allocation None [] in
  let w : AllocationReconciler.W := Sample.world (Some o) [] in
  let R := AllocationReconciler.Reconcile Sample.finalizerName Sample.key in
  let w1 := (R w).2 in
  let w2 := (R w1).2 in
  (R w).1 = (zeroResult, None)
  /\ (R w1).1 = (zeroResult, None)
  /\ Status <$> (objects w1 !! Sample.key) = Some emptyAllocationStatus
  /\ Status <$> (objects w2 !! Sample.key) <> Some emptyAllocationStatus
  /\ ~ Forall (fun e => noop_write e = true) (pass_events R w1).
Proof.
  intros o w R w1 w2. split_and!.
  - vm_compute. reflexivity.
  - vm_compute. reflexivity.
  - vm_compute. reflexivity.
  - vm_compute. discriminate.
  - intros HF.
    assert (Hb : forallb noop_write (pass_events R w1) = true).
    { apply forallb_forall. intros x Hx. rewrite Forall_forall in HF.
      apply HF. by apply list_elem_of_In. }
    vm_compute in Hb. discriminate.
Qed.

(** C7, as the code has it.  A successful [processUpdate] on an allocation
    request with empty status leaves in it a generated node identifier (the
    random UUID, never the empty string), the condition Fulfilled with
    status True, and a BMC credentials name that is the name of the request
    followed by -bmc; and the secret of that name is in the store, in the
    namespace of the request, with the user name and the password in its
    data: the pass created it, or patched it, or found it there as it
    should be and sent no write for it. *)
Theorem allocation_fulfils_the_request
  (object object' : AllocationReconciler.NodeAllocationRequest) (result : Result)
  (w w' : AllocationReconciler.W) :
  Status object = emptyAllocationStatus ->
  AllocationReconciler.processUpdate object w = ((object', result, None), w') ->
  AllocationReconciler.NodeID (Status object') = (uuid_NewString w).1
  /\ AllocationReconciler.NodeID (Status object') <> ""
  /\ AllocationReconciler.Conditions (Status object')
     = [ {| CondType := FulfilledCondition;
            CondStatus := ConditionTrue;
            ObservedGeneration := 0;
            LastTransitionTime := now w';
            Reason := "Fulfilled";
            Message := "The request has been fulfilled" |} ]
  /\ AllocationReconciler.CredentialsName (AllocationReconciler.StatusBMC (Status object'))
     = Name (ObjMeta object) +:+ "-bmc"
  /\ exists sec data,
       secrets w' !! (Namespace (ObjMeta object), Name (ObjMeta object) +:+ "-bmc")
         = Some sec
       /\ Namespace (SecretMeta sec) = Namespace (ObjMeta object)
       /\ Name (SecretMeta sec)
          = AllocationReconciler.CredentialsName
              (AllocationReconciler.StatusBMC (Status object'))
       /\ Data sec = Some data
       /\ data !! "username" = Some "myuser"
       /\ data !! "password" = Some "mypass"
       /\ (EvSecretCreate sec None
             ∈ pass_events (AllocationReconciler.processUpdate object) w
           \/ (exists base,
                 EvSecretPatch sec base None
                   ∈ pass_events (AllocationReconciler.processUpdate object) w)
           \/ secrets w !! (Namespace (ObjMeta object), Name (ObjMeta object) +:+ "-bmc")
              = Some sec).
Proof.
  intros Hst Eh.
  destruct (AllocationFacts.allocation_processUpdate_ok _ _ _ _ _ Eh)
    as (Hid & Hne & Hbmc & Hcs & sec & Hs & Hk & _ & data & Hd).
  destruct (AllocationFacts.allocation_processUpdate_secret _ _ _ _ _ Eh) as (sec' & Hl & Hhow).
  assert (sec' = sec) as ->.
  { rewrite Hs, lookup_insert_eq in Hl. by injection Hl. }
  rewrite Hst in Hid, Hcs. cbn in Hid, Hcs.
  unfold ObjectKey, bmcKey in Hk. injection Hk as Hns Hnm.
  split_and!; try done.
  - by rewrite Hbmc.
  - exists sec, (credentials data). split_and!; try done.
    + by rewrite Hbmc.
    + unfold credentials. rewrite lookup_insert_ne by done. by rewrite lookup_insert_eq.
    + unfold credentials. by rewrite lookup_insert_eq.
Qed.

Lemma allocation_fulfils_the_request_witness :
  let o := Sample.allocation None [Sample.finalizerName] in
  let w : AllocationReconciler.W := Sample.world (Some o) [] in
  let r := AllocationReconciler.processUpdate o w in
  r.1.2 = None
  /\ AllocationReconciler.NodeID (Status r.1.1.1) <> ""
  /\ AllocationReconciler.CredentialsName (AllocationReconciler.StatusBMC (Status r.1.1.1))
     = "cu-113d00a-22422-bmc".
Proof.
  intros o w r. split; [reflexivity|].
  destruct (allocation_fulfils_the_request o r.1.1.1 r.1.1.2 w r.2)
    as (_ & Hne & _ & Hcn & _); [reflexivity | vm_compute; reflexivity |].
  split; [exact Hne | exact Hcn].
Defined.

(** C7 as stated fails: a pass fulfils the request and writes the secret,
    but its status patch is refused, so the stored status stays empty.  On
    that request the update hook succeeds again, and this time it neither
    creates nor patches the secret: what it finds is what it would write. *)
Lemma allocation_fulfils_without_writing_the_secret :
  let o := Sample.allocation None [Sample.finalizerName] in
  let w0 : AllocationReconciler.W :=
    Sample.world (Some o) [None; None; None; Some ErrConflict] in
  let w := (AllocationReconciler.Reconcile Sample.finalizerName Sample.key w0).2 in
  let r := AllocationReconciler.processUpdate o w in
  objects w !! Sample.key = Some o
  /\ Status o = emptyAllocationStatus
  /\ r.1.2 = None
  /\ AllocationReconciler.CredentialsName
       (AllocationReconciler.StatusBMC (Status r.1.1.1)) = "cu-113d00a-22422-bmc"
  /\ is_Some (secrets w !! bmcKey o)
  /\ secrets r.2 = secrets w
  /\ Forall (fun ev => writes_secret ev = false)
       (pass_events (AllocationReconciler.processUpdate o) w).
Proof.
  intros o w0 w r.
  split; [vm_compute; reflexivity|]. split; [reflexivity|].
  split; [vm_compute; reflexivity|]. split; [vm_compute; reflexivity|].
  split; [vm_compute; by eexists|]. split; [vm_compute; reflexivity|].
  assert (Hb : forallb (fun ev => negb (writes_secret ev))
                 (pass_events (AllocationReconciler.processUpdate o) w) = true)
    by (vm_compute; reflexivity).
  apply Forall_forall. intros ev Hin. apply list_elem_of_In in Hin.
  apply negb_true_iff. exact (proj1 (forallb_forall _ _) Hb ev Hin).
Qed.

(** C8.  The node identifier is stable: on a request whose status already
    has a non-empty NodeID, [processUpdate] of the allocation reconciler
    hands the object back with that NodeID, whether it succeeds or fails,
    and draws no random byte: it generates an identifier only when the
    NodeID is the empty string. *)
Theorem allocation_keeps_the_node_identifier
  (object : AllocationReconciler.NodeAllocationRequest) (w : AllocationReconciler.W) :
  AllocationReconciler.NodeID (Status object) <> "" ->
  AllocationReconciler.NodeID (Status (AllocationReconciler.processUpdate object w).1.1.1)
    = AllocationReconciler.NodeID (Status object)
  /\ entropy (AllocationReconciler.processUpdate object w).2 = entropy w.
Proof. apply AllocationFacts.allocation_processUpdate_keeps_NodeID. Qed.

Lemma allocation_keeps_the_node_identifier_witness :
  let o := Sample.allocated [Sample.finalizerName] in
  let w : AllocationReconciler.W := Sample.world (Some o) [] in
  AllocationReconciler.NodeID (Status (AllocationReconciler.processUpdate o w).1.1.1)
    = "acme-c3f64cf1-40c0-4324-b13a-40f22b0d16c5".
Proof.
  intros o w.
  apply (allocation_keeps_the_node_identifier o w). vm_compute. discriminate.
Defined.
